(** * Secure SVG import service (src/JAVASCRIPT/SVG-import.js)

    A shallow embedding of the import gateway: the address classifier
    [isPrivateIp], the pattern-based sanitizer [sanitizeSvg], the name
    grammar [isValidUploadName] and the three request handlers, followed by
    the properties of the specification that concern them.

    JavaScript strings are sequences of UTF-16 code units; they are modelled
    as lists of [N].  Regular expressions are embedded as an abstract syntax
    tree and run by a backtracking matcher written after the matcher
    semantics of ECMA-262 (continuation passing, priority to the left
    alternative, greedy and lazy quantifiers, captures, back-references). *)

From Stdlib Require Import String Ascii NArith Bool Lia DecimalString.
From stdpp Require Import base option list numbers gmap.

Local Open Scope N_scope.

(** ** Strings *)

Fixpoint str (s : string) : list N :=
  match s with
  | EmptyString => []
  | String a s' => N_of_ascii a :: str s'
  end.
Arguments str _%_string.

Definition is_lower (c : N) : bool := (97 <=? c) && (c <=? 122).
Definition is_upper (c : N) : bool := (65 <=? c) && (c <=? 90).
Definition to_upper (c : N) : N := if is_lower c then c - 32 else c.
Definition to_lower (c : N) : N := if is_upper c then c + 32 else c.

(** WhiteSpace and LineTerminator code units: what [\s] matches and what
    [String.prototype.trim] strips. *)
Definition is_space (c : N) : bool :=
  ((9 <=? c) && (c <=? 13)) || (c =? 32) || (c =? 160) || (c =? 5760)
  || ((8192 <=? c) && (c <=? 8202)) || (c =? 8232) || (c =? 8233)
  || (c =? 8239) || (c =? 8287) || (c =? 12288) || (c =? 65279).

Definition is_digit (c : N) : bool := (48 <=? c) && (c <=? 57).

(** [\w]: ASCII letters, digits and the underscore. *)
Definition is_word (c : N) : bool :=
  is_lower c || is_upper c || is_digit c || (c =? 95).

(** [String.prototype.startsWith] *)
Fixpoint startsWith (s p : list N) {struct p} : bool :=
  match p with
  | [] => true
  | a :: p' =>
      match s with
      | [] => false
      | b :: s' => (a =? b) && startsWith s' p'
      end
  end.

Definition str_eqb (s t : list N) : bool := bool_decide (s = t).

(** [String.prototype.trim] *)
Fixpoint trimStart (s : list N) : list N :=
  match s with
  | [] => []
  | c :: s' => if is_space c then trimStart s' else s
  end.

Definition trim (s : list N) : list N :=
  rev (trimStart (rev (trimStart s))).

(** ** Regular expressions *)

Module RegExp.

(** Members of a character class. *)
Inductive cset : Type :=
  | CChar (c : N)
  | CRange (lo hi : N)
  | CDigit
  | CSpace
  | CNotSpace
  | CWord
  | CUnion (a b : cset).

Fixpoint cset_mem (s : cset) (c : N) : bool :=
  match s with
  | CChar a => c =? a
  | CRange lo hi => (lo <=? c) && (c <=? hi)
  | CDigit => is_digit c
  | CSpace => is_space c
  | CNotSpace => negb (is_space c)
  | CWord => is_word c
  | CUnion a b => cset_mem a c || cset_mem b c
  end.

(** Canonicalize of ECMA-262 without the unicode flag: upper-casing of a
    single code unit, never mapping a non-ASCII unit to an ASCII one.  The
    patterns of this program name ASCII characters and white space only, for
    which the ASCII upper-casing below decides every comparison. *)
Definition canonicalize (ic : bool) (c : N) : N :=
  if ic then to_upper c else c.

(** CharacterSetMatcher: some member of the set canonicalizes like [c]. *)
Definition cset_match (ic : bool) (s : cset) (c : N) : bool :=
  cset_mem s c || (ic && (cset_mem s (to_upper c) || cset_mem s (to_lower c))).

Inductive regex : Type :=
  | REmpty
  | RChar (c : N)
  | RSet (invert : bool) (s : cset)
  | RSeq (r1 r2 : regex)
  | RAlt (r1 r2 : regex)
  | RQuant (min : nat) (max : option nat) (greedy : bool) (r : regex)
  | RGroup (n : nat) (r : regex)
  | RBackref (n : nat)
  | RWordBoundary
  | RStart
  | REnd.

(** Matcher state: the input already passed (most recent unit first), the
    input ahead, and the captures as an association list. *)
Record mstate : Type := MState {
  before : list N;
  after : list N;
  caps : list (nat * list N)
}.

Definition cont := mstate -> option mstate.

Definition step1 (x : mstate) (a : N) (rest : list N) : mstate :=
  MState (a :: before x) rest (caps x).

Fixpoint stepn (n : nat) (x : mstate) : mstate :=
  match n with
  | O => x
  | S n' =>
      match after x with
      | [] => x
      | a :: rest => stepn n' (step1 x a rest)
      end
  end.

Fixpoint cap_lookup (n : nat) (cs : list (nat * list N)) : option (list N) :=
  match cs with
  | [] => None
  | (m, s) :: cs' => if Nat.eqb m n then Some s else cap_lookup n cs'
  end.

Definition cap_clear (ns : list nat) (cs : list (nat * list N))
  : list (nat * list N) :=
  List.filter (fun p => negb (existsb (Nat.eqb (fst p)) ns)) cs.
Arguments cap_clear : simpl never.

(** The capture groups inside a term, reset at every iteration of a
    quantifier around it. *)
Fixpoint groups (r : regex) : list nat :=
  match r with
  | RSeq r1 r2 | RAlt r1 r2 => groups r1 ++ groups r2
  | RQuant _ _ _ r1 => groups r1
  | RGroup n r1 => n :: groups r1
  | _ => []
  end.

Fixpoint canon_prefix (ic : bool) (s input : list N) {struct s} : bool :=
  match s with
  | [] => true
  | a :: s' =>
      match input with
      | [] => false
      | b :: input' =>
          (canonicalize ic b =? canonicalize ic a) && canon_prefix ic s' input'
      end
  end.

Definition orelse (a : option mstate) (b : option mstate) : option mstate :=
  match a with
  | Some z => Some z
  | None => b
  end.

Definition head_is_word (l : list N) : bool :=
  match l with
  | [] => false
  | c :: _ => is_word c
  end.

Definition dec_max (max : option nat) : option nat :=
  match max with
  | Some n => Some (Nat.pred n)
  | None => None
  end.

(** RepeatMatcher of ECMA-262 around the matcher [m] of the quantified
    term: an iteration that is not required and consumes nothing fails.
    Every iteration either is a required one or consumes input, so [fuel],
    set by the caller to the required iterations plus the length of the
    input ahead, bounds their number. *)
Fixpoint repeat_matcher (m : cont -> mstate -> option mstate)
  (inner : list nat) (greedy : bool) (k : cont)
  (fuel : nat) (min : nat) (max : option nat) (x : mstate)
  {struct fuel} : option mstate :=
  match fuel with
  | O => None
  | S fuel' =>
      match max with
      | Some O => k x
      | _ =>
          let d := fun y : mstate =>
            if Nat.eqb min 0 && Nat.eqb (length (after y)) (length (after x))
            then None
            else repeat_matcher m inner greedy k fuel'
                   (Nat.pred min) (dec_max max) y in
          let xr := MState (before x) (after x) (cap_clear inner (caps x)) in
          if negb (Nat.eqb min 0) then m d xr
          else if greedy then orelse (m d xr) (k x)
               else orelse (k x) (m d xr)
      end
  end.

Arguments repeat_matcher : simpl never.

(** The matcher of a term run against continuation [k]. *)
Fixpoint rmatch (ic : bool) (r : regex) (k : cont) (x : mstate)
  {struct r} : option mstate :=
  match r with
  | REmpty => k x
  | RChar c =>
      match after x with
      | a :: rest =>
          if canonicalize ic a =? canonicalize ic c
          then k (step1 x a rest) else None
      | [] => None
      end
  | RSet invert s =>
      match after x with
      | a :: rest =>
          if xorb invert (cset_match ic s a)
          then k (step1 x a rest) else None
      | [] => None
      end
  | RSeq r1 r2 => rmatch ic r1 (fun y => rmatch ic r2 k y) x
  | RAlt r1 r2 => orelse (rmatch ic r1 k x) (rmatch ic r2 k x)
  | RQuant min max greedy r1 =>
      repeat_matcher (rmatch ic r1) (groups r1) greedy k
        (S (min + length (after x))) min max x
  | RGroup n r1 =>
      rmatch ic r1
        (fun y =>
           let s := take (length (after x) - length (after y)) (after x) in
           k (MState (before y) (after y) ((n, s) :: caps y)))
        x
  | RBackref n =>
      match cap_lookup n (caps x) with
      | None => k x
      | Some s =>
          if canon_prefix ic s (after x)
          then k (stepn (length s) x) else None
      end
  | RWordBoundary =>
      if xorb (head_is_word (before x)) (head_is_word (after x))
      then k x else None
  | RStart => match before x with [] => k x | _ => None end
  | REnd => match after x with [] => k x | _ => None end
  end.

Arguments rmatch ic !r k x /.

(** One attempt at the current position. *)
Definition match_here (ic : bool) (r : regex) (bef aft : list N)
  : option mstate :=
  rmatch ic r Some (MState bef aft []).

Arguments match_here : simpl never.

(** RegExpBuiltinExec from [lastIndex]: the first position at which the
    pattern matches. *)
Fixpoint exec (ic : bool) (r : regex) (bef aft : list N) : option mstate :=
  match match_here ic r bef aft with
  | Some y => Some y
  | None =>
      match aft with
      | [] => None
      | c :: aft' => exec ic r (c :: bef) aft'
      end
  end.

(** [RegExp.prototype.test] of a pattern without the global flag. *)
Definition test (ic : bool) (r : regex) (s : list N) : bool :=
  match exec ic r [] s with
  | Some _ => true
  | None => false
  end.

(** [String.prototype.replace] with a global pattern and a replacement text
    free of [$]: one scan from left to right; [skip] counts the units of the
    current match still to be dropped.  After an empty match the scan moves
    one unit ahead, as AdvanceStringIndex does. *)
Fixpoint replace_from (ic : bool) (r : regex) (rep : list N)
  (bef aft : list N) (skip : nat) {struct aft} : list N :=
  match skip with
  | S n =>
      match aft with
      | [] => []
      | c :: aft' => replace_from ic r rep (c :: bef) aft' n
      end
  | O =>
      match match_here ic r bef aft with
      | Some y =>
          rep ++
          match aft with
          | [] => []
          | c :: aft' =>
              match (length aft - length (after y))%nat with
              | O => c :: replace_from ic r rep (c :: bef) aft' O
              | S n => replace_from ic r rep (c :: bef) aft' n
              end
          end
      | None =>
          match aft with
          | [] => []
          | c :: aft' => c :: replace_from ic r rep (c :: bef) aft' O
          end
      end
  end.

Definition replace_all (ic : bool) (r : regex) (rep : list N) (s : list N)
  : list N :=
  replace_from ic r rep [] s O.

(** Pattern building blocks. *)
Fixpoint lit (s : list N) : regex :=
  match s with
  | [] => REmpty
  | c :: s' => RSeq (RChar c) (lit s')
  end.

Fixpoint sequence (rs : list regex) : regex :=
  match rs with
  | [] => REmpty
  | r :: rs' => RSeq r (sequence rs')
  end.

Definition star (r : regex) : regex := RQuant 0 None true r.
Definition lazy_star (r : regex) : regex := RQuant 0 None false r.
Definition plus (r : regex) : regex := RQuant 1 None true r.
Definition opt (r : regex) : regex := RQuant 0 (Some 1%nat) true r.
Definition times (n : nat) (r : regex) : regex := RQuant n (Some n) true r.

(** Notions used to state what the matcher does. *)

(** State [y] lies ahead of [x] in the same input: the units [m] were
    passed in between. *)
Definition extends (x y : mstate) : Prop :=
  exists m, after x = m ++ after y /\ before y = rev m ++ before x.

(** A sufficient syntactic condition for a term to pass at least one unit
    whenever it matches. *)
Fixpoint consumes (r : regex) : bool :=
  match r with
  | RChar _ | RSet _ _ => true
  | RSeq r1 r2 => consumes r1 || consumes r2
  | RAlt r1 r2 => consumes r1 && consumes r2
  | RGroup _ r1 => consumes r1
  | _ => false
  end.

(** The units of [s] and [t] canonicalize alike, one by one. *)
Definition canon_eq (ic : bool) (s t : list N) : Prop :=
  Forall2 (fun a c => canonicalize ic a = canonicalize ic c) s t.

(** The units matched by a class term. *)
Definition in_set (ic invert : bool) (s : cset) (a : N) : bool :=
  xorb invert (cset_match ic s a).

(** No attempt started inside [pre] matches; [rest] follows [pre]. *)
Fixpoint no_match_within (ic : bool) (r : regex) (bef pre rest : list N)
  : bool :=
  match pre with
  | [] => true
  | c :: pre' =>
      match match_here ic r bef (pre ++ rest) with
      | Some _ => false
      | None => no_match_within ic r (c :: bef) pre' rest
      end
  end.

End RegExp.

Import RegExp.

Definition chr (a : ascii) : N := N_of_ascii a.
Arguments chr _%_char.

Definition dquote : N := 34.
Definition squote : N := 39.

(** ** Helpers of the service *)

(** Character classes of the patterns. *)
Definition ws : regex := RSet false CSpace.                    (* \s *)
Definition any : regex := RSet false (CUnion CSpace CNotSpace). (* [\s\S] *)
Definition wordc : regex := RSet false CWord.                  (* \w *)
Definition digit : regex := RSet false CDigit.                 (* \d *)
Definition notc (c : N) : regex := RSet true (CChar c).        (* [^c] *)
Definition not_ws_gt : regex :=                                (* [^\s>] *)
  RSet true (CUnion CSpace (CChar (chr ">"))).

(** [/<!\s*DOCTYPE/i] *)
Definition re_doctype : regex :=
  sequence [lit (str "<!"); star ws; lit (str "DOCTYPE")].

(** [/<!ENTITY/i] *)
Definition re_entity : regex := lit (str "<!ENTITY").

(** [/<script\b[^>]*>[\s\S]*?<\/script\s*>/gi] *)
Definition re_script : regex :=
  sequence [lit (str "<script"); RWordBoundary; star (notc (chr ">"));
            RChar (chr ">"); lazy_star any; lit (str "</script"); star ws;
            RChar (chr ">")].

(** A value between two quotes [q] that starts with [r]: [q r [^q]* q]. *)
Definition quoted (q : N) (r : regex) : regex :=
  sequence [RChar q; r; star (notc q); RChar q].

(** Line 57, flags gi; D stands for the double quote:
    [/\son\w+\s*=\s*(?:D[^D]*D|'[^']*'|[^\s>]+)/] *)
Definition re_handler : regex :=
  sequence [ws; lit (str "on"); plus wordc; star ws; RChar (chr "="); star ws;
            RAlt (quoted dquote REmpty)
                 (RAlt (quoted squote REmpty) (plus not_ws_gt))].

(** Line 60, flags gi:
    [/(href|xlink:href)\s*=\s*(?:Djavascript:[^D]*D|'javascript:[^']*'|javascript:[^\s>]+)/] *)
Definition re_jshref : regex :=
  sequence [RGroup 1 (RAlt (lit (str "href")) (lit (str "xlink:href")));
            star ws; RChar (chr "="); star ws;
            RAlt (quoted dquote (lit (str "javascript:")))
                 (RAlt (quoted squote (lit (str "javascript:")))
                       (sequence [lit (str "javascript:"); plus not_ws_gt]))].

(** [/<(iframe|object|embed|foreignObject)\b[^>]*>[\s\S]*?<\/\1\s*>/gi] *)
Definition re_embed : regex :=
  sequence [RChar (chr "<");
            RGroup 1 (RAlt (lit (str "iframe"))
                     (RAlt (lit (str "object"))
                     (RAlt (lit (str "embed")) (lit (str "foreignObject")))));
            RWordBoundary; star (notc (chr ">")); RChar (chr ">");
            lazy_star any; lit (str "</"); RBackref 1; star ws; RChar (chr ">")].

(** [https?:\/\/], the start of a quoted external value *)
Definition http_scheme : regex :=
  sequence [lit (str "http"); opt (RChar (chr "s")); lit (str "://")].

(** Line 67, flags gi:
    [/(xlink:href|href)\s*=\s*(?:Dhttps?:\/\/[^D]*D|'https?:\/\/[^']*')/] *)
Definition re_external : regex :=
  sequence [RGroup 1 (RAlt (lit (str "xlink:href")) (lit (str "href")));
            star ws; RChar (chr "="); star ws;
            RAlt (quoted dquote http_scheme) (quoted squote http_scheme)].

(** [/<svg\b[^>]*>/i] *)
Definition re_svg : regex :=
  sequence [lit (str "<svg"); RWordBoundary; star (notc (chr ">"));
            RChar (chr ">")].

(** [/^[a-f0-9\-]{36}\.svg$/i] *)
Definition hexdash : cset :=
  CUnion (CRange (chr "a") (chr "f"))
         (CUnion (CRange (chr "0") (chr "9")) (CChar (chr "-"))).

Definition re_upload_name : regex :=
  sequence [RStart; times 36 (RSet false hexdash); lit (str ".svg"); REnd].

(** [/^172\.(1[6-9]|2\d|3[0-1])\./] *)
Definition re_172 : regex :=
  sequence [RStart; lit (str "172.");
            RGroup 1
              (RAlt (sequence [RChar (chr "1"); RSet false (CRange (chr "6") (chr "9"))])
              (RAlt (sequence [RChar (chr "2"); digit])
                    (sequence [RChar (chr "3"); RSet false (CRange (chr "0") (chr "1"))])));
            RChar (chr ".")].

(** A call either returns or throws. *)
Inductive outcome (A : Type) : Type :=
  | Return (a : A)
  | Throw (message : list N).
Arguments Return {A} a.
Arguments Throw {A} message.

(** The five removals of [sanitizeSvg], in source order. *)
Definition strip_script (t : list N) : list N := replace_all true re_script [] t.
Definition strip_handler (t : list N) : list N := replace_all true re_handler [] t.
Definition strip_jshref (t : list N) : list N := replace_all true re_jshref [] t.
Definition strip_embed (t : list N) : list N := replace_all true re_embed [] t.
Definition strip_external (t : list N) : list N := replace_all true re_external [] t.

Definition sanitizeSvg (svgText : list N) : outcome (list N) :=
  if test true re_doctype svgText || test true re_entity svgText
  then Throw (str "Forbidden SVG: contains DOCTYPE/ENTITY declarations")
  else
    let svgText := strip_script svgText in
    let svgText := strip_handler svgText in
    let svgText := strip_jshref svgText in
    let svgText := strip_embed svgText in
    let svgText := strip_external svgText in
    Return svgText.

Definition isValidUploadName (name : list N) : bool :=
  test true re_upload_name name.

(** [net.isIP] belongs to the platform; the classifier takes it as a
    parameter: 0 for a text that is no address literal, 4 or 6 otherwise. *)
Definition isPrivateIp (isIP : list N -> N) (ip : list N) : bool :=
  if isIP ip =? 0 then false
  else if startsWith ip (str "10.") || startsWith ip (str "127.")
          || startsWith ip (str "169.254.") || startsWith ip (str "192.168.")
          || test false re_172 ip
  then true
  else if str_eqb ip (str "::1") || startsWith ip (str "fe80")
          || str_eqb ip (str "::")
  then true
  else false.

(** ** The world around the handlers *)

(** What [new URL(u)] exposes to this program. *)
Record URL : Type := { protocol : list N; hostname : list N }.

(** An entry of [dns.lookup(hostname, { all: true })]. *)
Record LookupAddress : Type := { address : list N; family : N }.

(** The ways [await fetch(url, ...)] followed by [await r.text()] ends: the
    abort of the 7 second timer, another exception, or a response.  The
    content type read at line 120 decides nothing and is left out. *)
Inductive FetchResult : Type :=
  | FetchAborted
  | FetchFailed (error : list N)
  | FetchResponse (ok : bool) (status : N) (text : list N).

(** The ways [fs.writeFileSync(path, data, ...)] ends: it returns with the
    file holding [data], or it throws an error whose text is [error]; the
    file then is as it was ([kept = None]) or holds what the call left of
    it ([kept = Some d]).  An error of the file system is a system error,
    never an [AbortError]. *)
Inductive WriteResult : Type :=
  | WriteDone
  | WriteThrows (kept : option (list N)) (error : list N).

(** The platform and the network, as seen by one request: [parseURL] is
    [None] where [new URL] throws, [dnsLookup] is [None] where the lookup
    rejects, [uuidv4] is the identifier drawn for this request;
    [renameSync] is [None] where the rename is done and the text of the
    error where it throws, the files then being as before. *)
Record Env : Type := {
  UPLOAD_DIR : list N;
  parseURL : list N -> option URL;
  dnsLookup : list N -> option (list LookupAddress);
  net_isIP : list N -> N;
  fetch : list N -> FetchResult;
  uuidv4 : list N;
  writeFileSync : list N -> list N -> WriteResult;
  renameSync : list N -> list N -> option (list N)
}.

(** The files of the upload directory, by path. *)
Abbreviation FS := (gmap (list N) (list N)).

(** Effects on the outside, in program order. *)
Inductive event : Type :=
  | EvDnsLookup (host : list N)
  | EvFetch (url : list N)
  | EvExists (path : list N)
  | EvReadFile (path : list N)
  | EvWriteFile (path data : list N) (mode : N)
  | EvRename (src dst : list N)
  | EvSendFile (path : list N)
  | EvLogError.

Definition is_fs_event (ev : event) : bool :=
  match ev with
  | EvExists _ | EvReadFile _ | EvWriteFile _ _ _ | EvRename _ _
  | EvSendFile _ => true
  | _ => false
  end.

Inductive Body : Type :=
  | Text (s : list N)
  | Json (message filename : list N)
  | File (content : list N).

(** Only the headers that the program sets itself are recorded. *)
Record Response : Type := {
  status : N;
  headers : list (list N * list N);
  body : Body
}.

Record Request : Type := {
  body_url : option (list N);
  params_name : list N;
  req_headers : list (list N * list N)
}.

(** What one handler call leaves behind. *)
Record Result : Type := {
  response : Response;
  store : FS;
  trace : list event
}.

Definition send (code : N) (hs : list (list N * list N)) (b : Body)
  (fs : FS) (tr : list event) : Result :=
  {| response := {| status := code; headers := hs; body := b |};
     store := fs; trace := tr |}.

(** [path.join(dir, name)] for a name without separators or dot segments. *)
Definition path_join (dir name : list N) : list N :=
  dir ++ str "/" ++ name.

(** Decimal text of a number, as a template literal renders it. *)
Definition dec (n : N) : list N :=
  str (NilEmpty.string_of_uint (N.to_uint n)).

(** [Buffer.byteLength(text, 'utf8')]: a surrogate pair takes four bytes, a
    lone surrogate the three of the replacement character. *)
Definition is_high_surrogate (c : N) : bool := (55296 <=? c) && (c <=? 56319).
Definition is_low_surrogate (c : N) : bool := (56320 <=? c) && (c <=? 57343).

Fixpoint byteLength (s : list N) : N :=
  match s with
  | [] => 0
  | c :: s' =>
      if c <? 128 then 1 + byteLength s'
      else if c <? 2048 then 2 + byteLength s'
      else if is_high_surrogate c then
        match s' with
        | d :: s'' =>
            if is_low_surrogate d then 4 + byteLength s''
            else 3 + byteLength s'
        | [] => 3
        end
      else 3 + byteLength s'
  end.

Definition isHttpUrl (e : Env) (u : list N) : bool :=
  match parseURL e u with
  | Some parsed =>
      str_eqb (protocol parsed) (str "http:")
      || str_eqb (protocol parsed) (str "https:")
  | None => false
  end.

Definition hostnameToIPs (e : Env) (host : list N) : list (list N) :=
  match dnsLookup e host with
  | Some records => map address records
  | None => []
  end.

(** The loop of lines 100-104: [true] where it returns the 403. *)
Fixpoint blocked (isIP : list N -> N) (ips : list (list N)) : bool :=
  match ips with
  | [] => false
  | ip :: rest => if isPrivateIp isIP ip then true else blocked isIP rest
  end.

Definition maxBytes : N := 500 * 1024.

(** POST /import.url.  An exception of the write or of the rename of lines
    153-154 is caught at line 158 like one of the fetch. *)
Definition import_url (e : Env) (fs : FS) (req : Request) : Result :=
  let url := trim (default [] (body_url req)) in
  if str_eqb url [] then send 400 [] (Text (str "Missing url")) fs []
  else if negb (isHttpUrl e url)
  then send 400 [] (Text (str "URL must be http or https")) fs []
  else
    match parseURL e url with
    | None => send 400 [] (Text (str "Invalid URL")) fs []
    | Some parsed =>
        let ips := hostnameToIPs e (hostname parsed) in
        let tr := [EvDnsLookup (hostname parsed)] in
        if Nat.eqb (length ips) 0
        then send 400 [] (Text (str "Could not resolve hostname")) fs tr
        else if blocked (net_isIP e) ips
        then send 403 []
               (Text (str "Fetching private IP addresses is not allowed")) fs tr
        else
          let tr := tr ++ [EvFetch url] in
          match fetch e url with
          | FetchAborted => send 504 [] (Text (str "Fetch timed out")) fs tr
          | FetchFailed err =>
              send 500 [] (Text (str "Failed to fetch URL: " ++ err)) fs
                (tr ++ [EvLogError])
          | FetchResponse ok code text =>
              if negb ok
              then send 502 []
                     (Text (str "Upstream fetch failed: " ++ dec code)) fs tr
              else if maxBytes <? byteLength text
              then send 413 [] (Text (str "SVG too large")) fs tr
              else
                match sanitizeSvg text with
                | Throw msg =>
                    send 400 [] (Text (str "SVG rejected: " ++ msg)) fs tr
                | Return clean =>
                    if negb (test true re_svg clean)
                    then send 400 []
                           (Text (str "Content is not a valid SVG")) fs tr
                    else
                      let filename := uuidv4 e ++ str ".svg" in
                      let filepath := path_join (UPLOAD_DIR e) filename in
                      let tmpPath := filepath ++ str ".tmp" in
                      match writeFileSync e tmpPath clean with
                      | WriteThrows kept err =>
                          send 500 []
                            (Text (str "Failed to fetch URL: " ++ err))
                            (match kept with
                             | Some d => <[tmpPath := d]> fs
                             | None => fs
                             end)
                            (tr ++ [EvWriteFile tmpPath clean 384; EvLogError])
                      | WriteDone =>
                          let fs1 := <[tmpPath := clean]> fs in
                          match renameSync e tmpPath filepath with
                          | Some err =>
                              send 500 []
                                (Text (str "Failed to fetch URL: " ++ err))
                                fs1
                                (tr ++ [EvWriteFile tmpPath clean 384;
                                        EvRename tmpPath filepath;
                                        EvLogError])
                          | None =>
                              let fs2 :=
                                <[filepath := clean]> (delete tmpPath fs1) in
                              send 201 [] (Json (str "Imported") filename) fs2
                                (tr ++ [EvWriteFile tmpPath clean 384;
                                        EvRename tmpPath filepath])
                          end
                      end
                end
          end
    end.

(** GET /uploads/:name *)
Definition get_upload (e : Env) (fs : FS) (req : Request) : Result :=
  let name := params_name req in
  if negb (isValidUploadName name)
  then send 400 [] (Text (str "Invalid filename")) fs []
  else
    let filePath := path_join (UPLOAD_DIR e) name in
    match fs !! filePath with
    | None => send 404 [] (Text (str "Not found")) fs [EvExists filePath]
    | Some content =>
        send 200 [(str "Content-Type", str "image/svg+xml; charset=utf-8")]
          (File content) fs [EvExists filePath; EvSendFile filePath]
    end.

(** The preview page of lines 201-213 around the title and the document. *)
Definition preview_page (safeTitle svg : list N) : list N :=
  str "<!doctype html>" ++ [10] ++
  str "<html lang=" ++ [dquote] ++ str "en" ++ [dquote] ++ str ">" ++ [10] ++
  str "<head>" ++ [10] ++
  str "  <meta charset=" ++ [dquote] ++ str "utf-8" ++ [dquote] ++ str ">"
    ++ [10] ++
  str "  <title>View SVG - " ++ safeTitle ++ str "</title>" ++ [10] ++
  str "  <meta name=" ++ [dquote] ++ str "viewport" ++ [dquote]
    ++ str " content=" ++ [dquote]
    ++ str "width=device-width,initial-scale=1" ++ [dquote] ++ str ">"
    ++ [10] ++
  str "</head>" ++ [10] ++
  str "<body>" ++ [10] ++
  str "  <h1>Viewing SVG: " ++ safeTitle ++ str "</h1>" ++ [10] ++
  str "  <div id=" ++ [dquote] ++ str "preview" ++ [dquote] ++ str ">" ++ svg
    ++ str "</div>" ++ [10] ++
  str "  <p><a href=" ++ [dquote] ++ str "/uploads/" ++ safeTitle ++ [dquote]
    ++ str " download>Download SVG</a> " ++ [8212] ++ str " <a href="
    ++ [dquote] ++ str "/" ++ [dquote] ++ str ">Back</a></p>" ++ [10] ++
  str "</body>" ++ [10] ++
  str "</html>".

Definition content_security_policy : list N :=
  str "default-src 'none'; img-src 'self'; style-src 'unsafe-inline';".

(** GET /view/:name *)
Definition view (e : Env) (fs : FS) (req : Request) : Result :=
  let name := params_name req in
  if negb (isValidUploadName name)
  then send 400 [] (Text (str "Invalid filename")) fs []
  else
    let filePath := path_join (UPLOAD_DIR e) name in
    match fs !! filePath with
    | None => send 404 [] (Text (str "Not found")) fs [EvExists filePath]
    | Some svg =>
        let safeTitle :=
          replace_all false (RChar (chr ">")) (str "&gt;")
            (replace_all false (RChar (chr "<")) (str "&lt;") name) in
        send 200
          [(str "Content-Security-Policy", content_security_policy);
           (str "X-Content-Type-Options", str "nosniff")]
          (Text (preview_page safeTitle svg)) fs
          [EvExists filePath; EvReadFile filePath]
    end.

(** ** Notions of the specification *)

(** The removal patterns in the order in which [sanitizeSvg] applies them. *)
Definition removal_patterns : list regex :=
  [re_script; re_handler; re_jshref; re_embed; re_external].

(** One removal. *)
Definition pass (t : list N) (r : regex) : list N := replace_all true r [] t.

Definition no_removal_matches (t : list N) : bool :=
  forallb (fun r => negb (test true r t)) removal_patterns.

Definition rejected_by_pattern (t : list N) : bool :=
  test true re_doctype t || test true re_entity t.

(** Equality of texts up to the case of ASCII letters. *)
Definition ci_equal (s t : list N) : Prop := canon_eq true s t.

Definition ci_eqb (s t : list N) : bool :=
  Nat.eqb (length s) (length t) && canon_prefix true t s.

(** A document-type declaration: the opening [<!], white space the pattern
    tolerates, and the keyword in any case. *)
Definition has_doctype (t : list N) : Prop :=
  exists pre w kw post,
    t = pre ++ str "<!" ++ w ++ kw ++ post
    /\ Forall (fun c => is_space c = true) w
    /\ ci_equal kw (str "DOCTYPE").

(** An entity declaration, external ones included. *)
Definition has_entity (t : list N) : Prop :=
  exists pre kw post,
    t = pre ++ str "<!" ++ kw ++ post /\ ci_equal kw (str "ENTITY").

(** The grammar of a stored name, from the words of the specification: a
    token of 36 hexadecimal digits or hyphens and the extension; letters in
    either case, as the pattern carries the [i] flag. *)
Definition is_hexdash (c : N) : bool :=
  is_digit c || ((97 <=? c) && (c <=? 102)) || ((65 <=? c) && (c <=? 70))
  || (c =? 45).

Definition upload_name_grammar (name : list N) : bool :=
  Nat.eqb (length name) 40
  && forallb is_hexdash (take 36 name)
  && ci_eqb (drop 36 name) (str ".svg").

(** [sub] occurs in [t]. *)
Definition contains (t sub : list N) : Prop :=
  exists pre post, t = pre ++ sub ++ post.

(** The request reaches the address check with [url] and its parse. *)
Definition reaches_lookup (e : Env) (req : Request) (url : list N) (parsed : URL)
  : Prop :=
  trim (default [] (body_url req)) = url /\ url <> []
  /\ isHttpUrl e url = true /\ parseURL e url = Some parsed.

(** An attribute [href] or [xlink:href] whose value, between two double or
    two single quotes, starts with [http://] or [https://]. *)
Definition quoted_external_attr (attr : list N) : Prop :=
  exists name w1 w2 q scheme value,
    attr = name ++ w1 ++ [chr "="] ++ w2 ++ [q] ++ scheme ++ str "://"
           ++ value ++ [q]
    /\ (ci_equal name (str "xlink:href") \/ ci_equal name (str "href"))
    /\ Forall (fun c => is_space c = true) w1
    /\ Forall (fun c => is_space c = true) w2
    /\ (q = dquote \/ q = squote)
    /\ (ci_equal scheme (str "http") \/ ci_equal scheme (str "https"))
    /\ Forall (fun c => c <> q) value.

(** The removal patterns applied before the last one. *)
Definition earlier_patterns : list regex :=
  [re_script; re_handler; re_jshref; re_embed].

(** The text that enters the last removal: what the four earlier ones
    leave. *)
Definition before_last_pass (t : list N) : list N :=
  fold_left pass earlier_patterns t.

(** The start of such an attribute, up to the opening quote of its value. *)
Definition external_attr_head (head : list N) : Prop :=
  exists name w1 w2 q,
    head = name ++ w1 ++ [chr "="] ++ w2 ++ [q]
    /\ (ci_equal name (str "xlink:href") \/ ci_equal name (str "href"))
    /\ Forall (fun c => is_space c = true) w1
    /\ Forall (fun c => is_space c = true) w2
    /\ (q = dquote \/ q = squote).

(** Where the scan of [replace_from] stands when it leaves [pre]: the
    number of units of [rest] that a match begun in [pre] still covers;
    0 when the scan reaches the start of [rest]. *)
Fixpoint crossing (ic : bool) (r : regex) (bef pre rest : list N)
  (skip : nat) {struct pre} : nat :=
  match pre with
  | [] => skip
  | c :: pre' =>
      match skip with
      | S n => crossing ic r (c :: bef) pre' rest n
      | O =>
          match match_here ic r bef (pre ++ rest) with
          | Some y =>
              match (length (pre ++ rest) - length (after y))%nat with
              | O => crossing ic r (c :: bef) pre' rest O
              | S n => crossing ic r (c :: bef) pre' rest n
              end
          | None => crossing ic r (c :: bef) pre' rest O
          end
      end
  end.

(** The last of the [k] units of [s] still to be dropped is a quote. *)
Definition quote_at (k : nat) (s : list N) : Prop :=
  match k with
  | O => True
  | S n => exists q, s !! n = Some q /\ (q = dquote \/ q = squote)
  end.

(** *** Addresses

    The text of the dotted quad [a.b.c.d]. *)
Definition dotted (a b c d : N) : list N :=
  dec a ++ str "." ++ dec b ++ str "." ++ dec c ++ str "." ++ dec d.

(** The IPv4 ranges of the specification by their first two octets:
    loopback 127/8, link-local 169.254/16 and the private allocations 10/8,
    172.16/12 and 192.168/16. *)
Definition in_private_ranges (a b : N) : bool :=
  (a =? 10) || (a =? 127) || ((a =? 169) && (b =? 254))
  || ((a =? 192) && (b =? 168)) || ((a =? 172) && (16 <=? b) && (b <=? 31)).







Definition octets : list N := map N.of_nat (List.seq 0 256).

(** The pattern matches at the very start of the text. *)
Definition matches_at_start (ic : bool) (r : regex) (s : list N) : bool :=
  match match_here ic r [] s with Some _ => true | None => false end.

(** The file-system events of a trace. *)
Definition fs_events (tr : list event) : list event :=
  List.filter is_fs_event tr.

(** *** Content security policies

    A serialized policy is a list of directives separated by semicolons; a
    directive is a name followed by source expressions separated by spaces.
    A fetch directive that the policy does not list falls back to
    [default-src]; without that one too, nothing restricts the fetch. *)
Fixpoint split_on (sep : N) (s : list N) : list (list N) :=
  match s with
  | [] => [[]]
  | c :: s' =>
      if c =? sep then [] :: split_on sep s'
      else match split_on sep s' with
           | [] => [[c]]
           | w :: ws => (c :: w) :: ws
           end
  end.

Definition nonempty (s : list N) : bool :=
  match s with [] => false | _ => true end.

Definition parse_directive (d : list N) : option (list N * list (list N)) :=
  match List.filter nonempty (split_on 32 d) with
  | [] => None
  | name :: sources => Some (name, sources)
  end.

Definition parse_policy (s : list N) : list (list N * list (list N)) :=
  omap parse_directive (split_on (chr ";") s).

Fixpoint directive (policy : list (list N * list (list N))) (name : list N)
  : option (list (list N)) :=
  match policy with
  | [] => None
  | (n, sources) :: rest =>
      if str_eqb n name then Some sources else directive rest name
  end.

Definition effective_sources (policy : list (list N * list (list N)))
  (name : list N) : option (list (list N)) :=
  match directive policy name with
  | Some sources => Some sources
  | None => directive policy (str "default-src")
  end.

(** The fetch directives that govern scripts and the loading of resources
    other than images and style. *)
Definition script_and_fetch_directives : list (list N) :=
  [str "script-src"; str "script-src-elem"; str "script-src-attr";
   str "connect-src"; str "font-src"; str "frame-src"; str "child-src";
   str "manifest-src"; str "media-src"; str "object-src"; str "worker-src"].

(** *** An instance of the platform, for the examples

    [node_isIP] follows the two patterns of Node's [lib/internal/net.js]. *)
Definition range (lo hi : ascii) : regex := RSet false (CRange (chr lo) (chr hi)).

Definition v4Seg : regex :=
  RAlt (sequence [lit (str "25"); range "0" "5"])
  (RAlt (sequence [RChar (chr "2"); range "0" "4"; digit])
  (RAlt (sequence [RChar (chr "1"); digit; digit])
  (RAlt (sequence [range "1" "9"; digit]) digit))).

Definition v4Str : regex :=
  sequence [times 3 (sequence [v4Seg; RChar (chr ".")]); v4Seg].

Definition IPv4Reg : regex := sequence [RStart; v4Str; REnd].

Definition v6Seg : regex :=
  RQuant 1 (Some 4%nat) true
    (RSet false (CUnion (CRange (chr "0") (chr "9"))
                (CUnion (CRange (chr "a") (chr "f"))
                        (CRange (chr "A") (chr "F"))))).

Definition colon : regex := RChar (chr ":").
Definition between (lo hi : nat) (r : regex) : regex :=
  RQuant lo (Some hi) true r.
Definition segs (n : nat) : regex := times n (sequence [v6Seg; colon]).
Definition csegs (lo hi : nat) : regex := between lo hi (sequence [colon; v6Seg]).

Definition IPv6Reg : regex :=
  sequence
    [RStart;
     RAlt (sequence [segs 7; RAlt v6Seg colon])
     (RAlt (sequence [segs 6; RAlt v4Str (RAlt (sequence [colon; v6Seg]) colon)])
     (RAlt (sequence [segs 5; RAlt (sequence [colon; v4Str])
                                (RAlt (csegs 1 2) colon)])
     (RAlt (sequence [segs 4; RAlt (sequence [csegs 0 1; colon; v4Str])
                                (RAlt (csegs 1 3) colon)])
     (RAlt (sequence [segs 3; RAlt (sequence [csegs 0 2; colon; v4Str])
                                (RAlt (csegs 1 4) colon)])
     (RAlt (sequence [segs 2; RAlt (sequence [csegs 0 3; colon; v4Str])
                                (RAlt (csegs 1 5) colon)])
     (RAlt (sequence [segs 1; RAlt (sequence [csegs 0 4; colon; v4Str])
                                (RAlt (csegs 1 6) colon)])
           (sequence [colon; RAlt (sequence [csegs 0 5; colon; v4Str])
                                (RAlt (csegs 1 7) colon)])))))));
     opt (sequence
            [RChar (chr "%");
             plus (RSet false
                     (CUnion (CRange (chr "0") (chr "9"))
                     (CUnion (CRange (chr "a") (chr "z"))
                     (CUnion (CRange (chr "A") (chr "Z"))
                     (CUnion (CChar (chr "-"))
                     (CUnion (CChar (chr ".")) (CChar (chr ":"))))))))]);
     REnd].

Definition node_isIP (s : list N) : N :=
  if test false IPv4Reg s then 4
  else if test false IPv6Reg s then 6
  else 0.

(** A platform in which one host resolves to [ips] and the fetch of any
    address answers with [page]. *)
Definition example_env (ips : option (list (list N))) (page : FetchResult)
  : Env :=
  {| UPLOAD_DIR := str "/srv/app/uploads";
     parseURL := fun u =>
       if startsWith u (str "http://assets.example/")
       then Some {| protocol := str "http:"; hostname := str "assets.example" |}
       else None;
     dnsLookup := fun h =>
       option_map (map (fun a => {| address := a; family := node_isIP a |})) ips;
     net_isIP := node_isIP;
     fetch := fun _ => page;
     uuidv4 := str "123e4567-e89b-42d3-a456-426614174000";
     writeFileSync := fun _ _ => WriteDone;
     renameSync := fun _ _ => None |}.

(** The same platform with a disk on which the rename fails. *)
Definition faulty_env (ips : option (list (list N))) (page : FetchResult)
  : Env :=
  let e := example_env ips page in
  {| UPLOAD_DIR := UPLOAD_DIR e; parseURL := parseURL e;
     dnsLookup := dnsLookup e; net_isIP := net_isIP e; fetch := fetch e;
     uuidv4 := uuidv4 e;
     writeFileSync := fun _ _ => WriteDone;
     renameSync := fun _ _ => Some (str "Error: EXDEV") |}.

Definition example_request (url name : string) : Request :=
  {| body_url := Some (str url); params_name := str name; req_headers := [] |}.

(** *** What a request reads and writes *)

(** The final and the temporary path of the import of this request. *)
Definition final_path (e : Env) : list N :=
  path_join (UPLOAD_DIR e) (uuidv4 e ++ str ".svg").

Definition tmp_path (e : Env) : list N := final_path e ++ str ".tmp".

(** The path that a file-system event touches first. *)
Definition event_path (ev : event) : option (list N) :=
  match ev with
  | EvExists p | EvReadFile p | EvWriteFile p _ _ | EvRename p _
  | EvSendFile p => Some p
  | _ => None
  end.

(** A read request for [name]. *)
Definition read_request (name : list N) (hs : list (list N * list N))
  : Request :=
  {| body_url := None; params_name := name; req_headers := hs |}.

(** The title of the preview page, lines 198: both replacements. *)
Definition safeTitle (name : list N) : list N :=
  replace_all false (RChar (chr ">")) (str "&gt;")
    (replace_all false (RChar (chr "<")) (str "&lt;") name).

(** The events that only read. *)
Definition is_read_event (ev : event) : bool :=
  match ev with
  | EvExists _ | EvReadFile _ | EvSendFile _ => true
  | _ => false
  end.

(** One unit of a title after escaping. *)
Definition escape_unit (c : N) : list N :=
  if c =? chr "<" then str "&lt;"
  else if c =? chr ">" then str "&gt;"
  else [c].

(** The identifier drawn for this request is a 36-unit token of the
    grammar, as [uuidv4] produces them. *)
Definition uuid_ok (e : Env) : Prop :=
  isValidUploadName (uuidv4 e ++ str ".svg") = true.

(** *** The three routes

    A call of one route with the platform as this request finds it.  The
    handlers touch the store in synchronous stretches only (the write and
    the rename follow the last [await] of the import), so calls act on the
    store one after the other. *)
Inductive call : Type :=
  | PostImport (e : Env) (req : Request)
  | GetUpload (e : Env) (req : Request)
  | GetView (e : Env) (req : Request).

Definition call_env (c : call) : Env :=
  match c with
  | PostImport e _ | GetUpload e _ | GetView e _ => e
  end.

Definition handle (c : call) (fs : FS) : Result :=
  match c with
  | PostImport e req => import_url e fs req
  | GetUpload e req => get_upload e fs req
  | GetView e req => view e fs req
  end.

Definition run (cs : list call) (fs : FS) : FS :=
  fold_left (fun fs c => store (handle c fs)) cs fs.

(** A text that [sanitizeSvg] returned and that passed the final gate. *)
Definition sanitized (c : list N) : Prop :=
  exists text, sanitizeSvg text = Return c /\ test true re_svg c = true.

(** Every file of the store lies in the directory [dir], either under a
    name of the grammar, and then it is a sanitized text, or under such a
    name with [.tmp] appended: what a failed write or rename left. *)
Definition store_ok (dir : list N) (fs : FS) : Prop :=
  forall p c, fs !! p = Some c ->
    exists name,
      isValidUploadName name = true
      /\ ((p = path_join dir name /\ sanitized c)
          \/ p = path_join dir (name ++ str ".tmp")).

(** A platform on which the write and the rename of the import succeed. *)
Definition disk_works (e : Env) : Prop :=
  (forall data, writeFileSync e (tmp_path e) data = WriteDone)
  /\ renameSync e (tmp_path e) (final_path e) = None.

(** A call whose platform has the upload directory [dir] and, for an
    import, draws an identifier of the grammar. *)
Definition call_ok (dir : list N) (c : call) : Prop :=
  UPLOAD_DIR (call_env c) = dir
  /\ match c with
     | PostImport e _ => uuid_ok e
     | _ => True
     end.

(** A call for which the write and the rename succeed, if it is an
    import. *)
Definition call_disk_works (c : call) : Prop :=
  match c with
  | PostImport e _ => disk_works e
  | _ => True
  end.

(** A dotted quad outside the private ranges. *)
Definition public_quad (ip : list N) : Prop :=
  exists a b c d,
    a < 256 /\ b < 256 /\ c < 256 /\ d < 256
    /\ ip = dotted a b c d /\ in_private_ranges a b = false.

(** An [svg] opening tag: the tag name in any case, not followed by a word
    character, and a [>] further on with no other [>] in between. *)
Definition has_svg_tag (t : list N) : Prop :=
  exists pre tag attrs post,
    t = pre ++ tag ++ attrs ++ [chr ">"] ++ post
    /\ ci_equal tag (str "<svg")
    /\ Forall (fun c => c <> chr ">") attrs
    /\ head_is_word (attrs ++ [chr ">"]) = false.

(** *** The constructs that the sanitizer removes *)

(** The end of a script element, as the pattern of line 54 looks for it. *)
Definition re_script_close : regex :=
  sequence [lit (str "</script"); star ws; RChar (chr ">")].

(** A script element between [pre] and [post]: the opening tag in any
    case, attributes without [>] that do not continue the tag name, a body,
    and the closing tag, which is the first place after the opening tag
    where the end of a script element is found. *)
Definition script_element (pre elem post : list N) : Prop :=
  exists tag attrs body close w,
    elem = tag ++ attrs ++ [chr ">"] ++ body ++ close ++ w ++ [chr ">"]
    /\ ci_equal tag (str "<script")
    /\ Forall (fun c => c <> chr ">") attrs
    /\ head_is_word (attrs ++ [chr ">"]) = false
    /\ ci_equal close (str "</script")
    /\ Forall (fun c => is_space c = true) w
    /\ no_match_within true re_script_close
         (rev (pre ++ tag ++ attrs ++ [chr ">"])) body
         (close ++ w ++ [chr ">"] ++ post) = true.

(** Where an attribute value without quotes ends: at the end of the text,
    at white space or at [>]. *)
Definition ends_value (post : list N) : bool :=
  match post with
  | [] => true
  | c :: _ => is_space c || (c =? chr ">")
  end.

(** The text [m ++ v] as an attribute value in one of the three forms of
    lines 57 and 60: between double quotes, between single quotes, or
    bare; [m] is what the value has to start with. *)
Definition attribute_value (m value post : list N) : Prop :=
  (exists q v,
     (q = dquote \/ q = squote)
     /\ value = [q] ++ m ++ v ++ [q] /\ Forall (fun c => c <> q) v)
  \/ (exists v,
        value = m ++ v /\ v <> []
        /\ Forall (fun c => is_space c = false /\ c <> chr ">") v
        /\ head (m ++ v) <> Some dquote /\ head (m ++ v) <> Some squote
        /\ ends_value post = true).

(** An event-handler attribute before [post]: white space, [on] and a name
    of word characters in any case, [=] with optional white space around
    it, and a value. *)
Definition handler_attribute (elem post : list N) : Prop :=
  exists s on name w1 w2 value,
    elem = [s] ++ on ++ name ++ w1 ++ [chr "="] ++ w2 ++ value
    /\ is_space s = true
    /\ ci_equal on (str "on")
    /\ name <> [] /\ Forall (fun c => is_word c = true) name
    /\ Forall (fun c => is_space c = true) w1
    /\ Forall (fun c => is_space c = true) w2
    /\ attribute_value [] value post.

(** A [javascript:] reference before [post]: [href] or [xlink:href] in any
    case, [=] with optional white space around it, and a value that starts
    with [javascript:] in any case. *)
Definition javascript_href (elem post : list N) : Prop :=
  exists name w1 w2 js value,
    elem = name ++ w1 ++ [chr "="] ++ w2 ++ value
    /\ (ci_equal name (str "href") \/ ci_equal name (str "xlink:href"))
    /\ Forall (fun c => is_space c = true) w1
    /\ Forall (fun c => is_space c = true) w2
    /\ ci_equal js (str "javascript:")
    /\ attribute_value js value post.

(** The end of an element called [name], as the patterns of lines 54 and 63
    look for it. *)
Definition close_tag (name : list N) : regex :=
  sequence [lit (str "</" ++ name); star ws; RChar (chr ">")].

(** The element names of line 63. *)
Definition embedded_names : list (list N) :=
  [str "iframe"; str "object"; str "embed"; str "foreignObject"].

(** An embedded element between [pre] and [post]: [<] and one of the names
    of line 63 in any case, attributes without [>] that do not continue the
    name, a body, and the closing tag of the same name in any case, which
    is the first place after the opening tag where the end of such an
    element is found. *)
Definition embedded_element (pre elem post : list N) : Prop :=
  exists name tag attrs body close w,
    elem = [chr "<"] ++ tag ++ attrs ++ [chr ">"] ++ body ++ close ++ w
           ++ [chr ">"]
    /\ In name embedded_names
    /\ ci_equal tag name
    /\ Forall (fun c => c <> chr ">") attrs
    /\ head_is_word (attrs ++ [chr ">"]) = false
    /\ ci_equal close (str "</" ++ name)
    /\ Forall (fun c => is_space c = true) w
    /\ no_match_within true (close_tag name)
         (rev (pre ++ [chr "<"] ++ tag ++ attrs ++ [chr ">"])) body
         (close ++ w ++ [chr ">"] ++ post) = true.

(** * Properties *)

(** ** The definitions at work *)

Example sanitize_strips :
  sanitizeSvg (str "<svg onload=alert(1)><script>x()</script><a xlink:href='javascript:y()'>z</a><rect/></svg>")
  = Return (str "<svg><a >z</a><rect/></svg>").
Proof. vm_compute. reflexivity. Qed.

Example sanitize_embedded :
  sanitizeSvg (str "<svg><foreignObject><b>x</b></FOREIGNOBJECT ><image href='http://a.example/i.png'/></svg>")
  = Return (str "<svg><image /></svg>").
Proof. vm_compute. reflexivity. Qed.

Example upload_names :
  map (fun n => isValidUploadName (str n))
    ["123e4567-e89b-42d3-a456-426614174000.svg";
     "123E4567-E89B-42D3-A456-426614174000.SVG";
     "123e4567-e89b-42d3-a456-426614174000.svg.tmp";
     "../e4567-e89b-42d3-a456-426614174000.svg";
     "123e4567-e89b-42d3-a456-42661417400.svg"]%string
  = [true; true; false; false; false].
Proof. vm_compute. reflexivity. Qed.

Example classified :
  map (fun ip => isPrivateIp node_isIP (str ip))
    ["10.1.2.3"; "127.0.0.1"; "169.254.169.254"; "192.168.1.1"; "172.16.0.1";
     "172.31.255.255"; "172.32.0.1"; "172.15.0.1"; "8.8.8.8"; "::1"; "::";
     "fe80::1"; "2001:db8::1"; "10.0.0.256"; "localhost"]%string
  = [true; true; true; true; true; true; false; false; false; true; true;
     true; false; false; false].
Proof. vm_compute. reflexivity. Qed.

Example import_stores :
  let r := import_url
             (example_env (Some [str "93.184.216.34"])
                (FetchResponse true 200 (str "<svg onload=x()><rect/></svg>")))
             ∅ (example_request "http://assets.example/a.svg" "") in
  status (response r) = 201
  /\ store r !! str "/srv/app/uploads/123e4567-e89b-42d3-a456-426614174000.svg"
     = Some (str "<svg><rect/></svg>")
  /\ store r
       !! str "/srv/app/uploads/123e4567-e89b-42d3-a456-426614174000.svg.tmp"
     = None.
Proof. vm_compute. done. Qed.

(** ** The matcher *)

Section Matcher.

Context (ic : bool).

Lemma extends_refl x : extends x x.
Proof. exists []. done. Qed.

Lemma extends_trans x y z : extends x y -> extends y z -> extends x z.
Proof.
  intros [m1 [Ha1 Hb1]] [m2 [Ha2 Hb2]]. exists (m1 ++ m2).
  rewrite Ha1, Ha2, Hb2, Hb1, rev_app_distr, !app_assoc. done.
Qed.

Lemma extends_step1 x a rest : after x = a :: rest -> extends x (step1 x a rest).
Proof. intros H. exists [a]. simpl. by rewrite H. Qed.

Lemma extends_stepn n x : extends x (stepn n x).
Proof.
  revert x. induction n as [|n IH]; intros x; simpl.
  - apply extends_refl.
  - destruct (after x) as [|a rest] eqn:E; [apply extends_refl|].
    eapply extends_trans; [by apply extends_step1|apply IH].
Qed.

Lemma extends_caps b a c c' y :
  extends (MState b a c) y -> extends (MState b a c') y.
Proof. intros [m H]. by exists m. Qed.

Lemma extends_caps_r x b a c c' :
  extends x (MState b a c) -> extends x (MState b a c').
Proof. intros [m H]. by exists m. Qed.

Lemma extends_length x y :
  extends x y -> (length (after y) <= length (after x))%nat.
Proof. intros [m [H _]]. rewrite H, length_app. lia. Qed.

Lemma repeat_matcher_S m inner greedy k fuel min max x :
  repeat_matcher m inner greedy k (S fuel) min max x =
  match max with
  | Some O => k x
  | _ =>
      let d := fun y : mstate =>
        if Nat.eqb min 0 && Nat.eqb (length (after y)) (length (after x))
        then None
        else repeat_matcher m inner greedy k fuel (Nat.pred min) (dec_max max) y in
      let xr := MState (before x) (after x) (cap_clear inner (caps x)) in
      if negb (Nat.eqb min 0) then m d xr
      else if greedy then orelse (m d xr) (k x)
           else orelse (k x) (m d xr)
  end.
Proof. reflexivity. Qed.

(** Wherever a match is found, the continuation was called on a state
    ahead of the starting one. *)
Lemma repeat_matcher_extends m inner greedy k :
  (forall k' x z, m k' x = Some z -> exists y, extends x y /\ k' y = Some z) ->
  forall fuel min max x z,
    repeat_matcher m inner greedy k fuel min max x = Some z ->
    exists y, extends x y /\ k y = Some z.
Proof.
  intros Hm. induction fuel as [|fuel IH]; intros min max x z H; [done|].
  rewrite repeat_matcher_S in H. cbv zeta in H.
  assert (Hiter : forall z',
    m (fun y : mstate =>
         if Nat.eqb min 0 && Nat.eqb (length (after y)) (length (after x))
         then None
         else repeat_matcher m inner greedy k fuel (Nat.pred min) (dec_max max) y)
      (MState (before x) (after x) (cap_clear inner (caps x))) = Some z' ->
    exists y, extends x y /\ k y = Some z').
  { intros z' Hz. apply Hm in Hz as [y [Hxy Hd]].
    destruct (Nat.eqb min 0 && _); [done|].
    apply IH in Hd as [y' [Hyy' Hk]]. exists y'. split; [|done].
    eapply extends_trans; [|exact Hyy'].
    destruct x. eapply extends_caps, Hxy. }
  assert (Hk : forall z', k x = Some z' -> exists y, extends x y /\ k y = Some z').
  { intros z' Hz. exists x. split; [apply extends_refl|done]. }
  destruct max as [[|n]|].
  - by apply Hk.
  - destruct (negb (Nat.eqb min 0)); [by apply Hiter|].
    destruct greedy; unfold orelse in H.
    + destruct (m _ _) eqn:E; [injection H as ->; by apply Hiter|by apply Hk].
    + destruct (k x) eqn:E; [injection H as ->; by apply Hk|by apply Hiter].
  - destruct (negb (Nat.eqb min 0)); [by apply Hiter|].
    destruct greedy; unfold orelse in H.
    + destruct (m _ _) eqn:E; [injection H as ->; by apply Hiter|by apply Hk].
    + destruct (k x) eqn:E; [injection H as ->; by apply Hk|by apply Hiter].
Qed.

Lemma rmatch_extends r :
  forall k x z, rmatch ic r k x = Some z ->
  exists y, extends x y /\ k y = Some z.
Proof.
  induction r as [|c|inv s|r1 IH1 r2 IH2|r1 IH1 r2 IH2|min max g r1 IH1
                  |n r1 IH1|n| | |]; intros k x z H; simpl in H.
  - exists x. split; [apply extends_refl|done].
  - destruct (after x) as [|a rest] eqn:E; [done|].
    destruct (_ =? _); [|done].
    exists (step1 x a rest). split; [by apply extends_step1|done].
  - destruct (after x) as [|a rest] eqn:E; [done|].
    destruct (xorb _ _); [|done].
    exists (step1 x a rest). split; [by apply extends_step1|done].
  - apply IH1 in H as [y [Hxy H]]. apply IH2 in H as [y' [Hyy' H]].
    exists y'. split; [by eapply extends_trans|done].
  - unfold orelse in H. destruct (rmatch ic r1 k x) eqn:E.
    + injection H as ->. by apply IH1.
    + by apply IH2.
  - eapply repeat_matcher_extends; [exact IH1|exact H].
  - apply IH1 in H as [y [Hxy H]].
    eexists. split; [|exact H]. destruct y. eapply extends_caps_r, Hxy.
  - destruct (cap_lookup n (caps x)) as [s|].
    + destruct (canon_prefix ic s (after x)); [|done].
      exists (stepn (length s) x). split; [apply extends_stepn|done].
    + exists x. split; [apply extends_refl|done].
  - destruct (xorb _ _); [|done]. exists x. split; [apply extends_refl|done].
  - destruct (before x); [|done]. exists x. split; [apply extends_refl|done].
  - destruct (after x); [|done]. exists x. split; [apply extends_refl|done].
Qed.

Lemma rmatch_consumes r :
  consumes r = true ->
  forall k x z, rmatch ic r k x = Some z ->
  exists y, extends x y /\ (length (after y) < length (after x))%nat
            /\ k y = Some z.
Proof.
  induction r as [|c|inv s|r1 IH1 r2 IH2|r1 IH1 r2 IH2|min max g r1 IH1
                  |n r1 IH1|n| | |]; intros Hc k x z H; simpl in Hc, H;
    try done.
  - destruct (after x) as [|a rest] eqn:E; [done|].
    destruct (_ =? _); [|done].
    exists (step1 x a rest). split; [by apply extends_step1|]. simpl. split; [lia|done].
  - destruct (after x) as [|a rest] eqn:E; [done|].
    destruct (xorb _ _); [|done].
    exists (step1 x a rest). split; [by apply extends_step1|]. simpl. split; [lia|done].
  - apply orb_true_iff in Hc as [Hc|Hc].
    + apply (IH1 Hc) in H as [y [Hxy [Hlt H]]].
      apply rmatch_extends in H as [y' [Hyy' H]].
      exists y'. split; [by eapply extends_trans|].
      apply extends_length in Hyy'. split; [lia|done].
    + apply rmatch_extends in H as [y [Hxy H]].
      apply (IH2 Hc) in H as [y' [Hyy' [Hlt H]]].
      exists y'. split; [by eapply extends_trans|].
      apply extends_length in Hxy. split; [lia|done].
  - apply andb_true_iff in Hc as [Hc1 Hc2].
    unfold orelse in H. destruct (rmatch ic r1 k x) eqn:E.
    + injection H as ->. by apply IH1.
    + by apply IH2.
  - apply (IH1 Hc) in H as [y [Hxy [Hlt H]]].
    eexists. split; [|split; [|exact H]]; [|exact Hlt].
    destruct y. eapply extends_caps_r, Hxy.
Qed.

(** The result depends on the continuation only at states ahead. *)
Lemma repeat_matcher_local m inner greedy :
  (forall k1 k2 x,
     (forall y, extends x y -> k1 y = k2 y) -> m k1 x = m k2 x) ->
  forall fuel k1 k2 min max x,
    (forall y, extends x y -> k1 y = k2 y) ->
    repeat_matcher m inner greedy k1 fuel min max x
    = repeat_matcher m inner greedy k2 fuel min max x.
Proof.
  intros Hm. induction fuel as [|fuel IH]; intros k1 k2 min max x Hk; [done|].
  rewrite !repeat_matcher_S. cbv zeta.
  rewrite (Hk x (extends_refl x)).
  erewrite (Hm _ (fun y : mstate =>
     if Nat.eqb min 0 && Nat.eqb (length (after y)) (length (after x))
     then None
     else repeat_matcher m inner greedy k2 fuel (Nat.pred min) (dec_max max) y));
    [done|].
  intros y Hy. destruct (Nat.eqb min 0 && _); [done|].
  apply IH. intros y' Hy'. apply Hk.
  eapply extends_trans; [|exact Hy']. destruct x. eapply extends_caps, Hy.
Qed.

Lemma rmatch_local r :
  forall k1 k2 x,
    (forall y, extends x y -> k1 y = k2 y) ->
    rmatch ic r k1 x = rmatch ic r k2 x.
Proof.
  induction r as [|c|inv s|r1 IH1 r2 IH2|r1 IH1 r2 IH2|min max g r1 IH1
                  |n r1 IH1|n| | |]; intros k1 k2 x Hk; simpl.
  - apply Hk, extends_refl.
  - destruct (after x) as [|a rest] eqn:E; [done|].
    destruct (_ =? _); [|done]. by apply Hk, extends_step1.
  - destruct (after x) as [|a rest] eqn:E; [done|].
    destruct (xorb _ _); [|done]. by apply Hk, extends_step1.
  - apply IH1. intros y Hy. apply IH2. intros y' Hy'. apply Hk.
    by eapply extends_trans.
  - by rewrite (IH1 k1 k2 x Hk), (IH2 k1 k2 x Hk).
  - by apply repeat_matcher_local.
  - apply IH1. intros y Hy. apply Hk. destruct y. eapply extends_caps_r, Hy.
  - destruct (cap_lookup n (caps x)) as [s|].
    + destruct (canon_prefix ic s (after x)); [|done].
      apply Hk, extends_stepn.
    + apply Hk, extends_refl.
  - destruct (xorb _ _); [|done]. apply Hk, extends_refl.
  - destruct (before x); [|done]. apply Hk, extends_refl.
  - destruct (after x); [|done]. apply Hk, extends_refl.
Qed.

(** The fuel that [rmatch] gives a quantifier is never used up: any larger
    amount leads to the same result. *)
Lemma repeat_matcher_fuel r inner greedy k :
  forall f1 f2 min max x,
    (min + length (after x) < f1)%nat ->
    (min + length (after x) < f2)%nat ->
    repeat_matcher (rmatch ic r) inner greedy k f1 min max x
    = repeat_matcher (rmatch ic r) inner greedy k f2 min max x.
Proof.
  induction f1 as [|f1 IH]; intros f2 min max x H1 H2; [lia|].
  destruct f2 as [|f2]; [lia|]. rewrite !repeat_matcher_S. cbv zeta.
  erewrite (rmatch_local r _ (fun y : mstate =>
     if Nat.eqb min 0 && Nat.eqb (length (after y)) (length (after x))
     then None
     else repeat_matcher (rmatch ic r) inner greedy k f2
            (Nat.pred min) (dec_max max) y));
    [done|].
  intros y Hy. apply extends_length in Hy. simpl in Hy.
  destruct (Nat.eqb min 0) eqn:Emin; simpl.
  - apply Nat.eqb_eq in Emin. subst min.
    destruct (Nat.eqb (length (after y)) (length (after x))) eqn:El; [done|].
    apply Nat.eqb_neq in El. apply IH; simpl in *; lia.
  - apply Nat.eqb_neq in Emin. apply IH; lia.
Qed.

Lemma quantifier_fuel_adequate min max greedy r k x extra :
  repeat_matcher (rmatch ic r) (groups r) greedy k
    (S (min + length (after x)) + extra) min max x
  = rmatch ic (RQuant min max greedy r) k x.
Proof. simpl. apply repeat_matcher_fuel; lia. Qed.

Lemma match_here_consumes r bef aft y :
  consumes r = true -> match_here ic r bef aft = Some y ->
  (length (after y) < length aft)%nat.
Proof.
  intros Hc H. apply (rmatch_consumes r Hc) in H as [y' [_ [Hlt H]]].
  injection H as <-. exact Hlt.
Qed.

End Matcher.

(** ** Search and replacement *)

Section Scan.

Context (ic : bool) (r : regex).

Lemma exec_here bef aft y :
  match_here ic r bef aft = Some y -> exec ic r bef aft = Some y.
Proof. intros H. destruct aft; simpl; by rewrite H. Qed.

Lemma exec_app_some pre :
  forall bef rest y,
    match_here ic r (rev pre ++ bef) rest = Some y ->
    exists z, exec ic r bef (pre ++ rest) = Some z.
Proof.
  induction pre as [|c pre IH]; intros bef rest y H; simpl in *.
  - exists y. by apply exec_here.
  - destruct (match_here ic r bef (c :: pre ++ rest)) as [z|]; [by exists z|].
    apply (IH (c :: bef) rest y). by rewrite <- app_assoc in H.
Qed.

Lemma test_intro pre rest y :
  match_here ic r (rev pre) rest = Some y -> test ic r (pre ++ rest) = true.
Proof.
  intros H. unfold test.
  destruct (exec_app_some pre [] rest y) as [z ->]; [|done].
  by rewrite app_nil_r.
Qed.

Lemma exec_none_cons bef c aft :
  exec ic r bef (c :: aft) = None ->
  match_here ic r bef (c :: aft) = None /\ exec ic r (c :: bef) aft = None.
Proof. simpl. destruct (match_here ic r bef (c :: aft)); [done|]. done. Qed.

Lemma exec_none_nil bef :
  exec ic r bef [] = None -> match_here ic r bef [] = None.
Proof. simpl. by destruct (match_here ic r bef []). Qed.

(** Replacement by the empty text only deletes. *)
Lemma replace_from_sublist aft :
  forall bef skip, sublist (replace_from ic r [] bef aft skip) aft.
Proof.
  induction aft as [|c aft IH]; intros bef skip.
  - destruct skip; simpl; [destruct (match_here ic r bef [])|]; constructor.
  - destruct skip as [|n]; simpl.
    + destruct (match_here ic r bef (c :: aft)) as [y|]; simpl.
      * destruct (_ - _)%nat; [by apply sublist_skip|by apply sublist_cons].
      * by apply sublist_skip.
    + by apply sublist_cons.
Qed.

Lemma replace_from_length bef aft skip :
  (length (replace_from ic r [] bef aft skip) <= length aft)%nat.
Proof. apply sublist_length, replace_from_sublist. Qed.

(** Without a match the text comes back as it went in. *)
Lemma replace_from_nomatch rep aft :
  forall bef, exec ic r bef aft = None -> replace_from ic r rep bef aft 0 = aft.
Proof.
  induction aft as [|c aft IH]; intros bef H.
  - apply exec_none_nil in H. simpl. by rewrite H.
  - apply exec_none_cons in H as [H1 H2]. simpl. rewrite H1. f_equal. by apply IH.
Qed.

(** A pattern that passes input makes the text shorter wherever it
    matches. *)
Lemma replace_from_shorter aft :
  consumes r = true ->
  forall bef y, exec ic r bef aft = Some y ->
  (length (replace_from ic r [] bef aft 0) < length aft)%nat.
Proof.
  intros Hc. induction aft as [|c aft IH]; intros bef y H.
  - simpl in H. destruct (match_here ic r bef []) as [z|] eqn:E; [|done].
    apply match_here_consumes in E; [simpl in E; lia|done].
  - simpl in H. simpl. destruct (match_here ic r bef (c :: aft)) as [z|] eqn:E.
    + apply match_here_consumes in E; [|done]. simpl in E. simpl.
      destruct (_ - _)%nat eqn:E'; [lia|].
      pose proof (replace_from_length (c :: bef) aft n). lia.
    + simpl. apply IH in H. lia.
Qed.

Lemma replace_all_cases t :
  consumes r = true ->
  (test ic r t = false /\ replace_all ic r [] t = t)
  \/ (test ic r t = true
      /\ (length (replace_all ic r [] t) < length t)%nat).
Proof.
  intros Hc. unfold test, replace_all. destruct (exec ic r [] t) as [y|] eqn:E.
  - right. split; [done|]. by eapply replace_from_shorter.
  - left. split; [done|]. by apply replace_from_nomatch.
Qed.

(** The units of a match are dropped, and the scan goes on behind them. *)
Lemma replace_from_skip rep m :
  forall bef post,
    replace_from ic r rep bef (m ++ post) (length m)
    = replace_from ic r rep (rev m ++ bef) post 0.
Proof.
  induction m as [|c m IH]; intros bef post; simpl.
  - by destruct post.
  - rewrite IH. by rewrite <- app_assoc.
Qed.

(** A stretch in which no attempt matches is copied. *)
Lemma replace_from_prefix rep pre :
  forall bef rest,
    no_match_within ic r bef pre rest = true ->
    replace_from ic r rep bef (pre ++ rest) 0
    = pre ++ replace_from ic r rep (rev pre ++ bef) rest 0.
Proof.
  induction pre as [|c pre IH]; intros bef rest H; simpl in *; [done|].
  destruct (match_here ic r bef (c :: pre ++ rest)); [done|].
  f_equal. rewrite IH by done. by rewrite <- app_assoc.
Qed.

(** A match that passes the units [m] is replaced by [rep]. *)
Lemma replace_from_match rep bef m post y :
  m <> [] ->
  match_here ic r bef (m ++ post) = Some y -> after y = post ->
  replace_from ic r rep bef (m ++ post) 0
  = rep ++ replace_from ic r rep (rev m ++ bef) post 0.
Proof.
  intros Hm H Hy. destruct m as [|c m]; [done|].
  change ((c :: m) ++ post) with (c :: (m ++ post)) in *.
  simpl. rewrite H. rewrite Hy. simpl.
  replace (length (m ++ post) - length post)%nat with (length m)
    by (rewrite length_app; lia).
  destruct (S (length (m ++ post)) - length post)%nat eqn:E;
    [rewrite length_app in E; lia|].
  assert (n = length m) as -> by (rewrite length_app in E; lia).
  rewrite replace_from_skip. by rewrite <- app_assoc.
Qed.

End Scan.

(** ** Running the matcher on texts of a known shape *)

Section Run.

Context (ic : bool).

Lemma cap_clear_nil cs : cap_clear [] cs = cs.
Proof.
  unfold cap_clear. induction cs as [|p cs IH]; [done|].
  cbn [List.filter existsb negb]. by f_equal.
Qed.

Lemma stepn_app m :
  forall bef rest cs,
    stepn (length m) (MState bef (m ++ rest) cs) = MState (rev m ++ bef) rest cs.
Proof.
  induction m as [|c m IH]; intros bef rest cs; simpl; [done|].
  unfold step1. simpl. rewrite IH. by rewrite <- app_assoc.
Qed.

Lemma canon_prefix_app s :
  forall s' rest, canon_eq ic s' s -> canon_prefix ic s (s' ++ rest) = true.
Proof.
  induction s as [|c s IH]; intros s' rest H; [done|].
  inversion H as [|a c' s0 s1 Hac Hrest]; subst. simpl.
  rewrite Hac, N.eqb_refl. simpl. by apply IH.
Qed.

(** A literal text is matched unit by unit. *)
Lemma rmatch_lit s :
  forall k x,
    rmatch ic (lit s) k x
    = if canon_prefix ic s (after x) then k (stepn (length s) x) else None.
Proof.
  induction s as [|c s IH]; intros k x; simpl; [done|].
  destruct (after x) as [|a rest] eqn:E; [done|].
  destruct (canonicalize ic a =? canonicalize ic c); simpl; [|done].
  by rewrite IH.
Qed.

Lemma rmatch_lit_app s s' k bef rest cs :
  canon_eq ic s' s ->
  rmatch ic (lit s) k (MState bef (s' ++ rest) cs)
  = k (MState (rev s' ++ bef) rest cs).
Proof.
  intros H. rewrite rmatch_lit. simpl. rewrite canon_prefix_app by done.
  assert (length s = length s') as -> by (symmetry; eapply Forall2_length, H).
  by rewrite stepn_app.
Qed.

(** A greedy star over a class passes a whole run of members when the
    continuation accepts what follows the run. *)
Lemma repeat_set_run inv s k w :
  forall fuel bef rest cs z,
    Forall (fun a => in_set ic inv s a = true) w ->
    (length w < fuel)%nat ->
    match rest with [] => True | a :: _ => in_set ic inv s a = false end ->
    k (MState (rev w ++ bef) rest cs) = Some z ->
    repeat_matcher (rmatch ic (RSet inv s)) [] true k fuel 0 None
      (MState bef (w ++ rest) cs) = Some z.
Proof.
  induction w as [|a w IH]; intros fuel bef rest cs z Hw Hf Hrest Hk;
    (destruct fuel as [|fuel]; [simpl in Hf; lia|]);
    rewrite repeat_matcher_S; simpl; rewrite cap_clear_nil.
  - destruct rest as [|a rest]; [done|].
    unfold in_set in Hrest. by rewrite Hrest.
  - inversion Hw as [|a' w' Ha Hw']; subst. unfold in_set in Ha. rewrite Ha.
    replace (length (w ++ rest) =? S (length (w ++ rest)))%nat with false
      by (symmetry; apply Nat.eqb_neq; lia).
    unfold step1. simpl. rewrite (IH fuel (a :: bef) rest cs z); try done.
    + simpl in Hf. lia.
    + simpl in Hk. by rewrite <- app_assoc in Hk.
Qed.

Lemma rmatch_star_set_run inv s k w bef rest cs z :
  Forall (fun a => in_set ic inv s a = true) w ->
  match rest with [] => True | a :: _ => in_set ic inv s a = false end ->
  k (MState (rev w ++ bef) rest cs) = Some z ->
  rmatch ic (star (RSet inv s)) k (MState bef (w ++ rest) cs) = Some z.
Proof.
  intros Hw Hrest Hk. unfold star. simpl.
  apply repeat_set_run; try done. rewrite length_app. lia.
Qed.

(** An exact number of class members. *)
Lemma repeat_set_times inv s k n :
  forall fuel x,
    (n < fuel)%nat ->
    repeat_matcher (rmatch ic (RSet inv s)) [] true k fuel n (Some n) x
    = if (n <=? length (after x))%nat
         && forallb (in_set ic inv s) (take n (after x))
      then k (stepn n x) else None.
Proof.
  unfold in_set. induction n as [|n IH]; intros fuel x Hf;
    (destruct fuel as [|fuel]; [lia|]); rewrite repeat_matcher_S.
  - done.
  - simpl. rewrite cap_clear_nil.
    destruct x as [bef aft cs]. simpl. destruct aft as [|a rest]; [done|].
    simpl. destruct (xorb inv (cset_match ic s a)).
    + rewrite IH by lia. done.
    + by rewrite andb_false_r.
Qed.

Lemma rmatch_times_set inv s k n x :
  rmatch ic (times n (RSet inv s)) k x
  = if (n <=? length (after x))%nat
       && forallb (in_set ic inv s) (take n (after x))
    then k (stepn n x) else None.
Proof. unfold times. simpl. apply repeat_set_times. lia. Qed.

(** An optional character. *)
Lemma rmatch_opt_char c k bef aft cs :
  rmatch ic (opt (RChar c)) k (MState bef aft cs)
  = orelse
      (match aft with
       | a :: rest =>
           if canonicalize ic a =? canonicalize ic c
           then k (MState (a :: bef) rest cs) else None
       | [] => None
       end)
      (k (MState bef aft cs)).
Proof.
  unfold opt. simpl. rewrite repeat_matcher_S. simpl. rewrite cap_clear_nil.
  destruct aft as [|a rest]; [done|].
  destruct (canonicalize ic a =? canonicalize ic c); [|done].
  replace (length rest =? length (a :: rest))%nat with false
    by (symmetry; apply Nat.eqb_neq; simpl; lia).
  simpl. by rewrite repeat_matcher_S.
Qed.

(** A pattern anchored at the start is tried at the start only. *)
Lemma exec_anchored r aft :
  forall bef, bef <> [] -> exec ic (RSeq RStart r) bef aft = None.
Proof.
  induction aft as [|c aft IH]; intros bef Hb; simpl;
    unfold match_here; simpl; (destruct bef; [done|]); [done|].
  by apply IH.
Qed.

Lemma test_anchored r s :
  test ic (RSeq RStart r) s
  = match rmatch ic r Some (MState [] s []) with
    | Some _ => true
    | None => false
    end.
Proof.
  unfold test. destruct s as [|c s]; simpl; unfold match_here; simpl.
  - by destruct (rmatch ic r Some _).
  - destruct (rmatch ic r Some _); [done|]. by rewrite exec_anchored.
Qed.

End Run.

(** ** The sanitizer *)

Lemma rmatch_seq ic r1 r2 k x :
  rmatch ic (RSeq r1 r2) k x = rmatch ic r1 (fun y => rmatch ic r2 k y) x.
Proof. reflexivity. Qed.

Lemma rmatch_empty ic k x : rmatch ic REmpty k x = k x.
Proof. reflexivity. Qed.

Lemma rmatch_alt ic r1 r2 k x :
  rmatch ic (RAlt r1 r2) k x = orelse (rmatch ic r1 k x) (rmatch ic r2 k x).
Proof. reflexivity. Qed.

Lemma rmatch_group ic n r1 k x :
  rmatch ic (RGroup n r1) k x
  = rmatch ic r1
      (fun y =>
         let s := take (length (after x) - length (after y)) (after x) in
         k (MState (before y) (after y) ((n, s) :: caps y)))
      x.
Proof. reflexivity. Qed.

Lemma canon_eq_refl ic s : canon_eq ic s s.
Proof. induction s; constructor; done. Qed.

Lemma canon_eq_app ic s1 t1 s2 t2 :
  canon_eq ic s1 t1 -> canon_eq ic s2 t2 -> canon_eq ic (s1 ++ s2) (t1 ++ t2).
Proof. apply Forall2_app. Qed.

(** The two letters that canonicalize to a given capital. *)
Lemma to_upper_inv a c :
  is_upper c = true -> to_upper a = c -> a = c \/ a = c + 32.
Proof.
  unfold to_upper, is_upper, is_lower. intros Hc H.
  destruct ((97 <=? a) && (a <=? 122)) eqn:E; [|by left].
  right. apply andb_true_iff in E as [E1 E2].
  apply N.leb_le in E1, E2. lia.
Qed.

Lemma sanitizeSvg_eq t :
  sanitizeSvg t
  = if rejected_by_pattern t
    then Throw (str "Forbidden SVG: contains DOCTYPE/ENTITY declarations")
    else Return (fold_left pass removal_patterns t).
Proof. reflexivity. Qed.

Lemma passes_sublist rs : forall t, sublist (fold_left pass rs t) t.
Proof.
  induction rs as [|r rs IH]; intros t; simpl; [done|].
  transitivity (pass t r); [apply IH|apply replace_from_sublist].
Qed.

Lemma passes_fixed rs :
  forallb consumes rs = true ->
  forall t,
    fold_left pass rs t = t
    <-> forallb (fun r => negb (test true r t)) rs = true.
Proof.
  induction rs as [|r rs IH]; intros Hc t; simpl in *; [done|].
  apply andb_true_iff in Hc as [Hr Hrs].
  destruct (replace_all_cases true r t Hr) as [[Ht Hp]|[Ht Hp]]; rewrite Ht; simpl.
  - unfold pass at 2. rewrite Hp. by apply IH.
  - split; [|done]. intros Heq.
    pose proof (sublist_length _ _ (passes_sublist rs (pass t r))) as Hl.
    rewrite Heq in Hl. unfold pass in Hl. lia.
Qed.

Lemma removal_patterns_consume : forallb consumes removal_patterns = true.
Proof. reflexivity. Qed.

Lemma doctype_matches t : has_doctype t -> test true re_doctype t = true.
Proof.
  intros (pre & w & kw & post & -> & Hw & Hkw).
  assert (exists z, match_here true re_doctype (rev pre)
                      (str "<!" ++ w ++ kw ++ post) = Some z) as [z Hz].
  { unfold match_here, re_doctype. cbn [sequence].
    rewrite rmatch_seq, (rmatch_lit_app true (str "<!") (str "<!"))
      by apply canon_eq_refl.
    rewrite rmatch_seq. eexists. apply rmatch_star_set_run.
    - eapply Forall_impl; [exact Hw|]. intros a Ha. unfold in_set. simpl.
      unfold cset_match. simpl. by rewrite Ha.
    - inversion Hkw as [|a c kw' s' Hac Hrest]; subst. simpl.
      apply to_upper_inv in Hac as [->| ->]; [done..].
    - rewrite rmatch_seq, rmatch_lit_app by exact Hkw. reflexivity. }
  by eapply test_intro.
Qed.

Lemma entity_matches t : has_entity t -> test true re_entity t = true.
Proof.
  intros (pre & kw & post & -> & Hkw).
  eapply (test_intro true re_entity pre).
  unfold match_here, re_entity.
  rewrite (app_assoc (str "<!") kw post).
  rewrite (rmatch_lit_app true (str "<!ENTITY") (str "<!" ++ kw)); [done|].
  apply (canon_eq_app true (str "<!") (str "<!") kw (str "ENTITY"));
    [apply canon_eq_refl|exact Hkw].
Qed.

(** C2: a text that contains a document-type declaration or an entity
    declaration makes [sanitizeSvg] throw, whatever else it contains: no
    cleaned text is returned. *)
Theorem doctype_entity_rejected t :
  has_doctype t \/ has_entity t ->
  sanitizeSvg t
  = Throw (str "Forbidden SVG: contains DOCTYPE/ENTITY declarations").
Proof.
  intros H. rewrite sanitizeSvg_eq. unfold rejected_by_pattern.
  destruct H as [H|H].
  - by rewrite (doctype_matches t H).
  - rewrite (entity_matches t H). by rewrite orb_true_r.
Qed.

Lemma doctype_entity_rejected_witness :
  sanitizeSvg (str "<svg><!DocType svg [<!ENTITY x SYSTEM 'file:///etc/passwd'>]></svg>")
  = Throw (str "Forbidden SVG: contains DOCTYPE/ENTITY declarations").
Proof.
  apply (doctype_entity_rejected
    (str "<svg><!DocType svg [<!ENTITY x SYSTEM 'file:///etc/passwd'>]></svg>")).
  left. exists (str "<svg>"), [], (str "DocType"),
    (str " svg [<!ENTITY x SYSTEM 'file:///etc/passwd'>]></svg>").
  split; [reflexivity|]. split; [constructor|].
  repeat (constructor; [reflexivity|]). constructor.
Defined.

(** C10: where [sanitizeSvg] returns, the cleaned text is the input with
    units deleted and nothing else changed: it is a subsequence of the input,
    no longer than it, and equal to it exactly when no removal pattern
    matches the input. *)
Theorem sanitize_only_deletes s o :
  sanitizeSvg s = Return o ->
  sublist o s /\ (length o <= length s)%nat
  /\ (o = s <-> no_removal_matches s = true).
Proof.
  rewrite sanitizeSvg_eq. destruct (rejected_by_pattern s); [done|].
  intros [= <-]. split; [apply (passes_sublist removal_patterns)|]. split.
  - apply sublist_length, (passes_sublist removal_patterns).
  - apply (passes_fixed removal_patterns), removal_patterns_consume.
Qed.

Lemma sanitize_only_deletes_witness :
  let s := str "<svg onload=alert(1)><rect/></svg>" in
  let o := str "<svg><rect/></svg>" in
  sublist o s /\ (length o <= length s)%nat
  /\ (o = s <-> no_removal_matches s = true).
Proof.
  apply (sanitize_only_deletes (str "<svg onload=alert(1)><rect/></svg>")
           (str "<svg><rect/></svg>")).
  vm_compute. reflexivity.
Defined.



(** ** The grammar of stored names *)

Lemma stepn_take_drop n :
  forall bef l cs,
    stepn n (MState bef l cs) = MState (rev (take n l) ++ bef) (drop n l) cs.
Proof.
  induction n as [|n IH]; intros bef l cs; simpl; [done|].
  destruct l as [|a l]; simpl; [done|].
  unfold step1. simpl. rewrite IH. by rewrite <- app_assoc.
Qed.

Lemma canon_prefix_length ic s :
  forall l, canon_prefix ic s l = true -> (length s <= length l)%nat.
Proof.
  induction s as [|c s IH]; intros l H; simpl in *; [lia|].
  destruct l as [|a l]; [done|]. apply andb_true_iff in H as [_ H].
  apply IH in H. simpl. lia.
Qed.

(** A property of code units checked on the ASCII range by computation. *)
Lemma ascii_enum (f : N -> bool) :
  forallb f (map N.of_nat (List.seq 0 128)) = true ->
  forall a, a < 128 -> f a = true.
Proof.
  intros H a Ha. rewrite forallb_forall in H. apply H.
  apply in_map_iff. exists (N.to_nat a). split; [lia|]. apply in_seq. lia.
Qed.

(** Comparisons of a unit beyond the ASCII range with ASCII bounds. *)
Ltac beyond_ascii a :=
  repeat match goal with
         | |- context [(a <=? ?c)%N] =>
             rewrite (proj2 (N.leb_gt a c)) by lia
         | |- context [(?c <=? a)%N] =>
             rewrite (proj2 (N.leb_le c a)) by lia
         | |- context [(a =? ?c)%N] =>
             rewrite (proj2 (N.eqb_neq a c)) by lia
         end.

(** Under the [i] flag the class [[a-f0-9\-]] takes the hexadecimal digits
    of either case and the hyphen. *)
Lemma hexdash_class a : in_set true false hexdash a = is_hexdash a.
Proof.
  destruct (N.lt_ge_cases a 128) as [Ha|Ha].
  - apply eqb_prop.
    by apply (ascii_enum (fun a => eqb (in_set true false hexdash a) (is_hexdash a))).
  - change hexdash
      with (CUnion (CRange 97 102) (CUnion (CRange 48 57) (CChar 45))).
    unfold in_set, cset_match, is_hexdash, is_digit, to_upper, to_lower,
      is_lower, is_upper.
    cbn [cset_mem xorb andb]. beyond_ascii a. simpl. beyond_ascii a. done.
Qed.

Lemma forallb_pointwise {A} (f g : A -> bool) l :
  (forall a, f a = g a) -> forallb f l = forallb g l.
Proof. intros H. induction l as [|a l IH]; simpl; [done|]. by rewrite H, IH. Qed.

(** Refinement: the pattern of line 74 decides the grammar. *)
Lemma isValidUploadName_grammar name :
  isValidUploadName name = upload_name_grammar name.
Proof.
  unfold isValidUploadName, upload_name_grammar, re_upload_name, ci_eqb.
  cbn [sequence]. rewrite test_anchored, rmatch_seq, rmatch_times_set.
  cbn [after]. rewrite (forallb_pointwise _ _ _ hexdash_class).
  destruct (forallb is_hexdash (take 36 name)) eqn:Eh;
    [|by rewrite !andb_false_r].
  rewrite !andb_true_r.
  destruct (36 <=? length name)%nat eqn:El.
  - apply Nat.leb_le in El. rewrite rmatch_seq, rmatch_lit, stepn_take_drop.
    cbn [after].
    destruct (canon_prefix true (str ".svg") (drop 36 name)) eqn:Ec.
    + rewrite rmatch_seq. cbn [rmatch]. rewrite stepn_take_drop. cbn [after].
      change (length (str ".svg")) with 4%nat.
      apply canon_prefix_length in Ec. rewrite length_drop in Ec.
      simpl in Ec. rewrite andb_true_r.
      destruct (drop 4 (drop 36 name)) as [|c l] eqn:Ed.
      * apply (f_equal length) in Ed. rewrite !length_drop in Ed. simpl in Ed.
        rewrite length_drop. simpl.
        replace (length name =? 40)%nat with true
          by (symmetry; apply Nat.eqb_eq; lia).
        replace (length name - 36 =? 4)%nat with true
          by (symmetry; apply Nat.eqb_eq; lia).
        done.
      * apply (f_equal length) in Ed. rewrite !length_drop in Ed. simpl in Ed.
        replace (length name =? 40)%nat with false
          by (symmetry; apply Nat.eqb_neq; lia).
        done.
    + by rewrite !andb_false_r.
  - apply Nat.leb_gt in El.
    replace (length name =? 40)%nat with false
      by (symmetry; apply Nat.eqb_neq; lia).
    done.
Qed.

(** In a name of the grammar every unit before the extension is a
    hexadecimal digit or a hyphen, and the extension spells [.svg]. *)
Lemma grammar_units name i c :
  upload_name_grammar name = true -> name !! i = Some c ->
  ((i < 36)%nat /\ is_hexdash c = true)
  \/ (exists c', str ".svg" !! (i - 36)%nat = Some c'
                 /\ (36 <= i)%nat /\ to_upper c = to_upper c').
Proof.
  unfold upload_name_grammar, ci_eqb. intros H Hi.
  apply andb_true_iff in H as [H Hext]. apply andb_true_iff in H as [Hlen Hhex].
  apply andb_true_iff in Hext as [Hel Hext].
  apply Nat.eqb_eq in Hlen, Hel.
  destruct (decide (i < 36)%nat) as [Hlt|Hge].
  - left. split; [done|]. rewrite forallb_forall in Hhex. apply Hhex.
    apply list_elem_of_In, (list_elem_of_lookup_2 _ i).
    by rewrite lookup_take_lt.
  - right. assert (drop 36 name !! (i - 36)%nat = Some c) as Hd.
    { rewrite lookup_drop. rewrite <- Hi. f_equal. lia. }
    destruct (drop 36 name) as [|e0 [|e1 [|e2 [|e3 [|e4 l]]]]]; try done.
    simpl in Hext. unfold canonicalize in Hext.
    repeat (apply andb_true_iff in Hext as [?%N.eqb_eq Hext]).
    destruct (i - 36)%nat as [|[|[|[|n]]]] eqn:En; simpl in Hd; try done;
      injection Hd as ->; eexists; (split; [reflexivity|]); split; (lia || done).
Qed.

Lemma grammar_no_slash name :
  contains name (str "/") -> upload_name_grammar name = false.
Proof.
  intros (pre & post & ->). apply not_true_is_false. intros H.
  destruct (grammar_units _ (length pre) 47 H) as [[_ Hh]|(c' & Hc' & _ & Hu)].
  - by rewrite lookup_app_r, Nat.sub_diag by lia.
  - done.
  - destruct (length pre - 36)%nat as [|[|[|[|n]]]]; simpl in Hc'; try done;
      injection Hc' as <-; done.
Qed.

Lemma grammar_no_dotdot name :
  contains name (str "..") -> upload_name_grammar name = false.
Proof.
  intros (pre & post & ->). apply not_true_is_false. intros H.
  destruct (grammar_units _ (length pre) 46 H) as [[_ Hh]|(c' & _ & Hge & _)].
  - by rewrite lookup_app_r, Nat.sub_diag by lia.
  - done.
  - destruct (grammar_units _ (S (length pre)) 46 H)
      as [[Hlt _]|(c2 & Hc' & _ & Hu)].
    + rewrite lookup_app_r by lia.
      by replace (S (length pre) - length pre)%nat with 1%nat by lia.
    + lia.
    + destruct (S (length pre) - 36)%nat as [|[|[|[|n]]]] eqn:En;
        simpl in Hc'; try done; try (injection Hc' as <-; done). lia.
Qed.

Lemma grammar_no_tmp f : upload_name_grammar (f ++ str ".tmp") = false.
Proof.
  unfold upload_name_grammar.
  destruct (length (f ++ str ".tmp") =? 40)%nat eqn:E; [|done].
  apply Nat.eqb_eq in E. rewrite length_app in E. simpl in E.
  replace 36%nat with (length f) by lia.
  rewrite drop_app_length. by rewrite andb_false_r.
Qed.

(** ** The read endpoints *)

Lemma invalid_name_get e fs req :
  isValidUploadName (params_name req) = false ->
  get_upload e fs req = send 400 [] (Text (str "Invalid filename")) fs [].
Proof. intros H. unfold get_upload. by rewrite H. Qed.

Lemma invalid_name_view e fs req :
  isValidUploadName (params_name req) = false ->
  view e fs req = send 400 [] (Text (str "Invalid filename")) fs [].
Proof. intros H. unfold view. by rewrite H. Qed.

(** C5: on both read endpoints a requested name that contains [..] or [/],
    or that is not of the grammar (36 hexadecimal digits or hyphens, then
    [.svg], letters in either case), is answered with status 400 and
    [Invalid filename]; the trace is empty, so no path was joined and no
    file was touched. *)
Theorem invalid_name_rejected e fs req :
  contains (params_name req) (str "..")
  \/ contains (params_name req) (str "/")
  \/ upload_name_grammar (params_name req) = false ->
  get_upload e fs req = send 400 [] (Text (str "Invalid filename")) fs []
  /\ view e fs req = send 400 [] (Text (str "Invalid filename")) fs [].
Proof.
  intros H.
  assert (isValidUploadName (params_name req) = false) as Hv.
  { rewrite isValidUploadName_grammar.
    destruct H as [H|[H|H]];
      [by apply grammar_no_dotdot|by apply grammar_no_slash|done]. }
  split; [by apply invalid_name_get|by apply invalid_name_view].
Qed.

Lemma invalid_name_rejected_witness :
  let req := example_request "" "../../etc/passwd" in
  get_upload (example_env None FetchAborted) ∅ req
  = send 400 [] (Text (str "Invalid filename")) ∅ []
  /\ view (example_env None FetchAborted) ∅ req
     = send 400 [] (Text (str "Invalid filename")) ∅ [].
Proof.
  apply (invalid_name_rejected (example_env None FetchAborted) ∅
           (example_request "" "../../etc/passwd")).
  left. exists [], (str "/../etc/passwd"). reflexivity.
Defined.

(** What the import leaves in the trace of file-system events. *)
Lemma import_fs_events e fs req :
  let final := path_join (UPLOAD_DIR e) (uuidv4 e ++ str ".svg") in
  fs_events (trace (import_url e fs req)) = []
  \/ exists clean,
       fs_events (trace (import_url e fs req))
       = [EvWriteFile (final ++ str ".tmp") clean 384]
       \/ fs_events (trace (import_url e fs req))
          = [EvWriteFile (final ++ str ".tmp") clean 384;
             EvRename (final ++ str ".tmp") final].
Proof.
  intros final. unfold import_url.
  destruct (str_eqb _ []); [by left|].
  destruct (negb (isHttpUrl e _)); [by left|].
  destruct (parseURL e _) as [parsed|]; [|by left].
  destruct (Nat.eqb _ 0); [by left|].
  destruct (blocked _ _); [by left|].
  destruct (fetch e _) as [|err|ok code text]; [by left..|].
  destruct (negb ok); [by left|].
  destruct (maxBytes <? byteLength text); [by left|].
  destruct (sanitizeSvg text) as [clean|msg]; [|by left].
  destruct (negb (test true re_svg clean)); [by left|].
  right. exists clean.
  destruct (writeFileSync e _ clean) as [|kept err]; [|by left].
  destruct (renameSync e _ _) as [err|]; by right.
Qed.

(** C9: a temporary file is not served.  The import writes to the final
    path with [.tmp] appended and nowhere else, and renames nothing but
    that file, to the final path; the pattern of the read
    endpoints decides the grammar of 36 units and [.svg], which no name
    ending in [.tmp] meets; so both endpoints answer such a name with
    status 400 and an empty trace, and the path of a name that they accept
    is never the temporary one. *)
Theorem temporary_file_not_served e fs req f :
  let final := path_join (UPLOAD_DIR e) (uuidv4 e ++ str ".svg") in
  let tmp_request :=
    {| body_url := body_url req; params_name := f ++ str ".tmp";
       req_headers := req_headers req |} in
  (fs_events (trace (import_url e fs req)) = []
   \/ exists clean,
        fs_events (trace (import_url e fs req))
        = [EvWriteFile (final ++ str ".tmp") clean 384]
        \/ fs_events (trace (import_url e fs req))
           = [EvWriteFile (final ++ str ".tmp") clean 384;
              EvRename (final ++ str ".tmp") final])
  /\ isValidUploadName (params_name req)
     = upload_name_grammar (params_name req)
  /\ isValidUploadName (f ++ str ".tmp") = false
  /\ get_upload e fs tmp_request
     = send 400 [] (Text (str "Invalid filename")) fs []
  /\ view e fs tmp_request
     = send 400 [] (Text (str "Invalid filename")) fs []
  /\ (isValidUploadName (params_name req) = false
      \/ path_join (UPLOAD_DIR e) (params_name req) <> final ++ str ".tmp").
Proof.
  intros final tmp_request.
  assert (forall g, isValidUploadName (g ++ str ".tmp") = false) as Hf
    by (intros g; rewrite isValidUploadName_grammar; apply grammar_no_tmp).
  split; [apply import_fs_events|].
  split; [apply isValidUploadName_grammar|].
  split; [apply Hf|].
  split; [apply invalid_name_get, Hf|].
  split; [apply invalid_name_view, Hf|].
  destruct (isValidUploadName (params_name req)) eqn:Ev; [right|by left].
  intros Heq. unfold final, path_join in Heq.
  rewrite <- !app_assoc in Heq. do 2 apply app_inv_head in Heq.
  rewrite Heq, app_assoc, Hf in Ev. done.
Qed.

(** ** The address check of the import *)


Lemma blocked_none isIP ips :
  Forall (fun ip => isPrivateIp isIP ip = false) ips -> blocked isIP ips = false.
Proof. induction 1 as [|ip ips Hip _ IH]; simpl; [done|]. by rewrite Hip. Qed.

Lemma not_ip_not_private isIP ip : isIP ip = 0 -> isPrivateIp isIP ip = false.
Proof. intros H. unfold isPrivateIp. by rewrite H. Qed.

Lemma import_url_reaches_lookup e fs req url parsed :
  reaches_lookup e req url parsed ->
  import_url e fs req
  = let ips := hostnameToIPs e (hostname parsed) in
    let tr := [EvDnsLookup (hostname parsed)] in
    if Nat.eqb (length ips) 0
    then send 400 [] (Text (str "Could not resolve hostname")) fs tr
    else if blocked (net_isIP e) ips
    then send 403 []
           (Text (str "Fetching private IP addresses is not allowed")) fs tr
    else
      let tr := tr ++ [EvFetch url] in
      match fetch e url with
      | FetchAborted => send 504 [] (Text (str "Fetch timed out")) fs tr
      | FetchFailed err =>
          send 500 [] (Text (str "Failed to fetch URL: " ++ err)) fs
            (tr ++ [EvLogError])
      | FetchResponse ok code text =>
          if negb ok
          then send 502 []
                 (Text (str "Upstream fetch failed: " ++ dec code)) fs tr
          else if maxBytes <? byteLength text
          then send 413 [] (Text (str "SVG too large")) fs tr
          else
            match sanitizeSvg text with
            | Throw msg =>
                send 400 [] (Text (str "SVG rejected: " ++ msg)) fs tr
            | Return clean =>
                if negb (test true re_svg clean)
                then send 400 []
                       (Text (str "Content is not a valid SVG")) fs tr
                else
                  let filename := uuidv4 e ++ str ".svg" in
                  let filepath := path_join (UPLOAD_DIR e) filename in
                  let tmpPath := filepath ++ str ".tmp" in
                  match writeFileSync e tmpPath clean with
                  | WriteThrows kept err =>
                      send 500 [] (Text (str "Failed to fetch URL: " ++ err))
                        (match kept with
                         | Some d => <[tmpPath := d]> fs
                         | None => fs
                         end)
                        (tr ++ [EvWriteFile tmpPath clean 384; EvLogError])
                  | WriteDone =>
                      let fs1 := <[tmpPath := clean]> fs in
                      match renameSync e tmpPath filepath with
                      | Some err =>
                          send 500 []
                            (Text (str "Failed to fetch URL: " ++ err)) fs1
                            (tr ++ [EvWriteFile tmpPath clean 384;
                                    EvRename tmpPath filepath; EvLogError])
                      | None =>
                          let fs2 :=
                            <[filepath := clean]> (delete tmpPath fs1) in
                          send 201 [] (Json (str "Imported") filename) fs2
                            (tr ++ [EvWriteFile tmpPath clean 384;
                                    EvRename tmpPath filepath])
                      end
                  end
            end
      end.
Proof.
  intros (Hurl & Hne & Hhttp & Hparse). unfold import_url.
  rewrite Hurl. unfold str_eqb. rewrite bool_decide_eq_false_2 by done.
  rewrite Hhttp, Hparse. reflexivity.
Qed.

Lemma Forall_octets (P : N -> Prop) :
  Forall P octets -> forall a, a < 256 -> P a.
Proof.
  intros H a Ha. rewrite Forall_forall in H. apply H.
  apply list_elem_of_In, in_map_iff. exists (N.to_nat a).
  split; [lia|]. apply in_seq. lia.
Qed.

Ltac each_octet tac :=
  refine (Forall_octets _ _);
  let l := eval vm_compute in octets in
  change octets with l;
  repeat (constructor; [tac|]); constructor.

(** The tests of lines 38-41 on the text of a dotted quad are decided by
    its first two octets, and agree with the ranges. *)
Lemma private_text_ranges :
  forall a, a < 256 -> forall b, b < 256 -> forall tail,
    let ip := dec a ++ str "." ++ dec b ++ str "." ++ tail in
    (if startsWith ip (str "10.") || startsWith ip (str "127.")
        || startsWith ip (str "169.254.") || startsWith ip (str "192.168.")
        || matches_at_start false re_172 ip
     then true
     else if str_eqb ip (str "::1") || startsWith ip (str "fe80")
             || str_eqb ip (str "::")
     then true
     else false) = in_private_ranges a b.
Proof.
  each_octet ltac:(first
    [ intros b Hb tail; vm_compute; reflexivity
    | each_octet ltac:(intros tail; vm_compute; reflexivity) ]).
Qed.

Lemma test_re_172 ip : test false re_172 ip = matches_at_start false re_172 ip.
Proof.
  unfold re_172, matches_at_start. cbn [sequence]. by rewrite test_anchored.
Qed.

(** Refinement: on a dotted quad that the platform takes for an address,
    [isPrivateIp] decides the ranges of the specification. *)
Lemma isPrivateIp_dotted isIP a b c d :
  a < 256 -> b < 256 -> isIP (dotted a b c d) <> 0 ->
  isPrivateIp isIP (dotted a b c d) = in_private_ranges a b.
Proof.
  intros Ha Hb Hip. unfold isPrivateIp.
  rewrite (proj2 (N.eqb_neq _ _) Hip), test_re_172.
  apply (private_text_ranges a Ha b Hb (dec c ++ str "." ++ dec d)).
Qed.





(** Other literals of the blocks of claim C1 that the string tests of
    lines 38-41 let pass: a link-local address outside [fe80::/16], and
    the loopback address in its IPv4-mapped and in its expanded form. *)
Example classifier_gaps :
  map (fun ip => (node_isIP (str ip), isPrivateIp node_isIP (str ip)))
    ["fe90::1"; "::ffff:127.0.0.1"; "0:0:0:0:0:0:0:1"]%string
  = [(6, false); (6, false); (6, false)].
Proof. vm_compute. reflexivity. Qed.

(** C7: when the lookup fails or lists nothing, the import answers 400
    [Could not resolve hostname]; the trace holds the lookup only, so
    nothing was fetched, and the store is as it was. *)
Theorem unresolvable_host_rejected e fs req url parsed :
  reaches_lookup e req url parsed ->
  dnsLookup e (hostname parsed) = None
  \/ dnsLookup e (hostname parsed) = Some [] ->
  import_url e fs req
  = send 400 [] (Text (str "Could not resolve hostname"))
      fs [EvDnsLookup (hostname parsed)].
Proof.
  intros Ha Hd. rewrite (import_url_reaches_lookup e fs req url parsed Ha).
  unfold hostnameToIPs. by destruct Hd as [-> | ->].
Qed.

Lemma unresolvable_host_rejected_witness :
  import_url (example_env None FetchAborted) ∅
    (example_request "http://assets.example/a.svg" "")
  = send 400 [] (Text (str "Could not resolve hostname"))
      ∅ [EvDnsLookup (str "assets.example")].
Proof.
  apply (unresolvable_host_rejected (example_env None FetchAborted) ∅
           (example_request "http://assets.example/a.svg" "")
           (str "http://assets.example/a.svg")
           {| protocol := str "http:"; hostname := str "assets.example" |}).
  - split; [reflexivity|]. split; [discriminate|]. split; reflexivity.
  - left. reflexivity.
Defined.

(** At the import, such a document is answered with status 400 and leaves
    the store as it was. *)
Lemma doctype_import_rejected e fs req url parsed code text :
  reaches_lookup e req url parsed ->
  hostnameToIPs e (hostname parsed) <> [] ->
  blocked (net_isIP e) (hostnameToIPs e (hostname parsed)) = false ->
  fetch e url = FetchResponse true code text ->
  byteLength text <= maxBytes ->
  has_doctype text \/ has_entity text ->
  import_url e fs req
  = send 400 []
      (Text (str "SVG rejected: "
             ++ str "Forbidden SVG: contains DOCTYPE/ENTITY declarations"))
      fs [EvDnsLookup (hostname parsed); EvFetch url].
Proof.
  intros Ha Hne Hb Hf Hsize Hd.
  rewrite (import_url_reaches_lookup e fs req url parsed Ha). cbv zeta.
  assert (rejected_by_pattern text = true) as Hrej.
  { unfold rejected_by_pattern. destruct Hd as [Hd|Hd].
    - by rewrite (doctype_matches text Hd).
    - rewrite (entity_matches text Hd). by rewrite orb_true_r. }
  rewrite Hb, Hf, sanitizeSvg_eq, Hrej.
  destruct (hostnameToIPs e (hostname parsed)); [done|].
  cbn [length Nat.eqb negb].
  by rewrite (proj2 (N.ltb_ge _ _) Hsize).
Qed.

(** C4, as amended: an entry that [net.isIP] does not recognise is judged
    not private; it is neither dropped nor a cause of rejection, and a
    resolution made of such entries only lets the import go on to the
    fetch. *)
Theorem invalid_entries_pass e fs req url parsed :
  reaches_lookup e req url parsed ->
  hostnameToIPs e (hostname parsed) <> [] ->
  Forall (fun ip => net_isIP e ip = 0) (hostnameToIPs e (hostname parsed)) ->
  Forall (fun ip => isPrivateIp (net_isIP e) ip = false)
    (hostnameToIPs e (hostname parsed))
  /\ EvFetch url ∈ trace (import_url e fs req).
Proof.
  intros Ha Hne Hall.
  assert (Forall (fun ip => isPrivateIp (net_isIP e) ip = false)
            (hostnameToIPs e (hostname parsed))) as Hnp.
  { eapply Forall_impl; [exact Hall|]. intros ip. apply not_ip_not_private. }
  split; [exact Hnp|].
  rewrite (import_url_reaches_lookup e fs req url parsed Ha). cbv zeta.
  rewrite (blocked_none _ _ Hnp).
  destruct (hostnameToIPs e (hostname parsed)) as [|ip ips]; [done|].
  cbn [length Nat.eqb].
  destruct (fetch e url) as [|err|ok code text]; [set_solver..|].
  destruct (negb ok); [set_solver|].
  destruct (maxBytes <? byteLength text); [set_solver|].
  destruct (sanitizeSvg text); [|set_solver].
  destruct (negb (test true re_svg a)); [set_solver|].
  destruct (writeFileSync e _ a); [|set_solver].
  destruct (renameSync e _ _); set_solver.
Qed.

Lemma invalid_entries_pass_witness :
  let e := example_env (Some [str "not-an-ip"]) FetchAborted in
  let req := example_request "http://assets.example/a.svg" "" in
  Forall (fun ip => isPrivateIp (net_isIP e) ip = false)
    (hostnameToIPs e (str "assets.example"))
  /\ EvFetch (str "http://assets.example/a.svg") ∈ trace (import_url e ∅ req).
Proof.
  apply (invalid_entries_pass
           (example_env (Some [str "not-an-ip"]) FetchAborted) ∅
           (example_request "http://assets.example/a.svg" "")
           (str "http://assets.example/a.svg")
           {| protocol := str "http:"; hostname := str "assets.example" |}).
  - split; [reflexivity|]. split; [discriminate|]. split; reflexivity.
  - discriminate.
  - constructor; [vm_compute; reflexivity|constructor].
Defined.

(** C4, the claim as stated fails: the only entry of the resolution is no
    address literal, yet it is judged not private, it is not dropped (the
    host does not count as unresolvable) and the fetch takes place. *)
Lemma invalid_entry_trusted :
  node_isIP (str "not-an-ip") = 0
  /\ isPrivateIp node_isIP (str "not-an-ip") = false
  /\ trace (import_url (example_env (Some [str "not-an-ip"]) FetchAborted) ∅
              (example_request "http://assets.example/a.svg" ""))
     = [EvDnsLookup (str "assets.example");
        EvFetch (str "http://assets.example/a.svg")].
Proof. vm_compute. done. Qed.

(** ** The headers of the responses *)

(** C8: for a stored name the preview carries the policy
    [default-src 'none'; img-src 'self'; style-src 'unsafe-inline';] and
    [X-Content-Type-Options: nosniff]; under that policy scripts and every
    fetch other than an image have the source list ['none'] and images
    ['self']; the raw response sets [Content-Type] to
    [image/svg+xml; charset=utf-8] whatever headers the client sent. *)
Theorem response_headers e fs req content client_headers :
  isValidUploadName (params_name req) = true ->
  fs !! path_join (UPLOAD_DIR e) (params_name req) = Some content ->
  headers (response (view e fs req))
  = [(str "Content-Security-Policy", content_security_policy);
     (str "X-Content-Type-Options", str "nosniff")]
  /\ Forall (fun d => effective_sources (parse_policy content_security_policy) d
                      = Some [str "'none'"])
       script_and_fetch_directives
  /\ effective_sources (parse_policy content_security_policy) (str "img-src")
     = Some [str "'self'"]
  /\ effective_sources (parse_policy content_security_policy) (str "style-src")
     = Some [str "'unsafe-inline'"]
  /\ headers (response
       (get_upload e fs
          {| body_url := body_url req; params_name := params_name req;
             req_headers := client_headers |}))
     = [(str "Content-Type", str "image/svg+xml; charset=utf-8")].
Proof.
  intros Hv Hf. split; [|split; [|split; [|split]]].
  - unfold view. by rewrite Hv, Hf.
  - repeat (constructor; [vm_compute; reflexivity|]). constructor.
  - vm_compute. reflexivity.
  - vm_compute. reflexivity.
  - unfold get_upload. cbn [params_name]. by rewrite Hv, Hf.
Qed.

Lemma response_headers_witness :
  let e := example_env None FetchAborted in
  let fs : FS :=
    {[ str "/srv/app/uploads/123e4567-e89b-42d3-a456-426614174000.svg"
       := str "<svg></svg>" ]} in
  let req := example_request "" "123e4567-e89b-42d3-a456-426614174000.svg" in
  headers (response (view e fs req))
  = [(str "Content-Security-Policy", content_security_policy);
     (str "X-Content-Type-Options", str "nosniff")]
  /\ Forall (fun d => effective_sources (parse_policy content_security_policy) d
                      = Some [str "'none'"])
       script_and_fetch_directives
  /\ effective_sources (parse_policy content_security_policy) (str "img-src")
     = Some [str "'self'"]
  /\ effective_sources (parse_policy content_security_policy) (str "style-src")
     = Some [str "'unsafe-inline'"]
  /\ headers (response
       (get_upload e fs
          {| body_url := body_url req; params_name := params_name req;
             req_headers := [(str "Content-Type", str "text/html")] |}))
     = [(str "Content-Type", str "image/svg+xml; charset=utf-8")].
Proof.
  apply (response_headers (example_env None FetchAborted)
           {[ str "/srv/app/uploads/123e4567-e89b-42d3-a456-426614174000.svg"
              := str "<svg></svg>" ]}
           (example_request "" "123e4567-e89b-42d3-a456-426614174000.svg")
           (str "<svg></svg>")
           [(str "Content-Type", str "text/html")]).
  - vm_compute. reflexivity.
  - apply lookup_singleton_eq.
Defined.

(** ** The removal of external references *)

Lemma space_in_ws a : is_space a = true -> in_set true false CSpace a = true.
Proof. intros H. unfold in_set, cset_match. simpl. by rewrite H. Qed.

(** A quote is not matched by its own negated class, every other unit
    is. *)
Lemma notc_quote q a :
  q = dquote \/ q = squote ->
  in_set true true (CChar q) a = negb (a =? q).
Proof.
  intros Hq. destruct (N.lt_ge_cases a 128) as [Ha|Ha].
  - apply eqb_prop. destruct Hq as [-> | ->];
      [by apply (ascii_enum (fun a => eqb (in_set true true (CChar dquote) a)
                                        (negb (a =? dquote))))
      |by apply (ascii_enum (fun a => eqb (in_set true true (CChar squote) a)
                                        (negb (a =? squote))))].
  - unfold in_set, cset_match, to_upper, to_lower, is_lower, is_upper.
    cbn [cset_mem]. destruct Hq as [-> | ->]; unfold dquote, squote;
      beyond_ascii a; simpl; beyond_ascii a; done.
Qed.

Lemma rmatch_char_same ic c k bef rest cs :
  rmatch ic (RChar c) k (MState bef (c :: rest) cs)
  = k (MState (c :: bef) rest cs).
Proof. simpl. by rewrite N.eqb_refl. Qed.

(** The scheme, with or without the [s]. *)
Lemma http_scheme_match k bef cs scheme rest z :
  ci_equal scheme (str "http") \/ ci_equal scheme (str "https") ->
  k (MState (rev (str "://") ++ rev scheme ++ bef) rest cs) = Some z ->
  rmatch true http_scheme k (MState bef (scheme ++ str "://" ++ rest) cs)
  = Some z.
Proof.
  intros Hs Hk. unfold http_scheme. cbn [sequence]. rewrite rmatch_seq.
  destruct Hs as [Hs|Hs].
  - rewrite (rmatch_lit_app true (str "http") scheme) by exact Hs.
    rewrite rmatch_seq, rmatch_opt_char.
    change (str "://" ++ rest) with (58 :: str "//" ++ rest).
    cbv iota beta.
    change (canonicalize true 58 =? canonicalize true (chr "s")) with false.
    cbv iota. cbn [orelse]. rewrite rmatch_seq.
    change (58 :: str "//" ++ rest) with (str "://" ++ rest).
    rewrite (rmatch_lit_app true (str "://") (str "://") _ _ rest)
      by apply canon_eq_refl.
    rewrite rmatch_empty. exact Hk.
  - change (str "https") with (str "http" ++ [chr "s"]) in Hs.
    apply Forall2_app_inv_r in Hs as (s4 & s1 & H4 & H1 & ->).
    inversion H1 as [|c c' l l' Hc Hl]; subst. inversion Hl; subst.
    rewrite <- (app_assoc s4 [c]).
    rewrite (rmatch_lit_app true (str "http") s4) by exact H4.
    rewrite rmatch_seq, rmatch_opt_char. cbn [app].
    rewrite Hc, N.eqb_refl. rewrite rmatch_seq.
    rewrite (rmatch_lit_app true (str "://") (str "://") _ _ rest)
      by apply canon_eq_refl.
    rewrite rmatch_empty. rewrite rev_app_distr in Hk. simpl in Hk.
    simpl. by rewrite Hk.
Qed.

(** A quoted value that starts with the scheme. *)
Lemma quoted_http_match q k bef cs scheme value post z :
  q = dquote \/ q = squote ->
  ci_equal scheme (str "http") \/ ci_equal scheme (str "https") ->
  Forall (fun c => c <> q) value ->
  k (MState (q :: rev value ++ rev (str "://") ++ rev scheme ++ q :: bef)
       post cs) = Some z ->
  rmatch true (quoted q http_scheme) k
    (MState bef (q :: scheme ++ str "://" ++ value ++ q :: post) cs)
  = Some z.
Proof.
  intros Hq Hs Hv Hk. unfold quoted. cbn [sequence].
  rewrite rmatch_seq, rmatch_char_same, rmatch_seq.
  apply http_scheme_match; [exact Hs|].
  rewrite rmatch_seq. apply rmatch_star_set_run.
  - eapply Forall_impl; [exact Hv|]. intros a Ha. cbv beta in Ha.
    rewrite notc_quote by exact Hq. by apply negb_true_iff, N.eqb_neq.
  - rewrite notc_quote by exact Hq. by rewrite N.eqb_refl.
  - rewrite rmatch_seq, rmatch_char_same, rmatch_empty. exact Hk.
Qed.

Lemma other_quote_fails q k bef cs rest :
  q = squote ->
  rmatch true (quoted dquote http_scheme) k (MState bef (q :: rest) cs) = None.
Proof. intros ->. reflexivity. Qed.

(** What follows the attribute name. *)
Lemma external_value_match k bef cs w1 w2 q scheme value post z :
  Forall (fun c => is_space c = true) w1 ->
  Forall (fun c => is_space c = true) w2 ->
  q = dquote \/ q = squote ->
  ci_equal scheme (str "http") \/ ci_equal scheme (str "https") ->
  Forall (fun c => c <> q) value ->
  k (MState (q :: rev value ++ rev (str "://") ++ rev scheme ++ q
               :: rev w2 ++ chr "=" :: rev w1 ++ bef) post cs) = Some z ->
  rmatch true
    (sequence [star ws; RChar (chr "="); star ws;
               RAlt (quoted dquote http_scheme) (quoted squote http_scheme)])
    k (MState bef (w1 ++ [chr "="] ++ w2 ++ [q] ++ scheme ++ str "://"
                   ++ value ++ [q] ++ post) cs)
  = Some z.
Proof.
  intros Hw1 Hw2 Hq Hs Hv Hk. cbn [sequence]. rewrite rmatch_seq.
  apply rmatch_star_set_run.
  - eapply Forall_impl; [exact Hw1|]. apply space_in_ws.
  - reflexivity.
  - rewrite rmatch_seq. cbn [app]. rewrite rmatch_char_same, rmatch_seq.
    apply rmatch_star_set_run.
    + eapply Forall_impl; [exact Hw2|]. apply space_in_ws.
    + destruct Hq as [-> | ->]; reflexivity.
    + rewrite rmatch_seq. cbn [app].
      change (rmatch true (RAlt ?a ?b) ?k ?x)
        with (orelse (rmatch true a k x) (rmatch true b k x)).
      destruct Hq as [-> | ->].
      * rewrite (quoted_http_match dquote _ _ _ scheme value post z); auto.
      * rewrite other_quote_fails by reflexivity. cbn [orelse].
        apply quoted_http_match; auto.
Qed.

(** At the start of such an attribute the pattern of line 67 matches the
    attribute, no less and no more. *)
Lemma external_attr_match attr bef post :
  quoted_external_attr attr ->
  exists cs,
    match_here true re_external bef (attr ++ post)
    = Some (MState (rev attr ++ bef) post cs).
Proof.
  intros (name & w1 & w2 & q & scheme & value & -> & Hn & Hw1 & Hw2 & Hq
          & Hs & Hv).
  eexists. unfold match_here, re_external. cbn [sequence].
  rewrite rmatch_seq, rmatch_group, rmatch_alt. rewrite <- !app_assoc.
  assert (forall cs,
    rmatch true
      (RSeq (star ws)
         (RSeq (RChar (chr "="))
            (RSeq (star ws)
               (RSeq (RAlt (quoted dquote http_scheme)
                           (quoted squote http_scheme)) REmpty))))
      Some
      (MState (rev name ++ bef)
         (w1 ++ [chr "="] ++ w2 ++ [q] ++ scheme ++ str "://" ++ value
          ++ [q] ++ post) cs)
    = Some (MState
              (rev (name ++ w1 ++ [chr "="] ++ w2 ++ [q] ++ scheme ++ str "://"
                    ++ value ++ [q]) ++ bef) post cs)) as Htail.
  { intros cs.
    apply (external_value_match Some (rev name ++ bef) cs w1 w2 q scheme value
             post); try done.
    do 3 f_equal. rewrite !rev_app_distr. cbn [rev app].
    repeat rewrite <- app_assoc. reflexivity. }
  destruct Hn as [Hn|Hn].
  - rewrite (rmatch_lit_app true (str "xlink:href") name) by exact Hn.
    cbv beta zeta. cbn [before after caps]. rewrite Htail. reflexivity.
  - rewrite (rmatch_lit true (str "xlink:href")). cbn [after].
    replace (canon_prefix true (str "xlink:href") _) with false.
    2:{ inversion Hn as [|a c l l' Hac Hl]; subst. simpl.
        unfold canonicalize in *. by rewrite Hac. }
    cbn [orelse].
    rewrite (rmatch_lit_app true (str "href") name) by exact Hn.
    cbv beta zeta. cbn [before after caps]. rewrite Htail. reflexivity.
Qed.

Lemma quoted_external_attr_nonempty attr : quoted_external_attr attr -> attr <> [].
Proof.
  intros (name & w1 & w2 & q & scheme & value & -> & Hn & _) E.
  apply (f_equal length) in E. rewrite !length_app in E.
  destruct Hn as [Hn|Hn]; apply Forall2_length in Hn; simpl in *; lia.
Qed.

(** The last removal drops the attribute that the scan reaches. *)
Lemma strip_external_attr pre attr post :
  quoted_external_attr attr ->
  no_match_within true re_external [] pre (attr ++ post) = true ->
  strip_external (pre ++ attr ++ post)
  = pre ++ replace_from true re_external [] (rev attr ++ rev pre) post 0.
Proof.
  intros Ha Hpre. unfold strip_external, replace_all.
  rewrite replace_from_prefix by exact Hpre. f_equal. rewrite app_nil_r.
  destruct (external_attr_match attr (rev pre) post Ha) as [cs Hm].
  by rewrite (replace_from_match true re_external [] (rev pre) attr post _
                (quoted_external_attr_nonempty attr Ha) Hm eq_refl).
Qed.

(** C6, the claim as stated fails: the removal of a quoted external
    reference joins the text around it into another one, which the returned
    text still contains; the document passes the final gate of the import. *)
Lemma external_href_survives :
  sanitizeSvg
    (str "<svg><a hrefhref='http://a.example/'='http://evil.example/x'/></svg>")
  = Return (str "<svg><a href='http://evil.example/x'/></svg>")
  /\ test true re_external (str "<svg><a href='http://evil.example/x'/></svg>")
     = true
  /\ test true re_svg (str "<svg><a href='http://evil.example/x'/></svg>")
     = true.
Proof. vm_compute. done. Qed.

(** A value without quotes is outside the pattern of line 67, unlike in
    the patterns of lines 57 and 60. *)
Lemma unquoted_external_href_kept :
  sanitizeSvg (str "<svg><a href=http://evil.example/x>y</a></svg>")
  = Return (str "<svg><a href=http://evil.example/x>y</a></svg>").
Proof. vm_compute. done. Qed.

(** * Further properties *)

(** ** The stages of the import *)

Lemma trimStart_blank s :
  Forall (fun c => is_space c = true) s -> trimStart s = [].
Proof. induction 1 as [|c s Hc _ IH]; simpl; [done|]. by rewrite Hc. Qed.

Lemma trim_blank s : Forall (fun c => is_space c = true) s -> trim s = [].
Proof. intros H. unfold trim. by rewrite (trimStart_blank s H). Qed.

(** A request without a url, or with a url of white space only, is
    answered 400 [Missing url]; nothing is looked up, fetched or written. *)
Theorem missing_url_rejected e fs req :
  body_url req = None
  \/ (exists s, body_url req = Some s /\ Forall (fun c => is_space c = true) s) ->
  import_url e fs req = send 400 [] (Text (str "Missing url")) fs [].
Proof.
  intros H. unfold import_url.
  assert (trim (default [] (body_url req)) = []) as ->; [|done].
  destruct H as [-> |(s & -> & Hs)]; [done|]. by apply trim_blank.
Qed.

Lemma missing_url_rejected_witness :
  import_url (example_env None FetchAborted) ∅ (example_request "   " "")
  = send 400 [] (Text (str "Missing url")) ∅ [].
Proof.
  apply (missing_url_rejected (example_env None FetchAborted) ∅
           (example_request "   " "")).
  right. exists (str "   "). split; [reflexivity|].
  repeat (constructor; [reflexivity|]). constructor.
Defined.

(** A url that does not parse, or whose scheme is neither [http:] nor
    [https:], is answered 400 before any lookup. *)
Theorem non_http_url_rejected e fs req url :
  trim (default [] (body_url req)) = url -> url <> [] ->
  parseURL e url = None
  \/ (exists parsed, parseURL e url = Some parsed
        /\ protocol parsed <> str "http:" /\ protocol parsed <> str "https:") ->
  import_url e fs req
  = send 400 [] (Text (str "URL must be http or https")) fs [].
Proof.
  intros Hurl Hne H. unfold import_url. rewrite Hurl.
  unfold str_eqb at 1. rewrite bool_decide_eq_false_2 by done.
  assert (isHttpUrl e url = false) as ->; [|done].
  unfold isHttpUrl, str_eqb. destruct H as [-> |(parsed & -> & H1 & H2)]; [done|].
  by rewrite !bool_decide_eq_false_2.
Qed.

Lemma non_http_url_rejected_witness :
  import_url (example_env None FetchAborted) ∅
    (example_request "file:///etc/passwd" "")
  = send 400 [] (Text (str "URL must be http or https")) ∅ [].
Proof.
  apply (non_http_url_rejected (example_env None FetchAborted) ∅
           (example_request "file:///etc/passwd" "") (str "file:///etc/passwd")).
  - reflexivity.
  - discriminate.
  - left. reflexivity.
Defined.

Lemma blocked_false isIP ips :
  blocked isIP ips = false ->
  Forall (fun ip => isPrivateIp isIP ip = false) ips.
Proof.
  induction ips as [|ip ips IH]; simpl; [constructor|].
  destruct (isPrivateIp isIP ip) eqn:E; [done|]. intros H. by constructor; [|apply IH].
Qed.

(** The stages of the import, read backwards from its trace and status. *)
Lemma import_url_cases e fs req :
  let r := import_url e fs req in
  (store r = fs /\ fs_events (trace r) = [] /\ status (response r) <> 201
   /\ forall u, EvFetch u ∉ trace r)
  \/ exists url parsed,
       reaches_lookup e req url parsed
       /\ hostnameToIPs e (hostname parsed) <> []
       /\ blocked (net_isIP e) (hostnameToIPs e (hostname parsed)) = false
       /\ ((store r = fs /\ fs_events (trace r) = []
            /\ status (response r) <> 201
            /\ (trace r = [EvDnsLookup (hostname parsed); EvFetch url]
                \/ trace r = [EvDnsLookup (hostname parsed); EvFetch url;
                              EvLogError]))
           \/ exists code text clean,
                fetch e url = FetchResponse true code text
                /\ byteLength text <= maxBytes
                /\ sanitizeSvg text = Return clean
                /\ test true re_svg clean = true
                /\ ((exists kept err,
                       writeFileSync e (tmp_path e) clean
                       = WriteThrows kept err
                       /\ r = send 500 []
                                (Text (str "Failed to fetch URL: " ++ err))
                                (match kept with
                                 | Some d => <[tmp_path e := d]> fs
                                 | None => fs
                                 end)
                                [EvDnsLookup (hostname parsed); EvFetch url;
                                 EvWriteFile (tmp_path e) clean 384;
                                 EvLogError])
                    \/ (exists err,
                          writeFileSync e (tmp_path e) clean = WriteDone
                          /\ renameSync e (tmp_path e) (final_path e)
                             = Some err
                          /\ r = send 500 []
                                   (Text (str "Failed to fetch URL: " ++ err))
                                   (<[tmp_path e := clean]> fs)
                                   [EvDnsLookup (hostname parsed); EvFetch url;
                                    EvWriteFile (tmp_path e) clean 384;
                                    EvRename (tmp_path e) (final_path e);
                                    EvLogError])
                    \/ (writeFileSync e (tmp_path e) clean = WriteDone
                        /\ renameSync e (tmp_path e) (final_path e) = None
                        /\ r = send 201 []
                                 (Json (str "Imported")
                                    (uuidv4 e ++ str ".svg"))
                                 (<[final_path e := clean]>
                                    (delete (tmp_path e)
                                       (<[tmp_path e := clean]> fs)))
                                 [EvDnsLookup (hostname parsed); EvFetch url;
                                  EvWriteFile (tmp_path e) clean 384;
                                  EvRename (tmp_path e) (final_path e)]))).
Proof.
  intros r. subst r. unfold import_url.
  set (url := trim (default [] (body_url req))).
  assert (forall (h : list N) u, EvFetch u ∉ [EvDnsLookup h]) as Hdns.
  { intros h u Hin. inversion Hin as [|? ? ? Hin']. inversion Hin'. }
  assert (forall u, EvFetch u ∉ @nil event) as Hnil.
  { intros u Hin. inversion Hin. }
  destruct (str_eqb url []) eqn:Eempty;
    [left; repeat (split; [done|]); apply Hnil|].
  destruct (isHttpUrl e url) eqn:Ehttp; cbn [negb];
    [|left; repeat (split; [done|]); apply Hnil].
  destruct (parseURL e url) as [parsed|] eqn:Eparse;
    [|left; repeat (split; [done|]); apply Hnil].
  destruct (Nat.eqb (length (hostnameToIPs e (hostname parsed))) 0) eqn:Elen;
    [left; repeat (split; [done|]); apply Hdns|].
  destruct (blocked (net_isIP e) (hostnameToIPs e (hostname parsed))) eqn:Eb;
    [left; repeat (split; [done|]); apply Hdns|].
  right. exists url, parsed.
  assert (url <> []) as Hne.
  { unfold str_eqb in Eempty. by apply bool_decide_eq_false in Eempty. }
  split; [by unfold reaches_lookup|].
  split; [intros E; by rewrite E in Elen|].
  split; [done|].
  destruct (fetch e url) as [|err|ok code text] eqn:Ef.
  - left. split; [done|]. split; [done|]. split; [done|]. by left.
  - left. split; [done|]. split; [done|]. split; [done|]. by right.
  - destruct ok; cbn [negb].
    2:{ left. split; [done|]. split; [done|]. split; [done|]. by left. }
    destruct (maxBytes <? byteLength text) eqn:Es.
    { left. split; [done|]. split; [done|]. split; [done|]. by left. }
    destruct (sanitizeSvg text) as [clean|msg] eqn:Esan.
    2:{ left. split; [done|]. split; [done|]. split; [done|]. by left. }
    destruct (test true re_svg clean) eqn:Eg; cbn [negb].
    2:{ left. split; [done|]. split; [done|]. split; [done|]. by left. }
    right. exists code, text, clean. apply N.ltb_ge in Es.
    do 4 (split; [done|]).
    change (path_join (UPLOAD_DIR e) (uuidv4 e ++ str ".svg"))
      with (final_path e).
    change (final_path e ++ str ".tmp") with (tmp_path e).
    destruct (writeFileSync e (tmp_path e) clean) as [|kept err] eqn:Ew.
    + destruct (renameSync e (tmp_path e) (final_path e)) as [err|] eqn:Er.
      * right. left. by exists err.
      * right. right. done.
    + left. by exists kept, err.
Qed.

Lemma tmp_path_ne e : tmp_path e <> final_path e.
Proof.
  unfold tmp_path. intros E. apply (f_equal length) in E.
  rewrite length_app in E. simpl in E. lia.
Qed.

(** The store after a successful import. *)
Lemma imported_store (e : Env) (fs : FS) (clean : list N) :
  let fs' := <[final_path e := clean]>
               (delete (tmp_path e) (<[tmp_path e := clean]> fs)) in
  fs' !! final_path e = Some clean
  /\ fs' !! tmp_path e = None
  /\ forall p, p <> final_path e -> p <> tmp_path e -> fs' !! p = fs !! p.
Proof.
  intros fs'. subst fs'. pose proof (tmp_path_ne e) as Hne.
  split; [by rewrite lookup_insert_eq|]. split.
  - rewrite lookup_insert_ne by done. by rewrite lookup_delete_eq.
  - intros p H1 H2. rewrite lookup_insert_ne by done.
    rewrite lookup_delete_ne by done. by rewrite lookup_insert_ne.
Qed.

(** The import fetches only what passed the address check: a fetch in the
    trace is a fetch of the trimmed url of the request, that url parsed as
    http or https, its host resolved to at least one address, and no
    resolved address was classified private. *)
Theorem fetch_only_after_admission e fs req u :
  EvFetch u ∈ trace (import_url e fs req) ->
  exists parsed,
    reaches_lookup e req u parsed
    /\ hostnameToIPs e (hostname parsed) <> []
    /\ Forall (fun ip => isPrivateIp (net_isIP e) ip = false)
         (hostnameToIPs e (hostname parsed)).
Proof.
  intros Hin.
  destruct (import_url_cases e fs req)
    as [(_ & _ & _ & Hno)|(url & parsed & Hr & Hne & Hb & Hcases)].
  { by apply Hno in Hin. }
  assert (u = url) as ->.
  { destruct Hcases
      as [(_ & _ & _ & [Ht|Ht])
         |(c & t & cl & _ & _ & _ & _
           & [(k & er & _ & Ht)|[(er & _ & _ & Ht)|(_ & _ & Ht)]])];
      rewrite Ht in Hin; cbn [trace send] in Hin;
      repeat match goal with
             | H : _ ∈ _ :: _ |- _ => inversion H; subst; clear H
             | H : _ ∈ [] |- _ => inversion H
             end; done. }
  exists parsed. split; [done|]. split; [done|]. by apply blocked_false.
Qed.

Lemma fetch_only_after_admission_witness :
  exists parsed,
    reaches_lookup (example_env (Some [str "93.184.216.34"]) FetchAborted)
      (example_request " http://assets.example/a.svg" "")
      (str "http://assets.example/a.svg") parsed
    /\ hostnameToIPs (example_env (Some [str "93.184.216.34"]) FetchAborted)
         (hostname parsed) <> []
    /\ Forall (fun ip => isPrivateIp node_isIP ip = false)
         (hostnameToIPs (example_env (Some [str "93.184.216.34"]) FetchAborted)
            (hostname parsed)).
Proof.
  apply (fetch_only_after_admission
           (example_env (Some [str "93.184.216.34"]) FetchAborted) ∅
           (example_request " http://assets.example/a.svg" "")
           (str "http://assets.example/a.svg")).
  vm_compute. right. left.
Defined.

(** Unless the import answers 201, every file other than the temporary
    file of the request is as it was; and unless it answers 500, the store
    is as it was and no file was touched at all. *)
Theorem failed_import_keeps_store e fs req :
  status (response (import_url e fs req)) <> 201 ->
  (forall p, p <> tmp_path e -> store (import_url e fs req) !! p = fs !! p)
  /\ (status (response (import_url e fs req)) <> 500 ->
      store (import_url e fs req) = fs
      /\ fs_events (trace (import_url e fs req)) = []).
Proof.
  intros Hs.
  destruct (import_url_cases e fs req)
    as [(H1 & H2 & _)
       |(url & parsed & _ & _ & _
         & [(H1 & H2 & _)
           |(c & t & cl & _ & _ & _ & _
             & [(k & er & _ & Hr)|[(er & _ & _ & Hr)|(_ & _ & Hr)]])])].
  - by rewrite H1.
  - by rewrite H1.
  - rewrite Hr. cbn [store response status send]. split; [|done].
    intros p Hp. destruct k as [d|]; [|done]. by rewrite lookup_insert_ne.
  - rewrite Hr. cbn [store response status send]. split; [|done].
    intros p Hp. by rewrite lookup_insert_ne.
  - by rewrite Hr in Hs.
Qed.

Lemma failed_import_keeps_store_witness :
  let e := faulty_env (Some [str "93.184.216.34"])
             (FetchResponse true 200 (str "<svg><rect/></svg>")) in
  let r := import_url e ∅ (example_request "http://assets.example/a.svg" "") in
  (forall p, p <> tmp_path e -> store r !! p = (∅ : FS) !! p)
  /\ (status (response r) <> 500 ->
      store r = ∅ /\ fs_events (trace r) = []).
Proof.
  apply (failed_import_keeps_store
           (faulty_env (Some [str "93.184.216.34"])
              (FetchResponse true 200 (str "<svg><rect/></svg>")))
           ∅ (example_request "http://assets.example/a.svg" "")).
  vm_compute. discriminate.
Defined.

(** A 201 means that every gate was passed: the fetched text is within the
    size limit, the stored text is what [sanitizeSvg] returned for it and
    has an [svg] opening tag; it is stored at the final path, the temporary
    path holds no file, and every other file is as before. *)
Theorem successful_import_gates e fs req :
  status (response (import_url e fs req)) = 201 ->
  exists url code text clean,
    fetch e url = FetchResponse true code text
    /\ byteLength text <= maxBytes
    /\ sanitizeSvg text = Return clean
    /\ test true re_svg clean = true
    /\ body (response (import_url e fs req))
       = Json (str "Imported") (uuidv4 e ++ str ".svg")
    /\ store (import_url e fs req) !! final_path e = Some clean
    /\ store (import_url e fs req) !! tmp_path e = None
    /\ forall p, p <> final_path e -> p <> tmp_path e ->
                 store (import_url e fs req) !! p = fs !! p.
Proof.
  intros Hs.
  destruct (import_url_cases e fs req)
    as [(_ & _ & H & _)|(url & parsed & _ & _ & _ & [(_ & _ & H & _)|Hok])];
    [done..|].
  destruct Hok as (code & text & clean & Hf & Hsz & Hsan & Hg
                   & [(k & er & _ & Hr)|[(er & _ & _ & Hr)|(_ & _ & Hr)]]);
    [by rewrite Hr in Hs..|].
  exists url, code, text, clean. rewrite Hr. cbn [store response body send].
  destruct (imported_store e fs clean) as (H1 & H2 & H3). done.
Qed.

Lemma successful_import_gates_witness :
  let e := example_env (Some [str "93.184.216.34"])
             (FetchResponse true 200 (str "<svg onload=x()><rect/></svg>")) in
  let r := import_url e ∅ (example_request "http://assets.example/a.svg" "") in
  exists url code text clean,
    fetch e url = FetchResponse true code text
    /\ byteLength text <= maxBytes
    /\ sanitizeSvg text = Return clean
    /\ test true re_svg clean = true
    /\ body (response r) = Json (str "Imported") (uuidv4 e ++ str ".svg")
    /\ store r !! final_path e = Some clean
    /\ store r !! tmp_path e = None
    /\ forall p, p <> final_path e -> p <> tmp_path e ->
                 store r !! p = (∅ : FS) !! p.
Proof.
  apply (successful_import_gates
           (example_env (Some [str "93.184.216.34"])
              (FetchResponse true 200 (str "<svg onload=x()><rect/></svg>")))
           ∅ (example_request "http://assets.example/a.svg" "")).
  vm_compute. reflexivity.
Defined.

(** ** The title of the preview *)

Lemma replace_char c rep s :
  forall bef,
    replace_from false (RChar c) rep bef s 0
    = flat_map (fun x => if x =? c then rep else [x]) s.
Proof.
  induction s as [|x s IH]; intros bef.
  - reflexivity.
  - cbn [replace_from flat_map]. unfold match_here. cbn [rmatch after canonicalize].
    destruct (x =? c).
    + cbn [after step1 length]. rewrite Nat.sub_succ_l, Nat.sub_diag by lia.
      by rewrite IH.
    + by rewrite IH.
Qed.

Lemma flat_map_flat_map {A B C} (f : A -> list B) (g : B -> list C) l :
  flat_map g (flat_map f l) = flat_map (fun x => flat_map g (f x)) l.
Proof.
  induction l as [|x l IH]; simpl; [done|]. by rewrite flat_map_app, IH.
Qed.

Lemma flat_map_pointwise {A B} (f g : A -> list B) l :
  (forall x, f x = g x) -> flat_map f l = flat_map g l.
Proof. intros H. induction l as [|x l IH]; simpl; [done|]. by rewrite H, IH. Qed.

Lemma safeTitle_units name : safeTitle name = flat_map escape_unit name.
Proof.
  unfold safeTitle, replace_all. rewrite !replace_char, flat_map_flat_map.
  apply flat_map_pointwise. intros x. unfold escape_unit.
  destruct (x =? chr "<") eqn:E1; [reflexivity|].
  simpl. rewrite app_nil_r. by destruct (x =? chr ">").
Qed.

(** The title put into the preview page is the name with every [<] turned
    into [&lt;] and every [>] into [&gt;], all other units kept: no angle
    bracket is left in it. *)
Theorem safeTitle_escapes name :
  safeTitle name = flat_map escape_unit name
  /\ (chr "<" ∉ safeTitle name) /\ (chr ">" ∉ safeTitle name).
Proof.
  split; [apply safeTitle_units|]. rewrite safeTitle_units.
  assert (forall c, c = chr "<" \/ c = chr ">" ->
            c ∉ flat_map escape_unit name) as H.
  { intros c Hc Hin. apply list_elem_of_In in Hin.
    destruct (proj1 (in_flat_map _ _ _) Hin) as (x & _ & Hx).
    unfold escape_unit in Hx.
    destruct (x =? chr "<") eqn:E1;
      [destruct Hc as [-> | ->]; simpl in Hx; intuition discriminate|].
    destruct (x =? chr ">") eqn:E2;
      [destruct Hc as [-> | ->]; simpl in Hx; intuition discriminate|].
    apply N.eqb_neq in E1, E2. destruct Hx as [Hx|[]]. subst x.
    by destruct Hc. }
  split; apply H; auto.
Qed.

(** The units of a name of the grammar. *)
Lemma grammar_no_bracket name c :
  upload_name_grammar name = true -> c ∈ name ->
  c <> chr "<" /\ c <> chr ">".
Proof.
  intros Hg Hin. apply list_elem_of_lookup in Hin as [i Hi].
  destruct (grammar_units name i c Hg Hi) as [[_ Hh]|(c' & Hc' & _ & Hu)].
  - split; intros ->; done.
  - destruct (i - 36)%nat as [|[|[|[|n]]]]; simpl in Hc'; try done;
      injection Hc' as <-; split; intros ->; done.
Qed.

Lemma escape_valid_name name :
  isValidUploadName name = true -> safeTitle name = name.
Proof.
  rewrite isValidUploadName_grammar. intros Hg. rewrite safeTitle_units.
  assert (forall c, c ∈ name -> escape_unit c = [c]) as H.
  { intros c Hc. destruct (grammar_no_bracket name c Hg Hc) as [H1 H2].
    unfold escape_unit.
    by rewrite (proj2 (N.eqb_neq _ _) H1), (proj2 (N.eqb_neq _ _) H2). }
  clear Hg. induction name as [|x name IH]; simpl; [done|].
  rewrite (H x) by left. simpl. f_equal. apply IH.
  intros c Hc. apply H. by right.
Qed.

(** ** The read endpoints and the store *)

(** Neither read endpoint changes the store, and the only path either one
    probes, reads or sends is that of the requested name in the upload
    directory, after the name passed the validation. *)
Theorem read_endpoints_confined e fs req ev :
  store (get_upload e fs req) = fs
  /\ store (view e fs req) = fs
  /\ (ev ∈ trace (get_upload e fs req) ++ trace (view e fs req) ->
      is_read_event ev = true
      /\ event_path ev = Some (path_join (UPLOAD_DIR e) (params_name req))
      /\ isValidUploadName (params_name req) = true).
Proof.
  unfold get_upload, view.
  destruct (isValidUploadName (params_name req)) eqn:Ev; simpl.
  - destruct (fs !! path_join (UPLOAD_DIR e) (params_name req)); simpl;
      (split; [done|]); (split; [done|]); intros Hin;
      repeat match goal with
             | H : _ ∈ _ :: _ |- _ => inversion H; subst; clear H
             | H : _ ∈ [] |- _ => inversion H
             end; done.
  - split; [done|]. split; [done|]. intros Hin. inversion Hin.
Qed.

Lemma read_endpoints_confined_witness :
  let e := example_env None (FetchResponse true 200 []) in
  let name := str "123e4567-e89b-42d3-a456-426614174000.svg" in
  let ev := EvReadFile (path_join (UPLOAD_DIR e) name) in
  is_read_event ev = true
  /\ event_path ev = Some (path_join (UPLOAD_DIR e) name)
  /\ isValidUploadName name = true.
Proof.
  apply (proj2 (proj2 (read_endpoints_confined
           (example_env None (FetchResponse true 200 []))
           {[ path_join (str "/srv/app/uploads")
                (str "123e4567-e89b-42d3-a456-426614174000.svg")
              := str "<svg/>" ]}
           (read_request (str "123e4567-e89b-42d3-a456-426614174000.svg") [])
           (EvReadFile
              (path_join (str "/srv/app/uploads")
                 (str "123e4567-e89b-42d3-a456-426614174000.svg")))))).
  unfold get_upload, view, read_request. cbn [params_name UPLOAD_DIR example_env].
  replace (isValidUploadName _) with true by (vm_compute; reflexivity).
  cbn [negb]. rewrite lookup_singleton_eq. cbn [trace send].
  apply elem_of_app. right. apply list_elem_of_further, list_elem_of_here.
Defined.

(** What comes back for the name that a successful import returned:
    the raw endpoint sends the sanitized text under the SVG content type,
    and the preview shows that text in its page, titled with the name. *)
Theorem import_then_read e fs req hs :
  status (response (import_url e fs req)) = 201 ->
  uuid_ok e ->
  exists url code text clean,
    fetch e url = FetchResponse true code text
    /\ sanitizeSvg text = Return clean
    /\ body (response (import_url e fs req))
       = Json (str "Imported") (uuidv4 e ++ str ".svg")
    /\ response (get_upload e (store (import_url e fs req))
                   (read_request (uuidv4 e ++ str ".svg") hs))
       = {| status := 200;
            headers := [(str "Content-Type",
                         str "image/svg+xml; charset=utf-8")];
            body := File clean |}
    /\ response (view e (store (import_url e fs req))
                   (read_request (uuidv4 e ++ str ".svg") hs))
       = {| status := 200;
            headers := [(str "Content-Security-Policy",
                         content_security_policy);
                        (str "X-Content-Type-Options", str "nosniff")];
            body := Text (preview_page (uuidv4 e ++ str ".svg") clean) |}.
Proof.
  intros Hs Hu.
  destruct (import_url_cases e fs req)
    as [(_ & _ & H & _)|(url & parsed & _ & _ & _ & [(_ & _ & H & _)|Hok])];
    [done..|].
  destruct Hok as (code & text & clean & Hf & _ & Hsan & _
                   & [(k & er & _ & Hr)|[(er & _ & _ & Hr)|(_ & _ & Hr)]]);
    [by rewrite Hr in Hs..|].
  exists url, code, text, clean. rewrite Hr. cbn [store response body send].
  destruct (imported_store e fs clean) as (H1 & _ & _).
  split; [done|]. split; [done|]. split; [done|].
  unfold get_upload, view, read_request. cbn [params_name].
  unfold uuid_ok in Hu. rewrite Hu. cbn [negb].
  change (path_join (UPLOAD_DIR e) (uuidv4 e ++ str ".svg"))
    with (final_path e).
  rewrite H1. cbn [response send].
  fold (safeTitle (uuidv4 e ++ str ".svg")).
  by rewrite (escape_valid_name _ Hu).
Qed.

Lemma import_then_read_witness :
  let e := example_env (Some [str "93.184.216.34"])
             (FetchResponse true 200 (str "<svg onload=x()><rect/></svg>")) in
  let r := import_url e ∅ (example_request "http://assets.example/a.svg" "") in
  exists url code text clean,
    fetch e url = FetchResponse true code text
    /\ sanitizeSvg text = Return clean
    /\ body (response r) = Json (str "Imported") (uuidv4 e ++ str ".svg")
    /\ response (get_upload e (store r)
                   (read_request (uuidv4 e ++ str ".svg") []))
       = {| status := 200;
            headers := [(str "Content-Type",
                         str "image/svg+xml; charset=utf-8")];
            body := File clean |}
    /\ response (view e (store r) (read_request (uuidv4 e ++ str ".svg") []))
       = {| status := 200;
            headers := [(str "Content-Security-Policy",
                         content_security_policy);
                        (str "X-Content-Type-Options", str "nosniff")];
            body := Text (preview_page (uuidv4 e ++ str ".svg") clean) |}.
Proof.
  apply (import_then_read
           (example_env (Some [str "93.184.216.34"])
              (FetchResponse true 200 (str "<svg onload=x()><rect/></svg>")))
           ∅ (example_request "http://assets.example/a.svg" "") []).
  - vm_compute. reflexivity.
  - vm_compute. reflexivity.
Defined.

Lemma get_upload_store e fs req : store (get_upload e fs req) = fs.
Proof.
  unfold get_upload. destruct (negb _); [done|]. by destruct (fs !! _).
Qed.

Lemma view_store e fs req : store (view e fs req) = fs.
Proof. unfold view. destruct (negb _); [done|]. by destruct (fs !! _). Qed.

Lemma tmp_path_join e :
  tmp_path e
  = path_join (UPLOAD_DIR e) ((uuidv4 e ++ str ".svg") ++ str ".tmp").
Proof. unfold tmp_path, final_path, path_join. by rewrite <- !app_assoc. Qed.

Lemma store_ok_tmp dir e fs d :
  UPLOAD_DIR e = dir -> uuid_ok e -> store_ok dir fs ->
  store_ok dir (<[tmp_path e := d]> fs).
Proof.
  intros Hdir Hu Hfs p c Hp.
  destruct (decide (p = tmp_path e)) as [-> |Hn].
  - exists (uuidv4 e ++ str ".svg"). split; [exact Hu|]. right.
    by rewrite tmp_path_join, Hdir.
  - rewrite lookup_insert_ne in Hp by done. by apply Hfs.
Qed.

Lemma handle_store_ok dir c fs :
  call_ok dir c -> store_ok dir fs -> store_ok dir (store (handle c fs)).
Proof.
  intros [Hdir Hc] Hfs. destruct c as [e req|e req|e req]; simpl in *.
  - destruct (import_url_cases e fs req)
      as [(H1 & _)
         |(url & parsed & _ & _ & _
           & [(H1 & _)
             |(code & text & clean & _ & _ & Hsan & Hg
               & [(k & er & _ & Hr)|[(er & _ & _ & Hr)|(_ & _ & Hr)]])])];
      [by rewrite H1..| | |].
    + rewrite Hr. cbn [store send]. destruct k as [d|]; [|done].
      by apply store_ok_tmp.
    + rewrite Hr. cbn [store send]. by apply store_ok_tmp.
    + rewrite Hr. cbn [store send].
      destruct (imported_store e fs clean) as (H1 & H2 & H3).
      intros p c Hp.
      destruct (decide (p = final_path e)) as [-> |Hn1].
      * rewrite H1 in Hp. injection Hp as <-.
        exists (uuidv4 e ++ str ".svg"). split; [exact Hc|]. left.
        split; [|by exists text]. unfold final_path. by rewrite Hdir.
      * destruct (decide (p = tmp_path e)) as [-> |Hn2];
          [by rewrite H2 in Hp|].
        rewrite H3 in Hp by done. by apply Hfs.
  - by rewrite get_upload_store.
  - by rewrite view_store.
Qed.

Lemma run_preserves_store_ok dir cs :
  Forall (call_ok dir) cs ->
  forall fs, store_ok dir fs -> store_ok dir (run cs fs).
Proof.
  unfold run. induction 1 as [|c cs Hc _ IH]; intros fs Hfs; simpl; [done|].
  apply IH. by apply handle_store_ok.
Qed.

(** No path of a name of the grammar is the path of a name ending in
    [.tmp]. *)
Lemma valid_path_not_tmp dir name f :
  isValidUploadName name = true ->
  path_join dir name <> path_join dir (f ++ str ".tmp").
Proof.
  intros Hv Hp. unfold path_join in Hp. do 2 apply app_inv_head in Hp.
  subst name. by rewrite isValidUploadName_grammar, grammar_no_tmp in Hv.
Qed.

(** With a working disk an import leaves no temporary file. *)
Lemma handle_no_tmp dir c fs :
  call_ok dir c -> call_disk_works c ->
  (forall f, fs !! path_join dir (f ++ str ".tmp") = None) ->
  forall f, store (handle c fs) !! path_join dir (f ++ str ".tmp") = None.
Proof.
  intros [Hdir Hc] Hd Hfs f.
  destruct c as [e req|e req|e req];
    cbn [handle call_env call_disk_works] in *.
  - destruct Hd as [Hw Hren].
    destruct (import_url_cases e fs req)
      as [(H1 & _)
         |(url & parsed & _ & _ & _
           & [(H1 & _)
             |(code & text & clean & _ & _ & _ & _
               & [(k & er & Hk & _)|[(er & _ & Hk & _)|(_ & _ & Hr)]])])];
      [by rewrite H1..| | |].
    + by rewrite Hw in Hk.
    + by rewrite Hren in Hk.
    + rewrite Hr. cbn [store send].
      destruct (imported_store e fs clean) as (_ & H2 & H3).
      destruct (decide (path_join dir (f ++ str ".tmp") = tmp_path e))
        as [E|Hn]; [by rewrite E|].
      rewrite H3; [done| |done]. unfold final_path. rewrite Hdir.
      intros E. symmetry in E. by apply valid_path_not_tmp in E.
  - by rewrite get_upload_store.
  - by rewrite view_store.
Qed.

(** Whatever requests were served, every file of the store lies in the
    upload directory under a name of the grammar, and then is a text that
    [sanitizeSvg] returned and that has an [svg] opening tag, or under
    such a name with [.tmp] appended, left by a failed write or rename;
    when the disk worked for every import, no temporary file is left. *)
Theorem run_store_ok dir cs fs :
  Forall (call_ok dir) cs -> store_ok dir fs ->
  store_ok dir (run cs fs)
  /\ (Forall call_disk_works cs ->
      (forall f, fs !! path_join dir (f ++ str ".tmp") = None) ->
      forall f, run cs fs !! path_join dir (f ++ str ".tmp") = None).
Proof.
  intros Hcs Hfs. split; [by apply run_preserves_store_ok|].
  clear Hfs. revert fs. unfold run.
  induction Hcs as [|c cs Hc _ IH]; intros fs Hd Hfs; simpl; [done|].
  inversion Hd as [|? ? Hd1 Hd2]; subst.
  apply IH; [done|]. by apply handle_no_tmp.
Qed.

Lemma run_store_ok_witness :
  let e := example_env (Some [str "93.184.216.34"])
             (FetchResponse true 200 (str "<svg onload=x()><rect/></svg>")) in
  let cs := [PostImport e (example_request "http://assets.example/a.svg" "");
             GetView e (example_request "" "../secret")] in
  store_ok (str "/srv/app/uploads") (run cs ∅)
  /\ forall f,
       run cs ∅ !! path_join (str "/srv/app/uploads") (f ++ str ".tmp")
       = None.
Proof.
  destruct (run_store_ok (str "/srv/app/uploads")
              [PostImport
                 (example_env (Some [str "93.184.216.34"])
                    (FetchResponse true 200
                       (str "<svg onload=x()><rect/></svg>")))
                 (example_request "http://assets.example/a.svg" "");
               GetView
                 (example_env (Some [str "93.184.216.34"])
                    (FetchResponse true 200
                       (str "<svg onload=x()><rect/></svg>")))
                 (example_request "" "../secret")] ∅) as [H1 H2].
  - constructor; [split; [reflexivity|vm_compute; reflexivity]|].
    constructor; [split; [reflexivity|exact I]|constructor].
  - intros p c Hp. rewrite lookup_empty in Hp. discriminate.
  - split; [exact H1|]. apply H2.
    + constructor; [split; [intros data; reflexivity|reflexivity]|].
      constructor; [exact I|constructor].
    + intros f. apply lookup_empty.
Defined.

(** On a disk where the rename fails, the import answers 500 and the
    temporary file stays; the final file is not created. *)
Example failed_rename_leaves_tmp :
  let e := faulty_env (Some [str "93.184.216.34"])
             (FetchResponse true 200 (str "<svg><rect/></svg>")) in
  let r := import_url e ∅ (example_request "http://assets.example/a.svg" "") in
  status (response r) = 500
  /\ store r !! tmp_path e = Some (str "<svg><rect/></svg>")
  /\ store r !! final_path e = None.
Proof. vm_compute. done. Qed.


(** Starting from an empty store, whatever the raw endpoint sends and
    whatever the preview embeds is a sanitized text. *)
Theorem served_is_sanitized dir cs e req :
  Forall (call_ok dir) cs -> UPLOAD_DIR e = dir ->
  (forall c, body (response (get_upload e (run cs ∅) req)) = File c ->
             sanitized c)
  /\ (status (response (view e (run cs ∅) req)) = 200 ->
      exists c, sanitized c
        /\ body (response (view e (run cs ∅) req))
           = Text (preview_page (params_name req) c)).
Proof.
  intros Hcs Hdir.
  assert (store_ok dir (run cs ∅)) as Hok.
  { apply run_preserves_store_ok; [done|].
    intros p c Hp. by rewrite lookup_empty in Hp. }
  unfold get_upload, view.
  destruct (isValidUploadName (params_name req)) eqn:Ev; cbn [negb]; [|done].
  destruct (run cs ∅ !! path_join (UPLOAD_DIR e) (params_name req))
    as [c|] eqn:Ef; cbn [response send body status]; [|done].
  assert (sanitized c) as Hsan.
  { destruct (Hok _ _ Ef) as (name & Hv & [[_ Hc]|Hp]); [done|].
    rewrite Hdir in Hp. by apply valid_path_not_tmp in Hp. }
  split.
  - by intros c' [= <-].
  - intros _. exists c. split; [done|].
    change (replace_all false (RChar (chr ">")) (str "&gt;")
              (replace_all false (RChar (chr "<")) (str "&lt;")
                 (params_name req)))
      with (safeTitle (params_name req)).
    by rewrite escape_valid_name.
Qed.

Lemma served_is_sanitized_witness :
  let e := example_env (Some [str "93.184.216.34"])
             (FetchResponse true 200 (str "<svg onload=x()><rect/></svg>")) in
  let cs := [PostImport e (example_request "http://assets.example/a.svg" "")] in
  let req := example_request "" "123e4567-e89b-42d3-a456-426614174000.svg" in
  (forall c, body (response (get_upload e (run cs ∅) req)) = File c ->
             sanitized c)
  /\ (status (response (view e (run cs ∅) req)) = 200 ->
      exists c, sanitized c
        /\ body (response (view e (run cs ∅) req))
           = Text (preview_page (params_name req) c)).
Proof.
  apply (served_is_sanitized (str "/srv/app/uploads")
           [PostImport
              (example_env (Some [str "93.184.216.34"])
                 (FetchResponse true 200 (str "<svg onload=x()><rect/></svg>")))
              (example_request "http://assets.example/a.svg" "")]
           (example_env (Some [str "93.184.216.34"])
              (FetchResponse true 200 (str "<svg onload=x()><rect/></svg>")))
           (example_request "" "123e4567-e89b-42d3-a456-426614174000.svg")).
  - constructor; [split; [reflexivity|vm_compute; reflexivity]|constructor].
  - reflexivity.
Defined.

(** A document that no pattern of the sanitizer matches and that has an
    [svg] opening tag is stored as it was fetched where the write and the
    rename succeed, and the raw endpoint sends back exactly the fetched
    text. *)
Theorem benign_document_round_trip e fs req url parsed code text hs :
  reaches_lookup e req url parsed ->
  hostnameToIPs e (hostname parsed) <> [] ->
  blocked (net_isIP e) (hostnameToIPs e (hostname parsed)) = false ->
  fetch e url = FetchResponse true code text ->
  byteLength text <= maxBytes ->
  rejected_by_pattern text = false ->
  no_removal_matches text = true ->
  test true re_svg text = true ->
  uuid_ok e ->
  disk_works e ->
  status (response (import_url e fs req)) = 201
  /\ store (import_url e fs req) !! final_path e = Some text
  /\ body (response (get_upload e (store (import_url e fs req))
                       (read_request (uuidv4 e ++ str ".svg") hs)))
     = File text.
Proof.
  intros Ha Hne Hb Hf Hsz Hrej Hnm Hg Hu [Hw Hren].
  assert (sanitizeSvg text = Return text) as Hsan.
  { rewrite sanitizeSvg_eq, Hrej. f_equal.
    by apply (passes_fixed removal_patterns removal_patterns_consume). }
  rewrite (import_url_reaches_lookup e fs req url parsed Ha). cbv zeta.
  rewrite Hb, Hf, Hsan, Hg.
  destruct (hostnameToIPs e (hostname parsed)); [done|].
  cbn [length Nat.eqb negb]. rewrite (proj2 (N.ltb_ge _ _) Hsz).
  change (path_join (UPLOAD_DIR e) (uuidv4 e ++ str ".svg"))
    with (final_path e).
  change (final_path e ++ str ".tmp") with (tmp_path e).
  rewrite Hw, Hren. cbn [response status store send].
  destruct (imported_store e fs text) as (H1 & _).
  split; [done|]. split; [exact H1|].
  unfold get_upload, read_request. cbn [params_name].
  unfold uuid_ok in Hu. rewrite Hu. cbn [negb].
  change (path_join (UPLOAD_DIR e) (uuidv4 e ++ str ".svg"))
    with (final_path e).
  by rewrite H1.
Qed.

Lemma benign_document_round_trip_witness :
  let e := example_env (Some [str "93.184.216.34"])
             (FetchResponse true 200
                (str "<svg viewBox='0 0 1 1'><rect width='1' height='1'/></svg>")) in
  let r := import_url e ∅ (example_request "http://assets.example/a.svg" "") in
  status (response r) = 201
  /\ store r !! final_path e
     = Some (str "<svg viewBox='0 0 1 1'><rect width='1' height='1'/></svg>")
  /\ body (response (get_upload e (store r)
                       (read_request (uuidv4 e ++ str ".svg") [])))
     = File (str "<svg viewBox='0 0 1 1'><rect width='1' height='1'/></svg>").
Proof.
  apply (benign_document_round_trip
           (example_env (Some [str "93.184.216.34"])
              (FetchResponse true 200
                 (str "<svg viewBox='0 0 1 1'><rect width='1' height='1'/></svg>")))
           ∅ (example_request "http://assets.example/a.svg" "")
           (str "http://assets.example/a.svg")
           {| protocol := str "http:"; hostname := str "assets.example" |}
           200).
  - split; [reflexivity|]. split; [discriminate|]. split; reflexivity.
  - discriminate.
  - vm_compute. reflexivity.
  - reflexivity.
  - vm_compute. discriminate.
  - vm_compute. reflexivity.
  - vm_compute. reflexivity.
  - vm_compute. reflexivity.
  - vm_compute. reflexivity.
  - split; [intros data; reflexivity|reflexivity].
Defined.

(** ** The size gate *)

Lemma byteLength_bounds_upto n :
  forall s, (length s <= n)%nat ->
    N.of_nat (length s) <= byteLength s <= 3 * N.of_nat (length s).
Proof.
  induction n as [|n IH]; intros s Hs.
  - destruct s; [simpl; lia|simpl in Hs; lia].
  - destruct s as [|c s]; [simpl; lia|].
    simpl in Hs. assert (length s <= n)%nat as Hs' by lia.
    pose proof (IH s Hs') as Hrec.
    cbn [byteLength length]. rewrite Nat2N.inj_succ.
    destruct (c <? 128); [lia|]. destruct (c <? 2048); [lia|].
    destruct (is_high_surrogate c); [|lia].
    destruct s as [|d s]; [simpl; lia|].
    destruct (is_low_surrogate d); [|lia].
    cbn [length] in *. rewrite Nat2N.inj_succ.
    assert (length s <= n)%nat as Hs'' by lia.
    pose proof (IH s Hs''). lia.
Qed.

(** The UTF-8 size of a text lies between one and three bytes per code
    unit, and is one byte per unit for an ASCII text. *)
Theorem byteLength_bounds s :
  N.of_nat (length s) <= byteLength s <= 3 * N.of_nat (length s)
  /\ (forallb (fun c => c <? 128) s = true ->
      byteLength s = N.of_nat (length s)).
Proof.
  split; [by apply (byteLength_bounds_upto (length s))|].
  induction s as [|c s IH]; [done|]. intros H.
  cbn [forallb] in H. apply andb_true_iff in H as [Hc Hs].
  cbn [byteLength length]. rewrite Hc, (IH Hs), Nat2N.inj_succ. lia.
Qed.

Lemma byteLength_bounds_witness :
  byteLength (str "<svg/>") = N.of_nat (length (str "<svg/>")).
Proof. apply (proj2 (byteLength_bounds (str "<svg/>"))). reflexivity. Defined.

(** A fetched text of more than 512000 code units is answered 413; the
    sanitizer is not run and nothing is stored. *)
Theorem oversized_rejected e fs req url parsed code text :
  reaches_lookup e req url parsed ->
  hostnameToIPs e (hostname parsed) <> [] ->
  blocked (net_isIP e) (hostnameToIPs e (hostname parsed)) = false ->
  fetch e url = FetchResponse true code text ->
  512000 < N.of_nat (length text) ->
  import_url e fs req
  = send 413 [] (Text (str "SVG too large")) fs
      [EvDnsLookup (hostname parsed); EvFetch url].
Proof.
  intros Ha Hne Hb Hf Hlen.
  rewrite (import_url_reaches_lookup e fs req url parsed Ha). cbv zeta.
  rewrite Hb, Hf.
  destruct (hostnameToIPs e (hostname parsed)); [done|].
  cbn [length Nat.eqb negb].
  pose proof (byteLength_bounds_upto (length text) text (le_n _)) as [Hlo _].
  assert ((maxBytes <? byteLength text) = true) as ->; [|done].
  apply N.ltb_lt. change maxBytes with 512000. lia.
Qed.

Lemma oversized_rejected_witness :
  import_url
    (example_env (Some [str "93.184.216.34"])
       (FetchResponse true 200 (repeat 32 (N.to_nat 512001))))
    ∅ (example_request "http://assets.example/a.svg" "")
  = send 413 [] (Text (str "SVG too large")) ∅
      [EvDnsLookup (str "assets.example");
       EvFetch (str "http://assets.example/a.svg")].
Proof.
  apply (oversized_rejected
           (example_env (Some [str "93.184.216.34"])
              (FetchResponse true 200 (repeat 32 (N.to_nat 512001))))
           ∅ (example_request "http://assets.example/a.svg" "")
           (str "http://assets.example/a.svg")
           {| protocol := str "http:"; hostname := str "assets.example" |}
           200 (repeat 32 (N.to_nat 512001))).
  - split; [reflexivity|]. split; [discriminate|]. split; reflexivity.
  - discriminate.
  - vm_compute. reflexivity.
  - reflexivity.
  - rewrite repeat_length, N2Nat.id. reflexivity.
Defined.

(** ** The classifier on dotted quads *)

(** On the text of a dotted quad, [isPrivateIp] is true exactly when the
    platform takes the text for an address and its first two octets lie in
    10/8, 127/8, 169.254/16, 172.16/12 or 192.168/16. *)
Theorem classifier_on_quads isIP a b c d :
  a < 256 -> b < 256 ->
  isPrivateIp isIP (dotted a b c d)
  = negb (isIP (dotted a b c d) =? 0) && in_private_ranges a b.
Proof.
  intros Ha Hb. destruct (isIP (dotted a b c d) =? 0) eqn:E.
  - apply N.eqb_eq in E. by rewrite not_ip_not_private.
  - apply N.eqb_neq in E. by rewrite isPrivateIp_dotted.
Qed.

Lemma classifier_on_quads_witness :
  isPrivateIp node_isIP (dotted 172 31 255 254)
  = negb (node_isIP (dotted 172 31 255 254) =? 0) && in_private_ranges 172 31.
Proof.
  apply (classifier_on_quads node_isIP 172 31 255 254); reflexivity.
Defined.

Lemma public_quad_not_private isIP ip :
  public_quad ip -> isPrivateIp isIP ip = false.
Proof.
  intros (a & b & c & d & Ha & Hb & _ & _ & -> & Hr).
  destruct (isIP (dotted a b c d) =? 0) eqn:E.
  - apply N.eqb_eq in E. by rewrite not_ip_not_private.
  - apply N.eqb_neq in E. by rewrite isPrivateIp_dotted.
Qed.

(** A host that resolves to public dotted quads only is not refused: the
    import goes on to fetch the url. *)
Theorem public_host_fetched e fs req url parsed :
  reaches_lookup e req url parsed ->
  hostnameToIPs e (hostname parsed) <> [] ->
  Forall public_quad (hostnameToIPs e (hostname parsed)) ->
  status (response (import_url e fs req)) <> 403
  /\ take 2 (trace (import_url e fs req))
     = [EvDnsLookup (hostname parsed); EvFetch url].
Proof.
  intros Ha Hne Hpub.
  rewrite (import_url_reaches_lookup e fs req url parsed Ha). cbv zeta.
  rewrite (blocked_none (net_isIP e) (hostnameToIPs e (hostname parsed))).
  2:{ eapply Forall_impl; [exact Hpub|]. intros ip. apply public_quad_not_private. }
  destruct (hostnameToIPs e (hostname parsed)); [done|].
  cbn [length Nat.eqb].
  destruct (fetch e url) as [|err|ok code text]; [done..|].
  destruct (negb ok); [done|].
  destruct (maxBytes <? byteLength text); [done|].
  destruct (sanitizeSvg text); [|done].
  destruct (negb (test true re_svg a)); [done|].
  destruct (writeFileSync e _ a); [|done].
  by destruct (renameSync e _ _).
Qed.

Lemma public_host_fetched_witness :
  let r := import_url
             (example_env (Some [str "93.184.216.34"; str "172.32.0.1"])
                FetchAborted)
             ∅ (example_request "http://assets.example/a.svg" "") in
  status (response r) <> 403
  /\ take 2 (trace r)
     = [EvDnsLookup (str "assets.example");
        EvFetch (str "http://assets.example/a.svg")].
Proof.
  apply (public_host_fetched
           (example_env (Some [str "93.184.216.34"; str "172.32.0.1"])
              FetchAborted)
           ∅ (example_request "http://assets.example/a.svg" "")
           (str "http://assets.example/a.svg")
           {| protocol := str "http:"; hostname := str "assets.example" |}).
  - split; [reflexivity|]. split; [discriminate|]. split; reflexivity.
  - discriminate.
  - constructor.
    + exists 93, 184, 216, 34. repeat (split; [reflexivity|]). reflexivity.
    + constructor; [|constructor].
      exists 172, 32, 0, 1. repeat (split; [reflexivity|]). reflexivity.
Defined.

(** ** What the patterns of the sanitizer accept, exactly *)

Lemma exec_some_inv ic r aft :
  forall bef y, exec ic r bef aft = Some y ->
  exists pre rest,
    aft = pre ++ rest /\ match_here ic r (rev pre ++ bef) rest = Some y.
Proof.
  induction aft as [|c aft IH]; intros bef y H; simpl in H.
  - destruct (match_here ic r bef []) eqn:E; [|done].
    injection H as ->. by exists [], [].
  - destruct (match_here ic r bef (c :: aft)) eqn:E.
    + injection H as ->. by exists [], (c :: aft).
    + apply IH in H as (pre & rest & -> & H). exists (c :: pre), rest.
      split; [done|]. simpl. by rewrite <- app_assoc.
Qed.

Lemma test_true_inv ic r t :
  test ic r t = true ->
  exists pre rest y, t = pre ++ rest /\ match_here ic r (rev pre) rest = Some y.
Proof.
  unfold test. destruct (exec ic r [] t) as [y|] eqn:E; [|done]. intros _.
  apply exec_some_inv in E as (pre & rest & -> & H).
  exists pre, rest, y. by rewrite app_nil_r in H.
Qed.

Lemma canon_prefix_inv ic s :
  forall l, canon_prefix ic s l = true ->
  exists s' rest, l = s' ++ rest /\ canon_eq ic s' s.
Proof.
  induction s as [|c s IH]; intros l H; simpl in H.
  - exists [], l. split; [done|constructor].
  - destruct l as [|a l]; [done|]. apply andb_true_iff in H as [Hac H].
    apply N.eqb_eq in Hac. apply IH in H as (s' & rest & -> & Hs).
    exists (a :: s'), rest. split; [done|]. by constructor.
Qed.

(** A literal at the head of a match was found in the text. *)
Lemma rmatch_lit_inv ic s k bef aft cs z :
  rmatch ic (lit s) k (MState bef aft cs) = Some z ->
  exists s' rest,
    aft = s' ++ rest /\ canon_eq ic s' s
    /\ k (MState (rev s' ++ bef) rest cs) = Some z.
Proof.
  rewrite rmatch_lit. cbn [after].
  destruct (canon_prefix ic s aft) eqn:E; [|done]. intros H.
  apply canon_prefix_inv in E as (s' & rest & -> & Hs).
  exists s', rest. split; [done|]. split; [done|].
  assert (length s = length s') as Hl by (symmetry; eapply Forall2_length, Hs).
  by rewrite Hl, stepn_app in H.
Qed.

(** A star over a class passed a run of members. *)
Lemma repeat_set_inv ic inv s greedy k fuel :
  forall bef aft cs z,
    repeat_matcher (rmatch ic (RSet inv s)) [] greedy k fuel 0 None
      (MState bef aft cs) = Some z ->
    exists w rest,
      aft = w ++ rest /\ Forall (fun a => in_set ic inv s a = true) w
      /\ k (MState (rev w ++ bef) rest cs) = Some z.
Proof.
  induction fuel as [|fuel IH]; intros bef aft cs z H; [done|].
  rewrite repeat_matcher_S in H. cbv zeta in H. cbn [Nat.eqb negb andb] in H.
  rewrite cap_clear_nil in H. cbn [before after caps] in H.
  assert (forall z',
    rmatch ic (RSet inv s)
      (fun y : mstate =>
         if Nat.eqb (length (after y)) (length aft) then None
         else repeat_matcher (rmatch ic (RSet inv s)) [] greedy k fuel
                (Nat.pred 0) (dec_max None) y)
      (MState bef aft cs) = Some z' ->
    exists w rest,
      aft = w ++ rest /\ Forall (fun a => in_set ic inv s a = true) w
      /\ k (MState (rev w ++ bef) rest cs) = Some z') as Hiter.
  { intros z' Hz. cbn [rmatch after] in Hz. destruct aft as [|a aft]; [done|].
    destruct (xorb inv (cset_match ic s a)) eqn:Ea; [|done].
    unfold step1 in Hz. cbn [before after caps] in Hz.
    destruct (Nat.eqb _ _); [done|].
    apply IH in Hz as (w & rest & -> & Hw & Hk).
    exists (a :: w), rest. split; [done|]. split; [by constructor|].
    simpl. by rewrite <- app_assoc. }
  assert (forall z', k (MState bef aft cs) = Some z' ->
    exists w rest,
      aft = w ++ rest /\ Forall (fun a => in_set ic inv s a = true) w
      /\ k (MState (rev w ++ bef) rest cs) = Some z') as Hk.
  { intros z' Hz. exists [], aft. split; [done|]. split; [constructor|done]. }
  destruct greedy; unfold orelse in H.
  - destruct (rmatch ic (RSet inv s) _ _) eqn:E;
      [injection H as ->; by apply Hiter|by apply Hk].
  - destruct (k (MState bef aft cs)) eqn:E;
      [injection H as ->; by apply Hk|by apply Hiter].
Qed.

Lemma rmatch_star_set_inv ic inv s k bef aft cs z :
  rmatch ic (star (RSet inv s)) k (MState bef aft cs) = Some z ->
  exists w rest,
    aft = w ++ rest /\ Forall (fun a => in_set ic inv s a = true) w
    /\ k (MState (rev w ++ bef) rest cs) = Some z.
Proof. unfold star. simpl. apply repeat_set_inv. Qed.

Lemma ws_in_set a : in_set true false CSpace a = is_space a.
Proof.
  destruct (N.lt_ge_cases a 128) as [Ha|Ha].
  - apply eqb_prop.
    by apply (ascii_enum (fun a => eqb (in_set true false CSpace a) (is_space a))).
  - unfold in_set, cset_match, to_upper, to_lower, is_lower, is_upper.
    cbn [cset_mem xorb andb]. beyond_ascii a. simpl.
    by destruct (is_space a).
Qed.

(** Units without a second case are matched by themselves only. *)
Lemma canon_eq_caseless s t :
  forallb (fun c => negb (is_lower c || is_upper c)) t = true ->
  canon_eq true s t -> s = t.
Proof.
  intros Ht H. induction H as [|a c s t Hac _ IH]; [done|].
  cbn [forallb] in Ht. apply andb_true_iff in Ht as [Hc Ht].
  rewrite (IH Ht). f_equal. unfold canonicalize, to_upper in Hac.
  apply negb_true_iff, orb_false_iff in Hc as [Hl Hu]. rewrite Hl in Hac.
  destruct (is_lower a) eqn:Ea; [|done].
  unfold is_lower, is_upper in *.
  apply andb_true_iff in Ea as [E1 E2]. apply N.leb_le in E1, E2.
  apply andb_false_iff in Hu as [Hu|Hu]; apply N.leb_gt in Hu; lia.
Qed.

Lemma doctype_matches_inv t : test true re_doctype t = true -> has_doctype t.
Proof.
  intros H. apply test_true_inv in H as (pre & rest & y & -> & H).
  unfold match_here, re_doctype in H. cbn [sequence] in H.
  rewrite rmatch_seq in H.
  apply rmatch_lit_inv in H as (s1 & r1 & -> & Hs1 & H).
  apply canon_eq_caseless in Hs1 as ->; [|reflexivity].
  rewrite rmatch_seq in H.
  apply rmatch_star_set_inv in H as (w & r2 & -> & Hw & H).
  rewrite rmatch_seq in H.
  apply rmatch_lit_inv in H as (kw & post & -> & Hkw & _).
  exists pre, w, kw, post. split; [done|]. split; [|done].
  eapply Forall_impl; [exact Hw|]. intros a Ha. cbv beta in Ha.
  by rewrite ws_in_set in Ha.
Qed.

Lemma entity_matches_inv t : test true re_entity t = true -> has_entity t.
Proof.
  intros H. apply test_true_inv in H as (pre & rest & y & -> & H).
  unfold match_here, re_entity in H.
  apply rmatch_lit_inv in H as (s1 & post & -> & Hs1 & _).
  change (str "<!ENTITY") with (str "<!" ++ str "ENTITY") in Hs1.
  apply Forall2_app_inv_r in Hs1 as (a & kw & Ha & Hkw & ->).
  apply canon_eq_caseless in Ha as ->; [|reflexivity].
  exists pre, kw, post. split; [by rewrite <- app_assoc|done].
Qed.

(** [sanitizeSvg] throws for the texts that contain a document-type or an
    entity declaration and for no other text: every other text is cleaned
    and returned. *)
Theorem sanitize_throws_exactly t :
  (exists msg, sanitizeSvg t = Throw msg) <-> has_doctype t \/ has_entity t.
Proof.
  rewrite sanitizeSvg_eq. unfold rejected_by_pattern. split.
  - intros [msg H].
    destruct (test true re_doctype t) eqn:Ed; [left; by apply doctype_matches_inv|].
    destruct (test true re_entity t) eqn:Ee; [right; by apply entity_matches_inv|].
    done.
  - intros [H|H].
    + rewrite (doctype_matches t H). by eexists.
    + rewrite (entity_matches t H), orb_true_r. by eexists.
Qed.

Lemma notc_gt a : in_set true true (CChar (chr ">")) a = negb (a =? chr ">").
Proof.
  destruct (N.lt_ge_cases a 128) as [Ha|Ha].
  - apply eqb_prop.
    by apply (ascii_enum (fun a => eqb (in_set true true (CChar (chr ">")) a)
                                     (negb (a =? chr ">")))).
  - unfold in_set, cset_match, to_upper, to_lower, is_lower, is_upper.
    cbn [cset_mem]. change (chr ">") with 62. beyond_ascii a. simpl.
    beyond_ascii a. done.
Qed.

Lemma word_of_upper a : is_upper (to_upper a) = true -> is_word a = true.
Proof.
  destruct (N.lt_ge_cases a 128) as [Ha|Ha].
  - revert a Ha.
    assert (forall a, a < 128 ->
              implb (is_upper (to_upper a)) (is_word a) = true) as H
      by (by apply ascii_enum).
    intros a Ha Hu. specialize (H a Ha). by rewrite Hu in H.
  - unfold to_upper, is_lower, is_upper. beyond_ascii a. simpl.
    beyond_ascii a. done.
Qed.

(** After a literal that ends in a letter, the unit just passed is a word
    character. *)
Lemma head_word_after_lit tag s c bef :
  canon_eq true tag (s ++ [c]) -> is_upper (to_upper c) = true ->
  head_is_word (rev tag ++ bef) = true.
Proof.
  intros H Hc. apply Forall2_app_inv_r in H as (t0 & t1 & _ & H1 & ->).
  inversion H1 as [|a c' l l' Hac Hl]; subst. inversion Hl; subst.
  rewrite rev_app_distr. simpl. apply word_of_upper.
  unfold canonicalize in Hac. by rewrite Hac.
Qed.

Lemma head_is_word_app l x rest :
  head_is_word ((l ++ [x]) ++ rest) = head_is_word (l ++ [x]).
Proof. by destruct l. Qed.

Lemma rmatch_boundary ic k x :
  rmatch ic RWordBoundary k x
  = if xorb (head_is_word (before x)) (head_is_word (after x))
    then k x else None.
Proof. reflexivity. Qed.

Lemma rmatch_char ic c k bef aft cs :
  rmatch ic (RChar c) k (MState bef aft cs)
  = match aft with
    | a :: rest =>
        if canonicalize ic a =? canonicalize ic c
        then k (MState (a :: bef) rest cs) else None
    | [] => None
    end.
Proof. reflexivity. Qed.

Lemma svg_tag_matches t : has_svg_tag t -> test true re_svg t = true.
Proof.
  intros (pre & tag & attrs & post & -> & Htag & Hattrs & Hhead).
  eapply (test_intro true re_svg pre).
  unfold match_here, re_svg. cbn [sequence].
  rewrite rmatch_seq, (rmatch_lit_app true (str "<svg") tag) by exact Htag.
  rewrite rmatch_seq, rmatch_boundary. cbn [before after].
  rewrite (head_word_after_lit tag (str "<sv") (chr "g")) by done.
  rewrite (app_assoc attrs [chr ">"] post), head_is_word_app, Hhead.
  cbn [xorb negb]. rewrite <- (app_assoc attrs [chr ">"] post).
  rewrite rmatch_seq. apply rmatch_star_set_run.
  - eapply Forall_impl; [exact Hattrs|]. intros a Ha. cbv beta in Ha.
    rewrite notc_gt. by apply negb_true_iff, N.eqb_neq.
  - reflexivity.
  - cbn [app]. rewrite rmatch_seq, rmatch_char_same. reflexivity.
Qed.

Lemma svg_tag_matches_inv t : test true re_svg t = true -> has_svg_tag t.
Proof.
  intros H. apply test_true_inv in H as (pre & rest & y & -> & H).
  unfold match_here, re_svg in H. cbn [sequence] in H.
  rewrite rmatch_seq in H.
  apply rmatch_lit_inv in H as (tag & r1 & -> & Htag & H).
  rewrite rmatch_seq, rmatch_boundary in H. cbn [before after] in H.
  rewrite (head_word_after_lit tag (str "<sv") (chr "g")) in H by done.
  destruct (head_is_word r1) eqn:Eh; [done|]. cbn [xorb] in H.
  rewrite rmatch_seq in H.
  apply rmatch_star_set_inv in H as (attrs & r2 & -> & Hattrs & H).
  rewrite rmatch_seq, rmatch_char in H.
  destruct r2 as [|a post]; [done|].
  destruct (canonicalize true a =? canonicalize true (chr ">")) eqn:Ea; [|done].
  apply N.eqb_eq in Ea.
  assert (a = chr ">") as ->.
  { assert (canon_eq true [a] [chr ">"]) as Hc by (by constructor).
    apply canon_eq_caseless in Hc; [by injection Hc|reflexivity]. }
  exists pre, tag, attrs, post. split; [done|]. split; [done|]. split.
  - eapply Forall_impl; [exact Hattrs|]. intros c Hc. cbv beta in Hc.
    rewrite notc_gt in Hc. by apply negb_true_iff, N.eqb_neq in Hc.
  - change (chr ">" :: post) with ([chr ">"] ++ post) in Eh.
    by rewrite app_assoc, head_is_word_app in Eh.
Qed.

(** The final gate of the import accepts exactly the texts with an [svg]
    opening tag: [<svg] in any case, not followed by a word character, and
    closed by a later [>]. *)
Theorem svg_gate_exact t : test true re_svg t = true <-> has_svg_tag t.
Proof. split; [apply svg_tag_matches_inv|apply svg_tag_matches]. Qed.

(** ** What the sanitizer removes *)

(** A construct that one of the removals matches where the scan reaches
    it leaves nothing in the output: the cleaned text is made of units from
    before and after the construct. *)
Lemma removal_generic earlier P later pre elem post y :
  removal_patterns = earlier ++ P :: later ->
  forallb consumes earlier = true ->
  rejected_by_pattern (pre ++ elem ++ post) = false ->
  forallb (fun r => negb (test true r (pre ++ elem ++ post))) earlier = true ->
  no_match_within true P [] pre (elem ++ post) = true ->
  elem <> [] ->
  match_here true P (rev pre) (elem ++ post) = Some y -> after y = post ->
  exists o,
    sanitizeSvg (pre ++ elem ++ post) = Return o /\ sublist o (pre ++ post).
Proof.
  intros Hpat Hcons Hrej Hearlier Hpre Hne Hm Hy.
  rewrite sanitizeSvg_eq, Hrej. eexists. split; [reflexivity|].
  rewrite Hpat, fold_left_app.
  rewrite (proj2 (passes_fixed earlier Hcons _) Hearlier).
  cbn [fold_left]. etransitivity; [apply passes_sublist|].
  unfold pass, replace_all.
  rewrite replace_from_prefix by exact Hpre. rewrite app_nil_r.
  rewrite (replace_from_match true P [] (rev pre) elem post y Hne Hm Hy).
  cbn [app]. apply sublist_app; [done|apply replace_from_sublist].
Qed.

Lemma no_match_within_split ic r pre :
  forall bef rest,
    no_match_within ic r bef pre rest = true ->
    forall b1 b2, pre = b1 ++ b2 -> b2 <> [] ->
      match_here ic r (rev b1 ++ bef) (b2 ++ rest) = None.
Proof.
  induction pre as [|c pre IH]; intros bef rest H b1 b2 Hsplit Hb2.
  - by destruct b1, b2.
  - simpl in H.
    destruct (match_here ic r bef (c :: pre ++ rest)) eqn:E; [done|].
    destruct b1 as [|c' b1].
    + simpl in Hsplit. subst b2. exact E.
    + injection Hsplit as Hc Hp. subst c' pre. simpl. rewrite <- app_assoc.
      by apply (IH (c :: bef) rest H b1 b2).
Qed.

Lemma any_in_set a : in_set true false (CUnion CSpace CNotSpace) a = true.
Proof. unfold in_set, cset_match. cbn [cset_mem xorb]. by destruct (is_space a). Qed.

(** A lazy star over every unit passes the shortest stretch after which
    the continuation accepts. *)
Lemma repeat_lazy_any_run k body :
  forall fuel bef rest cs z,
    (length body < fuel)%nat ->
    (forall b1 b2, body = b1 ++ b2 -> b2 <> [] ->
       k (MState (rev b1 ++ bef) (b2 ++ rest) cs) = None) ->
    k (MState (rev body ++ bef) rest cs) = Some z ->
    repeat_matcher (rmatch true any) [] false k fuel 0 None
      (MState bef (body ++ rest) cs) = Some z.
Proof.
  induction body as [|a body IH]; intros fuel bef rest cs z Hf Hnone Hk;
    (destruct fuel as [|fuel]; [simpl in Hf; lia|]);
    rewrite repeat_matcher_S; cbv zeta; cbn [Nat.eqb negb andb];
    rewrite cap_clear_nil; cbn [before after caps app].
  - simpl in Hk. by rewrite Hk.
  - pose proof (Hnone [] (a :: body) eq_refl ltac:(done)) as H0.
    simpl in H0. rewrite H0. cbn [orelse].
    unfold any. cbn [rmatch after]. fold (in_set true false (CUnion CSpace CNotSpace) a).
    rewrite any_in_set. unfold step1. cbn [before after caps].
    replace (length (body ++ rest) =? length (a :: body ++ rest))%nat with false
      by (symmetry; apply Nat.eqb_neq; simpl; lia).
    apply (IH fuel (a :: bef) rest cs z).
    + simpl in Hf. lia.
    + intros b1 b2 Hsplit Hb2.
      specialize (Hnone (a :: b1) b2). simpl in Hnone.
      rewrite <- app_assoc in Hnone. apply Hnone; [by rewrite Hsplit|done].
    + simpl in Hk. by rewrite <- app_assoc in Hk.
Qed.

Lemma rmatch_lazy_any_run k body bef rest cs z :
  (forall b1 b2, body = b1 ++ b2 -> b2 <> [] ->
     k (MState (rev b1 ++ bef) (b2 ++ rest) cs) = None) ->
  k (MState (rev body ++ bef) rest cs) = Some z ->
  rmatch true (lazy_star any) k (MState bef (body ++ rest) cs) = Some z.
Proof.
  intros Hnone Hk. unfold lazy_star. simpl.
  apply repeat_lazy_any_run; try done. rewrite length_app. lia.
Qed.

(** The closing tag with its white space. *)
Lemma close_tag_match s close w k bef post cs z :
  ci_equal close s ->
  Forall (fun c => is_space c = true) w ->
  k (MState (chr ">" :: rev w ++ rev close ++ bef) post cs) = Some z ->
  rmatch true (RSeq (lit s) (RSeq (star ws) (RSeq (RChar (chr ">")) REmpty))) k
    (MState bef (close ++ w ++ [chr ">"] ++ post) cs) = Some z.
Proof.
  intros Hc Hw Hk. rewrite rmatch_seq, (rmatch_lit_app true s close) by exact Hc.
  rewrite rmatch_seq. apply rmatch_star_set_run.
  - eapply Forall_impl; [exact Hw|]. apply space_in_ws.
  - reflexivity.
  - cbn [app]. rewrite rmatch_seq, rmatch_char_same, rmatch_empty. exact Hk.
Qed.

Ltac norm_rev :=
  repeat first [ rewrite rev_app_distr | rewrite <- app_assoc
               | progress cbn [rev app] ].

(** At the start of a script element the pattern of line 54 matches the
    element, no less and no more. *)
Lemma script_element_match pre elem post :
  script_element pre elem post ->
  match_here true re_script (rev pre) (elem ++ post)
  = Some (MState (rev elem ++ rev pre) post []).
Proof.
  intros (tag & attrs & body & close & w & -> & Htag & Hattrs & Hhead & Hclose
          & Hw & Hbody).
  unfold match_here, re_script. cbn [sequence]. rewrite <- !app_assoc.
  rewrite rmatch_seq, (rmatch_lit_app true (str "<script") tag) by exact Htag.
  rewrite rmatch_seq, rmatch_boundary. cbn [before after].
  rewrite (head_word_after_lit tag (str "<scrip") (chr "t")) by done.
  rewrite (app_assoc attrs [chr ">"]), head_is_word_app, Hhead.
  cbn [xorb]. rewrite <- (app_assoc attrs [chr ">"]).
  rewrite rmatch_seq. apply rmatch_star_set_run.
  - eapply Forall_impl; [exact Hattrs|]. intros a Ha. cbv beta in Ha.
    rewrite notc_gt. by apply negb_true_iff, N.eqb_neq.
  - reflexivity.
  - cbn [app]. rewrite rmatch_seq, rmatch_char_same, rmatch_seq.
    apply rmatch_lazy_any_run.
    + intros b1 b2 Hsplit Hb2.
      pose proof (no_match_within_split true re_script_close body _ _ Hbody
                    b1 b2 Hsplit Hb2) as Hn.
      unfold match_here, re_script_close in Hn. cbn [sequence] in Hn.
      rewrite !rev_app_distr in Hn. cbn [rev app] in Hn.
      rewrite <- !app_assoc in Hn. cbn [app] in Hn. exact Hn.
    + change (close ++ w ++ chr ">" :: post)
        with (close ++ w ++ [chr ">"] ++ post).
      refine (close_tag_match (str "</script") close w Some _ post [] _
                Hclose Hw _).
      do 2 f_equal. norm_rev. reflexivity.
Qed.

Lemma script_element_nonempty pre elem post :
  script_element pre elem post -> elem <> [].
Proof.
  intros (tag & attrs & body & close & w & -> & Htag & _) E.
  apply (f_equal length) in E. rewrite !length_app in E.
  apply Forall2_length in Htag. simpl in *. lia.
Qed.

(** A script element that the scan reaches is removed: where the first
    removal finds no match starting before the element, the cleaned text
    consists of units from before and from after the element only. *)
Theorem script_element_removed pre elem post :
  script_element pre elem post ->
  rejected_by_pattern (pre ++ elem ++ post) = false ->
  no_match_within true re_script [] pre (elem ++ post) = true ->
  exists o,
    sanitizeSvg (pre ++ elem ++ post) = Return o /\ sublist o (pre ++ post).
Proof.
  intros He Hrej Hpre.
  apply (removal_generic [] re_script
           [re_handler; re_jshref; re_embed; re_external] pre elem post
           (MState (rev elem ++ rev pre) post [])); try done.
  - by eapply script_element_nonempty.
  - by apply script_element_match.
Qed.

Lemma script_element_removed_witness :
  exists o,
    sanitizeSvg (str "<svg>"
                 ++ str "<Script type='text/javascript'>if (a<b) alert(1)</SCRIPT >"
                 ++ str "<rect/></svg>") = Return o
    /\ sublist o (str "<svg>" ++ str "<rect/></svg>").
Proof.
  apply (script_element_removed (str "<svg>")
           (str "<Script type='text/javascript'>if (a<b) alert(1)</SCRIPT >")
           (str "<rect/></svg>")).
  - exists (str "<Script"), (str " type='text/javascript'"),
      (str "if (a<b) alert(1)"), (str "</SCRIPT"), (str " ").
    split; [reflexivity|]. split; [repeat constructor|].
    split; [repeat (constructor; [discriminate|]); constructor|].
    split; [reflexivity|]. split; [repeat constructor|].
    split; [repeat constructor|]. vm_compute. reflexivity.
  - vm_compute. reflexivity.
  - vm_compute. reflexivity.
Defined.

Lemma rmatch_set ic inv s k bef a rest cs :
  rmatch ic (RSet inv s) k (MState bef (a :: rest) cs)
  = if in_set ic inv s a then k (MState (a :: bef) rest cs) else None.
Proof. reflexivity. Qed.

(** One or more members of a class. *)
Lemma rmatch_plus_set_run ic inv s k w bef rest cs z :
  w <> [] ->
  Forall (fun a => in_set ic inv s a = true) w ->
  match rest with [] => True | a :: _ => in_set ic inv s a = false end ->
  k (MState (rev w ++ bef) rest cs) = Some z ->
  rmatch ic (plus (RSet inv s)) k (MState bef (w ++ rest) cs) = Some z.
Proof.
  intros Hne Hw Hrest Hk. destruct w as [|a w]; [done|].
  inversion Hw as [|a' w' Ha Hw']; subst.
  unfold plus. simpl. rewrite repeat_matcher_S. cbv zeta.
  cbn [Nat.eqb negb andb]. rewrite cap_clear_nil. cbn [before after caps].
  rewrite rmatch_set, Ha. cbn [Nat.pred dec_max].
  apply repeat_set_run; try done.
  - rewrite length_app. lia.
  - simpl in Hk. by rewrite <- app_assoc in Hk.
Qed.

Lemma wordc_class a : in_set true false CWord a = is_word a.
Proof.
  destruct (N.lt_ge_cases a 128) as [Ha|Ha].
  - apply eqb_prop.
    by apply (ascii_enum (fun a => eqb (in_set true false CWord a) (is_word a))).
  - unfold in_set, cset_match, is_word, is_digit, to_upper, to_lower,
      is_lower, is_upper.
    cbn [cset_mem xorb andb]. unfold is_word, is_digit, is_lower, is_upper.
    beyond_ascii a. simpl. beyond_ascii a. done.
Qed.

Lemma space_not_word a : is_space a = true -> is_word a = false.
Proof.
  destruct (N.lt_ge_cases a 128) as [Ha|Ha].
  - assert (implb (is_space a) (negb (is_word a)) = true) as H
      by (by apply (ascii_enum (fun a => implb (is_space a) (negb (is_word a))))).
    intros Hs. rewrite Hs in H. by apply negb_true_iff in H.
  - intros _. unfold is_word, is_digit, is_lower, is_upper. beyond_ascii a. done.
Qed.

Lemma not_ws_gt_class a :
  in_set true true (CUnion CSpace (CChar (chr ">"))) a
  = negb (is_space a || (a =? chr ">")).
Proof.
  destruct (N.lt_ge_cases a 128) as [Ha|Ha].
  - apply eqb_prop.
    by apply (ascii_enum
                (fun a => eqb (in_set true true (CUnion CSpace (CChar (chr ">"))) a)
                              (negb (is_space a || (a =? chr ">"))))).
  - unfold in_set, cset_match, to_upper, to_lower, is_lower, is_upper.
    cbn [cset_mem]. change (chr ">") with 62. beyond_ascii a. simpl.
    beyond_ascii a. by destruct (is_space a).
Qed.

Lemma canon_quote_neq q a :
  q = dquote \/ q = squote -> a <> q ->
  (canonicalize true a =? canonicalize true q) = false.
Proof.
  intros Hq Hne. apply N.eqb_neq. intros E. apply Hne.
  assert (canon_eq true [a] [q]) as Hc by (by constructor).
  apply canon_eq_caseless in Hc; [by injection Hc|].
  by destruct Hq as [-> | ->].
Qed.

(** A value between quotes that starts with what [r] matches. *)
Lemma quoted_run q r m v k bef post cs z :
  q = dquote \/ q = squote ->
  Forall (fun c => c <> q) v ->
  (forall k' b rest',
     rmatch true r k' (MState b (m ++ rest') cs)
     = k' (MState (rev m ++ b) rest' cs)) ->
  k (MState (q :: rev v ++ rev m ++ q :: bef) post cs) = Some z ->
  rmatch true (quoted q r) k (MState bef (q :: m ++ v ++ q :: post) cs)
  = Some z.
Proof.
  intros Hq Hv Hr Hk. unfold quoted. cbn [sequence].
  rewrite rmatch_seq, rmatch_char_same, rmatch_seq, Hr.
  rewrite rmatch_seq. apply rmatch_star_set_run.
  - eapply Forall_impl; [exact Hv|]. intros a Ha. cbv beta in Ha.
    rewrite notc_quote by exact Hq. by apply negb_true_iff, N.eqb_neq.
  - rewrite notc_quote by exact Hq. by rewrite N.eqb_refl.
  - rewrite rmatch_seq, rmatch_char_same, rmatch_empty. exact Hk.
Qed.

Lemma quoted_fails q r k bef a rest cs :
  q = dquote \/ q = squote -> a <> q ->
  rmatch true (quoted q r) k (MState bef (a :: rest) cs) = None.
Proof.
  intros Hq Ha. unfold quoted. cbn [sequence].
  rewrite rmatch_seq, rmatch_char. by rewrite canon_quote_neq.
Qed.

(** A bare value that starts with what [r] matches. *)
Lemma bare_run r m v k bef post cs z :
  v <> [] ->
  Forall (fun c => is_space c = false /\ c <> chr ">") v ->
  ends_value post = true ->
  (forall k' b rest',
     rmatch true r k' (MState b (m ++ rest') cs)
     = k' (MState (rev m ++ b) rest' cs)) ->
  k (MState (rev v ++ rev m ++ bef) post cs) = Some z ->
  rmatch true (RSeq r (plus not_ws_gt)) k (MState bef (m ++ v ++ post) cs)
  = Some z.
Proof.
  intros Hne Hv Hpost Hr Hk. rewrite rmatch_seq, Hr. unfold not_ws_gt.
  apply rmatch_plus_set_run; try done.
  - eapply Forall_impl; [exact Hv|]. intros a [H1 H2]. rewrite not_ws_gt_class.
    by rewrite H1, (proj2 (N.eqb_neq _ _) H2).
  - destruct post as [|c post]; [done|]. rewrite not_ws_gt_class.
    unfold ends_value in Hpost. by rewrite Hpost.
Qed.

(** The three forms of a value, tried in the order of the pattern. *)
Lemma value_match r r3 m value post k bef cs z :
  attribute_value m value post ->
  (forall k' b rest',
     rmatch true r k' (MState b (m ++ rest') cs)
     = k' (MState (rev m ++ b) rest' cs)) ->
  (forall k' x,
     rmatch true r3 k' x = rmatch true (RSeq r (plus not_ws_gt)) k' x) ->
  k (MState (rev value ++ bef) post cs) = Some z ->
  rmatch true (RAlt (quoted dquote r) (RAlt (quoted squote r) r3)) k
    (MState bef (value ++ post) cs) = Some z.
Proof.
  intros [(q & v & Hq & -> & Hv)|(v & -> & Hne & Hv & Hd & Hs & Hpost)]
    Hr Hr3 Hk.
  - assert (rmatch true (quoted q r) k
              (MState bef (([q] ++ m ++ v ++ [q]) ++ post) cs) = Some z) as H.
    { rewrite <- !app_assoc. cbn [app]. apply quoted_run; try done.
      revert Hk. by norm_rev. }
    rewrite rmatch_alt. destruct Hq as [-> | ->]; [by rewrite H|].
    replace (rmatch true (quoted dquote r) k _) with (@None mstate)
      by (symmetry; apply quoted_fails; [by left|done]).
    cbn [orelse]. rewrite rmatch_alt. by rewrite H.
  - assert (forall q, q = dquote \/ q = squote ->
              rmatch true (quoted q r) k (MState bef ((m ++ v) ++ post) cs)
              = None) as Hfail.
    { intros q Hq. destruct (m ++ v) as [|a l] eqn:E.
      - by destruct m, v.
      - apply quoted_fails; [done|]. intros ->.
        by destruct Hq as [-> | ->]; [apply Hd|apply Hs]. }
    rewrite rmatch_alt, Hfail by (by left). cbn [orelse].
    rewrite rmatch_alt, Hfail by (by right). cbn [orelse].
    rewrite Hr3, <- app_assoc. apply bare_run; try done.
    revert Hk. by rewrite rev_app_distr, <- app_assoc.
Qed.

(** From the white space before [=] to the end of the value. *)
Lemma attr_tail_match r r3 m w1 w2 value post k bef cs z :
  Forall (fun c => is_space c = true) w1 ->
  Forall (fun c => is_space c = true) w2 ->
  attribute_value m value post ->
  match value ++ post with [] => True | a :: _ => is_space a = false end ->
  (forall k' b rest',
     rmatch true r k' (MState b (m ++ rest') cs)
     = k' (MState (rev m ++ b) rest' cs)) ->
  (forall k' x,
     rmatch true r3 k' x = rmatch true (RSeq r (plus not_ws_gt)) k' x) ->
  k (MState (rev (w1 ++ [chr "="] ++ w2 ++ value) ++ bef) post cs) = Some z ->
  rmatch true
    (RSeq (star ws)
       (RSeq (RChar (chr "="))
          (RSeq (star ws)
             (RSeq (RAlt (quoted dquote r) (RAlt (quoted squote r) r3))
                REmpty))))
    k (MState bef (w1 ++ [chr "="] ++ w2 ++ value ++ post) cs) = Some z.
Proof.
  intros Hw1 Hw2 Hval Hhead Hr Hr3 Hk.
  rewrite rmatch_seq. apply rmatch_star_set_run.
  - eapply Forall_impl; [exact Hw1|]. apply space_in_ws.
  - cbn [app]. by rewrite ws_in_set.
  - cbn [app]. rewrite rmatch_seq, rmatch_char_same, rmatch_seq.
    apply rmatch_star_set_run.
    + eapply Forall_impl; [exact Hw2|]. apply space_in_ws.
    + destruct (value ++ post); [done|]. by rewrite ws_in_set.
    + rewrite rmatch_seq. eapply value_match; try done.
      rewrite rmatch_empty. revert Hk. by norm_rev.
Qed.

Lemma value_head m value post :
  attribute_value m value post ->
  match m with [] => True | a :: _ => is_space a = false end ->
  match value ++ post with [] => True | a :: _ => is_space a = false end.
Proof.
  intros [(q & v & Hq & -> & Hv)|(v & -> & Hne & Hv & _)] Hm.
  - cbn [app]. by destruct Hq as [-> | ->].
  - destruct m as [|a m]; [|done]. destruct v as [|a v]; [done|].
    inversion Hv as [|? ? [H _] ?]; subst. exact H.
Qed.

(** At the start of an event-handler attribute the pattern of line 57
    matches the attribute, no less and no more. *)
Lemma handler_attribute_match bef elem post :
  handler_attribute elem post ->
  match_here true re_handler bef (elem ++ post)
  = Some (MState (rev elem ++ bef) post []).
Proof.
  intros (s & on & name & w1 & w2 & value & -> & Hs & Hon & Hne & Hname
          & Hw1 & Hw2 & Hval).
  unfold match_here, re_handler. cbn [sequence].
  rewrite <- !app_assoc. cbn [app].
  rewrite rmatch_seq. unfold ws at 1. rewrite rmatch_set, space_in_ws by done.
  rewrite rmatch_seq, (rmatch_lit_app true (str "on") on) by exact Hon.
  rewrite rmatch_seq. unfold wordc. apply rmatch_plus_set_run; try done.
  - eapply Forall_impl; [exact Hname|]. intros a Ha. by rewrite wordc_class.
  - destruct w1 as [|c w1]; cbn [app]; rewrite wordc_class; [done|].
    inversion Hw1; subst. by apply space_not_word.
  - apply (attr_tail_match REmpty (plus not_ws_gt) []); try done.
    + by apply (value_head []).
    + by norm_rev.
Qed.

Lemma handler_attribute_nonempty elem post :
  handler_attribute elem post -> elem <> [].
Proof. by intros (s & on & name & w1 & w2 & value & -> & _). Qed.

(** An event-handler attribute that the scan reaches is removed: in a text
    without a script element, where the pattern of line 57 finds no match
    starting before the attribute, the cleaned text consists of units from
    before and from after the attribute only. *)
Theorem handler_attribute_removed pre elem post :
  handler_attribute elem post ->
  rejected_by_pattern (pre ++ elem ++ post) = false ->
  test true re_script (pre ++ elem ++ post) = false ->
  no_match_within true re_handler [] pre (elem ++ post) = true ->
  exists o,
    sanitizeSvg (pre ++ elem ++ post) = Return o /\ sublist o (pre ++ post).
Proof.
  intros He Hrej Hscript Hpre.
  apply (removal_generic [re_script] re_handler
           [re_jshref; re_embed; re_external] pre elem post
           (MState (rev elem ++ rev pre) post [])); try done.
  - cbn [forallb]. by rewrite Hscript.
  - by eapply handler_attribute_nonempty.
  - by apply handler_attribute_match.
Qed.

Lemma handler_attribute_removed_witness :
  exists o,
    sanitizeSvg (str "<svg"
                 ++ str " OnLoad = alert(1)"
                 ++ str "><rect/></svg>") = Return o
    /\ sublist o (str "<svg" ++ str "><rect/></svg>").
Proof.
  apply (handler_attribute_removed (str "<svg") (str " OnLoad = alert(1)")
           (str "><rect/></svg>")).
  - exists (chr " "), (str "On"), (str "Load"), (str " "), (str " "),
      (str "alert(1)").
    split; [reflexivity|]. split; [reflexivity|].
    split; [repeat constructor|]. split; [discriminate|].
    split; [repeat constructor|]. split; [repeat constructor|].
    split; [repeat constructor|].
    right. exists (str "alert(1)"). split; [reflexivity|].
    split; [discriminate|].
    split; [repeat (constructor; [split; [reflexivity|discriminate]|]);
            constructor|].
    split; [discriminate|]. split; [discriminate|]. reflexivity.
  - vm_compute. reflexivity.
  - vm_compute. reflexivity.
  - vm_compute. reflexivity.
Defined.

Lemma canon_j_not_space a js :
  ci_equal (a :: js) (str "javascript:") -> is_space a = false.
Proof.
  intros H. inversion H as [|? c ? ? Hac _]; subst.
  destruct (is_space a) eqn:E; [|done].
  apply space_not_word in E. rewrite word_of_upper in E; [done|].
  unfold canonicalize in Hac. by rewrite Hac.
Qed.

(** At the start of a [javascript:] reference the pattern of line 60
    matches the reference, no less and no more. *)
Lemma javascript_href_match bef elem post :
  javascript_href elem post ->
  exists cs,
    match_here true re_jshref bef (elem ++ post)
    = Some (MState (rev elem ++ bef) post cs).
Proof.
  intros (name & w1 & w2 & js & value & -> & Hn & Hw1 & Hw2 & Hjs & Hval).
  eexists. unfold match_here, re_jshref. cbn [sequence].
  rewrite rmatch_seq, rmatch_group, rmatch_alt. rewrite <- !app_assoc.
  assert (forall cs,
    rmatch true
      (RSeq (star ws)
         (RSeq (RChar (chr "="))
            (RSeq (star ws)
               (RSeq (RAlt (quoted dquote (lit (str "javascript:")))
                        (RAlt (quoted squote (lit (str "javascript:")))
                           (sequence [lit (str "javascript:");
                                      plus not_ws_gt])))
                  REmpty))))
      Some
      (MState (rev name ++ bef) (w1 ++ [chr "="] ++ w2 ++ value ++ post) cs)
    = Some (MState (rev (name ++ w1 ++ [chr "="] ++ w2 ++ value) ++ bef)
              post cs)) as Htail.
  { intros cs.
    apply (attr_tail_match (lit (str "javascript:"))
             (sequence [lit (str "javascript:"); plus not_ws_gt]) js);
      try done.
    - apply (value_head js); [done|]. destruct js as [|a js]; [done|].
      by eapply canon_j_not_space.
    - intros k' b rest'. by apply rmatch_lit_app.
    - do 2 f_equal. rewrite !rev_app_distr. cbn [rev app].
      repeat rewrite <- app_assoc. reflexivity. }
  destruct Hn as [Hn|Hn].
  - rewrite (rmatch_lit_app true (str "href") name) by exact Hn.
    cbv beta zeta. cbn [before after caps]. rewrite Htail. reflexivity.
  - rewrite (rmatch_lit true (str "href")). cbn [after].
    replace (canon_prefix true (str "href") _) with false.
    2:{ inversion Hn as [|a c l l' Hac Hl]; subst. simpl.
        unfold canonicalize in *. by rewrite Hac. }
    cbn [orelse].
    rewrite (rmatch_lit_app true (str "xlink:href") name) by exact Hn.
    cbv beta zeta. cbn [before after caps]. rewrite Htail. reflexivity.
Qed.

Lemma javascript_href_nonempty elem post :
  javascript_href elem post -> elem <> [].
Proof.
  intros (name & w1 & w2 & js & value & -> & _) E.
  apply (f_equal length) in E. rewrite !length_app in E. simpl in E. lia.
Qed.

(** A [javascript:] reference that the scan reaches is removed: in a text
    without a script element and without an event-handler attribute, where
    the pattern of line 60 finds no match starting before the reference,
    the cleaned text consists of units from before and from after the
    reference only. *)
Theorem javascript_href_removed pre elem post :
  javascript_href elem post ->
  rejected_by_pattern (pre ++ elem ++ post) = false ->
  test true re_script (pre ++ elem ++ post) = false ->
  test true re_handler (pre ++ elem ++ post) = false ->
  no_match_within true re_jshref [] pre (elem ++ post) = true ->
  exists o,
    sanitizeSvg (pre ++ elem ++ post) = Return o /\ sublist o (pre ++ post).
Proof.
  intros He Hrej Hscript Hhandler Hpre.
  destruct (javascript_href_match (rev pre) elem post He) as [cs Hm].
  apply (removal_generic [re_script; re_handler] re_jshref
           [re_embed; re_external] pre elem post
           (MState (rev elem ++ rev pre) post cs)); try done.
  - cbn [forallb]. by rewrite Hscript, Hhandler.
  - by eapply javascript_href_nonempty.
Qed.

Lemma javascript_href_removed_witness :
  exists o,
    sanitizeSvg (str "<svg><a "
                 ++ str "XLink:Href='JavaScript:alert(1)'"
                 ++ str ">x</a></svg>") = Return o
    /\ sublist o (str "<svg><a " ++ str ">x</a></svg>").
Proof.
  apply (javascript_href_removed (str "<svg><a ")
           (str "XLink:Href='JavaScript:alert(1)'") (str ">x</a></svg>")).
  - exists (str "XLink:Href"), [], [], (str "JavaScript:"),
      (str "'JavaScript:alert(1)'").
    split; [reflexivity|]. split; [right; repeat constructor|].
    split; [constructor|]. split; [constructor|].
    split; [repeat constructor|].
    left. exists squote, (str "alert(1)"). split; [by right|].
    split; [reflexivity|].
    repeat (constructor; [discriminate|]); constructor.
  - vm_compute. reflexivity.
  - vm_compute. reflexivity.
  - vm_compute. reflexivity.
  - vm_compute. reflexivity.
Defined.

Lemma canon_eq_sym ic s t : canon_eq ic s t -> canon_eq ic t s.
Proof. intros H. induction H; constructor; done. Qed.

Lemma canon_eq_trans ic s t u :
  canon_eq ic s t -> canon_eq ic t u -> canon_eq ic s u.
Proof.
  intros H. revert u. induction H as [|a b s t Hab _ IH]; intros u Hu.
  - inversion Hu. constructor.
  - inversion Hu as [|? c ? u' Hbc Hu']; subst. constructor.
    + by rewrite Hab.
    + by apply IH.
Qed.

(** A backreference to a group that took part passes a text equal to the
    capture up to case. *)
Lemma rmatch_backref_app ic n s s' k bef rest cs :
  cap_lookup n cs = Some s -> canon_eq ic s' s ->
  rmatch ic (RBackref n) k (MState bef (s' ++ rest) cs)
  = k (MState (rev s' ++ bef) rest cs).
Proof.
  intros Hc H. simpl. rewrite Hc, canon_prefix_app by done.
  assert (length s = length s') as -> by (symmetry; eapply Forall2_length, H).
  by rewrite stepn_app.
Qed.

Lemma rmatch_backref_inv ic n s k bef aft cs z :
  cap_lookup n cs = Some s ->
  rmatch ic (RBackref n) k (MState bef aft cs) = Some z ->
  exists s' rest,
    aft = s' ++ rest /\ canon_eq ic s' s
    /\ k (MState (rev s' ++ bef) rest cs) = Some z.
Proof.
  intros Hc. simpl. rewrite Hc.
  destruct (canon_prefix ic s aft) eqn:E; [|done]. intros H.
  apply canon_prefix_inv in E as (s' & rest & -> & Hs).
  exists s', rest. split; [done|]. split; [done|].
  assert (length s = length s') as Hl by (symmetry; eapply Forall2_length, Hs).
  by rewrite Hl, stepn_app in H.
Qed.

Lemma take_captured (tag rest : list N) :
  take (length (tag ++ rest) - length rest) (tag ++ rest) = tag.
Proof.
  rewrite length_app.
  replace (length tag + length rest - length rest)%nat with (length tag) by lia.
  apply take_app_length.
Qed.

(** A literal that starts with another letter does not match. *)
Lemma lit_other_fails ic name name' tag k bef rest cs :
  canon_eq ic tag name ->
  match name, name' with
  | c :: _, c' :: _ => canonicalize ic c =? canonicalize ic c'
  | _, _ => true
  end = false ->
  rmatch ic (lit name') k (MState bef (tag ++ rest) cs) = None.
Proof.
  intros H Hc. destruct name as [|c s]; [done|]. destruct name' as [|c' s'];
    [done|].
  inversion H as [|a ? tag' ? Hac _]; subst.
  cbn [lit app]. rewrite rmatch_seq, rmatch_char. by rewrite Hac, Hc.
Qed.

(** Where the closing tag of [name] does not match, the end of the pattern
    of line 63 does not match either, whatever the case in which the name
    was captured. *)
Lemma close_transfer name tag bef aft cs :
  cap_lookup 1 cs = Some tag -> ci_equal tag name ->
  match_here true (close_tag name) bef aft = None ->
  rmatch true
    (RSeq (lit (str "</"))
       (RSeq (RBackref 1) (RSeq (star ws) (RSeq (RChar (chr ">")) REmpty))))
    Some (MState bef aft cs) = None.
Proof.
  intros Hc Htag Hn.
  match goal with |- ?l = None => destruct l as [z|] eqn:E; [|done] end.
  exfalso. rewrite rmatch_seq in E.
  apply rmatch_lit_inv in E as (s1 & r1 & -> & Hs1 & E).
  rewrite rmatch_seq in E.
  apply (rmatch_backref_inv true 1 tag) in E as (s2 & r2 & -> & Hs2 & E);
    [|done].
  rewrite rmatch_seq in E.
  apply rmatch_star_set_inv in E as (w & r3 & -> & Hw & E).
  rewrite rmatch_seq, rmatch_char in E. destruct r3 as [|a r4]; [done|].
  destruct (canonicalize true a =? canonicalize true (chr ">")) eqn:Ea;
    [|done].
  apply N.eqb_eq in Ea.
  assert (a = chr ">") as ->.
  { assert ([a] = [chr ">"]) as Ha
      by (apply canon_eq_caseless; [done|by repeat constructor]).
    by injection Ha. }
  clear E Ea.
  unfold match_here, close_tag in Hn. cbn [sequence] in Hn.
  assert (ci_equal (s1 ++ s2) (str "</" ++ name)) as Hci
    by (apply canon_eq_app; [done|by eapply canon_eq_trans]).
  assert (Forall (fun c => is_space c = true) w) as Hws.
  { eapply Forall_impl; [exact Hw|]. intros c Hcs. cbv beta in Hcs.
    by rewrite ws_in_set in Hcs. }
  pose proof (close_tag_match (str "</" ++ name) (s1 ++ s2) w Some bef r4 []
                _ Hci Hws eq_refl) as Hm.
  rewrite <- app_assoc in Hm. cbn [app] in Hm, Hn. congruence.
Qed.

Lemma embedded_name_last name :
  In name embedded_names ->
  exists s c, name = s ++ [c] /\ is_upper (to_upper c) = true.
Proof.
  intros [<-|[<-|[<-|[<-|[]]]]].
  - by exists (str "ifram"), (chr "e").
  - by exists (str "objec"), (chr "t").
  - by exists (str "embe"), (chr "d").
  - by exists (str "foreignObjec"), (chr "t").
Qed.

(** From the end of the captured name to the end of the element. *)
Lemma embed_tail_match name tag attrs body close w post bef :
  In name embedded_names -> ci_equal tag name ->
  Forall (fun c => c <> chr ">") attrs ->
  head_is_word (attrs ++ [chr ">"]) = false ->
  ci_equal close (str "</" ++ name) ->
  Forall (fun c => is_space c = true) w ->
  (forall b1 b2, body = b1 ++ b2 -> b2 <> [] ->
     match_here true (close_tag name)
       (rev b1 ++ chr ">" :: rev attrs ++ rev tag ++ bef)
       (b2 ++ close ++ w ++ [chr ">"] ++ post) = None) ->
  rmatch true
    (sequence [RWordBoundary; star (notc (chr ">")); RChar (chr ">");
               lazy_star any; lit (str "</"); RBackref 1; star ws;
               RChar (chr ">")])
    Some
    (MState (rev tag ++ bef)
       (attrs ++ [chr ">"] ++ body ++ close ++ w ++ [chr ">"] ++ post)
       [(1%nat, tag)])
  = Some (MState
            (chr ">" :: rev w ++ rev close ++ rev body ++ chr ">" :: rev attrs
             ++ rev tag ++ bef) post [(1%nat, tag)]).
Proof.
  intros Hname Htag Hattrs Hhead Hclose Hw Hbody.
  destruct (embedded_name_last name Hname) as (s & c & -> & Hc).
  cbn [sequence]. rewrite rmatch_seq, rmatch_boundary. cbn [before after].
  rewrite (head_word_after_lit tag s c) by done.
  rewrite (app_assoc attrs [chr ">"]), head_is_word_app, Hhead.
  cbn [xorb]. rewrite <- (app_assoc attrs [chr ">"]).
  rewrite rmatch_seq. apply rmatch_star_set_run.
  - eapply Forall_impl; [exact Hattrs|]. intros a Ha. cbv beta in Ha.
    rewrite notc_gt. by apply negb_true_iff, N.eqb_neq.
  - reflexivity.
  - cbn [app]. rewrite rmatch_seq, rmatch_char_same, rmatch_seq.
    apply rmatch_lazy_any_run.
    + intros b1 b2 Hsplit Hb2.
      apply (close_transfer (s ++ [c]) tag); [done|done|].
      specialize (Hbody b1 b2 Hsplit Hb2). cbn [app] in Hbody. exact Hbody.
    + apply Forall2_app_inv_r in Hclose as (c1 & c2 & Hc1 & Hc2 & ->).
      rewrite <- !app_assoc.
      rewrite rmatch_seq, (rmatch_lit_app true (str "</") c1) by exact Hc1.
      rewrite rmatch_seq, (rmatch_backref_app true 1 tag c2);
        [|done|by eapply canon_eq_trans; [exact Hc2|apply canon_eq_sym]].
      rewrite rmatch_seq. apply rmatch_star_set_run.
      * eapply Forall_impl; [exact Hw|]. apply space_in_ws.
      * reflexivity.
      * cbn [app]. rewrite rmatch_seq, rmatch_char_same, rmatch_empty.
        do 2 f_equal. rewrite rev_app_distr, <- !app_assoc. reflexivity.
Qed.

Lemma embedded_open_rev (pre tag attrs : list N) :
  rev (pre ++ [chr "<"] ++ tag ++ attrs ++ [chr ">"])
  = chr ">" :: rev attrs ++ rev tag ++ chr "<" :: rev pre.
Proof.
  rewrite !rev_app_distr. cbn [rev app]. repeat rewrite <- app_assoc.
  reflexivity.
Qed.

(** At the start of an embedded element the pattern of line 63 matches the
    element, no less and no more. *)
Lemma embedded_element_match pre elem post :
  embedded_element pre elem post ->
  exists cs,
    match_here true re_embed (rev pre) (elem ++ post)
    = Some (MState (rev elem ++ rev pre) post cs).
Proof.
  intros (name & tag & attrs & body & close & w & -> & Hname & Htag & Hattrs
          & Hhead & Hclose & Hw & Hbody).
  exists [(1%nat, tag)].
  pose proof (embed_tail_match name tag attrs body close w post
                (chr "<" :: rev pre) Hname Htag Hattrs Hhead Hclose Hw)
    as Htail.
  assert (rev ([chr "<"] ++ tag ++ attrs ++ [chr ">"] ++ body ++ close ++ w
               ++ [chr ">"]) ++ rev pre
          = chr ">" :: rev w ++ rev close ++ rev body ++ chr ">" :: rev attrs
            ++ rev tag ++ chr "<" :: rev pre) as ->.
  { rewrite !rev_app_distr. cbn [rev app]. repeat rewrite <- app_assoc.
    reflexivity. }
  specialize (Htail (fun b1 b2 Hsplit Hb2 =>
    eq_ind _ (fun b => match_here true (close_tag name) (rev b1 ++ b) _ = None)
      (no_match_within_split true (close_tag name) body _ _ Hbody
         b1 b2 Hsplit Hb2) _ (embedded_open_rev pre tag attrs))).
  cbn [sequence app] in Htail. clear Hbody.
  unfold match_here, re_embed. cbn [sequence]. rewrite <- !app_assoc.
  cbn [app]. rewrite rmatch_seq, rmatch_char_same, rmatch_seq, rmatch_group.
  cbn [before after caps].
  destruct Hname as [<-|[<-|[<-|[<-|[]]]]].
  - rewrite rmatch_alt, (rmatch_lit_app true (str "iframe") tag) by exact Htag.
    cbv beta zeta. cbn [before after caps]. rewrite take_captured, Htail.
    reflexivity.
  - rewrite rmatch_alt.
    rewrite (lit_other_fails true (str "object") (str "iframe")) by done.
    cbn [orelse].
    rewrite rmatch_alt, (rmatch_lit_app true (str "object") tag) by exact Htag.
    cbv beta zeta. cbn [before after caps]. rewrite take_captured, Htail.
    reflexivity.
  - rewrite rmatch_alt.
    rewrite (lit_other_fails true (str "embed") (str "iframe")) by done.
    cbn [orelse]. rewrite rmatch_alt.
    rewrite (lit_other_fails true (str "embed") (str "object")) by done.
    cbn [orelse].
    rewrite rmatch_alt, (rmatch_lit_app true (str "embed") tag) by exact Htag.
    cbv beta zeta. cbn [before after caps]. rewrite take_captured, Htail.
    reflexivity.
  - rewrite rmatch_alt.
    rewrite (lit_other_fails true (str "foreignObject") (str "iframe")) by done.
    cbn [orelse]. rewrite rmatch_alt.
    rewrite (lit_other_fails true (str "foreignObject") (str "object")) by done.
    cbn [orelse]. rewrite rmatch_alt.
    rewrite (lit_other_fails true (str "foreignObject") (str "embed")) by done.
    cbn [orelse].
    rewrite (rmatch_lit_app true (str "foreignObject") tag) by exact Htag.
    cbv beta zeta. cbn [before after caps]. rewrite take_captured, Htail.
    reflexivity.
Qed.

Lemma embedded_element_nonempty pre elem post :
  embedded_element pre elem post -> elem <> [].
Proof. by intros (name & tag & attrs & body & close & w & -> & _). Qed.

(** An embedded element ([iframe], [object], [embed], [foreignObject]) that
    the scan reaches is removed: in a text on which the three earlier
    removals find nothing, where the pattern of line 63 finds no match
    starting before the element, the cleaned text consists of units from
    before and from after the element only. *)
Theorem embedded_element_removed pre elem post :
  embedded_element pre elem post ->
  rejected_by_pattern (pre ++ elem ++ post) = false ->
  test true re_script (pre ++ elem ++ post) = false ->
  test true re_handler (pre ++ elem ++ post) = false ->
  test true re_jshref (pre ++ elem ++ post) = false ->
  no_match_within true re_embed [] pre (elem ++ post) = true ->
  exists o,
    sanitizeSvg (pre ++ elem ++ post) = Return o /\ sublist o (pre ++ post).
Proof.
  intros He Hrej Hscript Hhandler Hjs Hpre.
  destruct (embedded_element_match pre elem post He) as [cs Hm].
  apply (removal_generic [re_script; re_handler; re_jshref] re_embed
           [re_external] pre elem post
           (MState (rev elem ++ rev pre) post cs)); try done.
  - cbn [forallb]. by rewrite Hscript, Hhandler, Hjs.
  - by eapply embedded_element_nonempty.
Qed.

Lemma embedded_element_removed_witness :
  exists o,
    sanitizeSvg (str "<svg>"
                 ++ str "<ForeignObject width='9'><p>a</p></foreignobject >"
                 ++ str "<rect/></svg>") = Return o
    /\ sublist o (str "<svg>" ++ str "<rect/></svg>").
Proof.
  apply (embedded_element_removed (str "<svg>")
           (str "<ForeignObject width='9'><p>a</p></foreignobject >")
           (str "<rect/></svg>")).
  - exists (str "foreignObject"), (str "ForeignObject"), (str " width='9'"),
      (str "<p>a</p>"), (str "</foreignobject"), (str " ").
    split; [reflexivity|]. split; [simpl; tauto|].
    split; [repeat constructor|].
    split; [repeat (constructor; [discriminate|]); constructor|].
    split; [reflexivity|]. split; [repeat constructor|].
    split; [repeat constructor|]. vm_compute. reflexivity.
  - vm_compute. reflexivity.
  - vm_compute. reflexivity.
  - vm_compute. reflexivity.
  - vm_compute. reflexivity.
  - vm_compute. reflexivity.
Defined.

(** ** External references: every match of the last removal *)

(** The scan over [pre ++ rest], split where it leaves [pre]. *)
Lemma replace_from_app ic r pre :
  forall bef rest skip,
    exists o1,
      sublist o1 pre
      /\ replace_from ic r [] bef (pre ++ rest) skip
         = o1 ++ replace_from ic r [] (rev pre ++ bef) rest
                   (crossing ic r bef pre rest skip)
      /\ (skip = 0%nat -> no_match_within ic r bef pre rest = true ->
          o1 = pre /\ crossing ic r bef pre rest skip = 0%nat).
Proof.
  induction pre as [|c pre IH]; intros bef rest skip.
  - exists []. split; [constructor|]. split; [reflexivity|]. by intros ->.
  - destruct skip as [|n]; cbn [replace_from crossing app rev no_match_within].
    + destruct (match_here ic r bef (c :: pre ++ rest)) as [y|] eqn:E.
      * cbn [app length].
        destruct (S (length (pre ++ rest)) - length (after y))%nat as [|n].
        -- destruct (IH (c :: bef) rest 0%nat) as (o1 & Hs & Heq & _).
           exists (c :: o1). split; [by apply sublist_skip|].
           split; [|done]. rewrite Heq, <- app_assoc. reflexivity.
        -- destruct (IH (c :: bef) rest n) as (o1 & Hs & Heq & _).
           exists o1. split; [by apply sublist_cons|].
           split; [|done]. rewrite Heq, <- app_assoc. reflexivity.
      * destruct (IH (c :: bef) rest 0%nat) as (o1 & Hs & Heq & Hn).
        exists (c :: o1). split; [by apply sublist_skip|].
        split; [rewrite Heq, <- app_assoc; reflexivity|].
        intros _ Hnm. destruct (Hn eq_refl Hnm) as [-> Hc]. done.
    + destruct (IH (c :: bef) rest n) as (o1 & Hs & Heq & _).
      exists o1. split; [by apply sublist_cons|].
      split; [|done]. rewrite Heq, <- app_assoc. reflexivity.
Qed.

(** Units still to be dropped are dropped whatever they are. *)
Lemma replace_from_skip_ge ic r m :
  forall bef rest k,
    (length m <= k)%nat ->
    replace_from ic r [] bef (m ++ rest) k
    = replace_from ic r [] (rev m ++ bef) rest (k - length m).
Proof.
  induction m as [|c m IH]; intros bef rest k Hk.
  - cbn [app rev length]. by rewrite Nat.sub_0_r.
  - destruct k as [|k]; [simpl in Hk; lia|].
    cbn [app rev length replace_from Nat.sub].
    rewrite IH by (simpl in Hk; lia). by rewrite <- app_assoc.
Qed.

(** A match of a quoted value ends with the closing quote. *)
Lemma quoted_match_end q r k y z :
  q = dquote \/ q = squote ->
  rmatch true (quoted q r) k y = Some z ->
  exists m rest cs,
    after y = m ++ q :: rest
    /\ k (MState (q :: rev m ++ before y) rest cs) = Some z.
Proof.
  intros Hq H. unfold quoted in H. cbn [sequence] in H.
  rewrite rmatch_seq in H. apply rmatch_extends in H as (y1 & E1 & H).
  rewrite rmatch_seq in H. apply rmatch_extends in H as (y2 & E2 & H).
  rewrite rmatch_seq in H. apply rmatch_extends in H as (y3 & E3 & H).
  pose proof (extends_trans _ _ _ (extends_trans _ _ _ E1 E2) E3)
    as (m & Ha & Hb).
  destruct y3 as [b3 a3 c3]. cbn [before after] in *.
  rewrite rmatch_seq, rmatch_char in H. destruct a3 as [|a rest]; [done|].
  destruct (canonicalize true a =? canonicalize true q) eqn:Ea; [|done].
  apply N.eqb_eq in Ea.
  assert (a = q) as ->.
  { assert ([a] = [q]) as E
      by (apply canon_eq_caseless;
          [by destruct Hq as [-> | ->]|by repeat constructor]).
    by injection E. }
  rewrite rmatch_empty in H. exists m, rest, c3. by rewrite <- Hb.
Qed.

(** A match of the pattern of line 67 ends with a quote. *)
Lemma external_match_quote bef s z :
  match_here true re_external bef s = Some z ->
  exists m q, s = m ++ q :: after z /\ (q = dquote \/ q = squote).
Proof.
  unfold match_here, re_external. cbn [sequence]. intros H.
  rewrite rmatch_seq in H. apply rmatch_extends in H as (y1 & E1 & H).
  rewrite rmatch_seq in H. apply rmatch_extends in H as (y2 & E2 & H).
  rewrite rmatch_seq in H. apply rmatch_extends in H as (y3 & E3 & H).
  rewrite rmatch_seq in H. apply rmatch_extends in H as (y4 & E4 & H).
  pose proof (extends_trans _ _ _
                (extends_trans _ _ _ (extends_trans _ _ _ E1 E2) E3) E4)
    as (m0 & Ha & _).
  cbn [after] in Ha. rewrite rmatch_seq, rmatch_alt in H.
  assert (exists q m rest cs,
            (q = dquote \/ q = squote) /\ after y4 = m ++ q :: rest
            /\ Some (MState (q :: rev m ++ before y4) rest cs) = Some z)
    as (q & m & rest & cs & Hq & Hy & Hz).
  { destruct (rmatch true (quoted dquote http_scheme) _ y4) as [z'|] eqn:Ed;
      cbn [orelse] in H.
    - injection H as ->.
      apply quoted_match_end in Ed as (m & rest & cs & Hy & Hk); [|by left].
      exists dquote, m, rest, cs. rewrite rmatch_empty in Hk.
      split; [by left|done].
    - apply quoted_match_end in H as (m & rest & cs & Hy & Hk); [|by right].
      exists squote, m, rest, cs. rewrite rmatch_empty in Hk.
      split; [by right|done]. }
  injection Hz as <-. cbn [after]. exists (m0 ++ m), q.
  split; [|done]. by rewrite Ha, Hy, <- app_assoc.
Qed.

(** When the scan crosses into [rest] inside a match, the match ends in
    [rest] with a quote. *)
Lemma crossing_quote pre :
  forall bef rest skip,
    quote_at skip (pre ++ rest) ->
    quote_at (crossing true re_external bef pre rest skip) rest.
Proof.
  induction pre as [|c pre IH]; intros bef rest skip Hq; [done|].
  destruct skip as [|n]; cbn [crossing].
  - destruct (match_here true re_external bef ((c :: pre) ++ rest))
      as [y|] eqn:E; [|by apply IH].
    apply external_match_quote in E as (m & q & Es & Hquote).
    rewrite Es, !length_app. cbn [length].
    replace (length m + S (length (after y)) - length (after y))%nat
      with (S (length m)) by lia.
    apply IH. destruct m as [|c' m]; [done|].
    cbn [app] in Es. injection Es as _ Es. rewrite Es. cbn [length quote_at].
    exists q. split; [|done].
    by rewrite lookup_app_r, Nat.sub_diag by lia.
  - apply IH. destruct n as [|n]; [done|]. exact Hq.
Qed.

Lemma canon_eq_no_quote s t :
  canon_eq true s t ->
  forallb (fun c => negb (to_upper c =? dquote) && negb (to_upper c =? squote))
    t = true ->
  Forall (fun a => a <> dquote /\ a <> squote) s.
Proof.
  induction 1 as [|a c s t Hac _ IH]; intros Ht; [constructor|].
  cbn [forallb] in Ht. apply andb_true_iff in Ht as [Hc Ht].
  constructor; [|by apply IH]. unfold canonicalize in Hac.
  apply andb_true_iff in Hc as [H1 H2].
  apply negb_true_iff, N.eqb_neq in H1, H2.
  split; intros ->; [apply H1|apply H2]; by rewrite <- Hac.
Qed.

(** No unit of an attribute before the opening quote of its value is a
    quote. *)
Lemma head_before_quote head tail n q :
  external_attr_head head ->
  (head ++ tail) !! n = Some q -> q = dquote \/ q = squote ->
  (length head <= S n)%nat.
Proof.
  intros (name & w1 & w2 & q0 & -> & Hn & Hw1 & Hw2 & _) Hl Hq.
  assert (Forall (fun c => c <> dquote /\ c <> squote)
            (name ++ w1 ++ [chr "="] ++ w2)) as Hno.
  { assert (forall w, Forall (fun c => is_space c = true) w ->
              Forall (fun c => c <> dquote /\ c <> squote) w) as Hsp.
    { intros w Hw. eapply Forall_impl; [exact Hw|]. intros c Hc.
      split; intros ->; done. }
    apply Forall_app. split.
    - destruct Hn as [Hn|Hn]; by apply (canon_eq_no_quote _ _ Hn).
    - apply Forall_app. split; [by apply Hsp|].
      apply Forall_app. split; [|by apply Hsp].
      constructor; [|constructor]. split; discriminate. }
  rewrite !length_app. cbn [length].
  destruct (decide (n < length (name ++ w1 ++ [chr "="] ++ w2))%nat)
    as [Hlt|Hge].
  - exfalso. rewrite <- !app_assoc in Hl.
    rewrite (app_assoc name), (app_assoc (name ++ w1)),
      (app_assoc ((name ++ w1) ++ [chr "="])) in Hl.
    rewrite lookup_app_l in Hl by (by rewrite <- !app_assoc).
    rewrite <- !app_assoc in Hl. rewrite Forall_forall in Hno.
    apply list_elem_of_lookup_2, Hno in Hl. destruct Hq as [-> | ->]; tauto.
  - rewrite !length_app in Hge. cbn [length] in Hge. lia.
Qed.

Lemma external_attr_split attr :
  quoted_external_attr attr ->
  exists head tail, attr = head ++ tail /\ external_attr_head head.
Proof.
  intros (name & w1 & w2 & q & scheme & value & -> & Hn & Hw1 & Hw2 & Hq & _).
  exists (name ++ w1 ++ [chr "="] ++ w2 ++ [q]),
    (scheme ++ str "://" ++ value ++ [q]).
  split; [by rewrite <- !app_assoc|]. by exists name, w1, w2, q.
Qed.

(** C6, as amended: the last removal, which runs over the text left by
    the four earlier ones, hits every [href] or [xlink:href] attribute of
    that text whose value, in double or in single quotes, starts with
    [http://] or [https://].  The cleaned text consists of units from
    before the attribute and of units from behind the opening quote of its
    value: the name, the equals sign and the opening quote are deleted in
    any case.  Where the scan reaches the start of the attribute, which it
    does unless an earlier match of this removal runs into it, the
    attribute is deleted whole; where no match starts before it, what
    precedes it is kept as it is. *)
Theorem quoted_external_href_removed t pre attr post :
  rejected_by_pattern t = false ->
  before_last_pass t = pre ++ attr ++ post ->
  quoted_external_attr attr ->
  exists o1 o2 head tail,
    sanitizeSvg t = Return (o1 ++ o2)
    /\ attr = head ++ tail /\ external_attr_head head
    /\ sublist o1 pre /\ sublist o2 (tail ++ post)
    /\ (crossing true re_external [] pre (attr ++ post) 0 = 0%nat ->
        sublist o2 post)
    /\ (no_match_within true re_external [] pre (attr ++ post) = true ->
        o1 = pre /\ sublist o2 post).
Proof.
  intros Hrej Ht Ha.
  assert (sanitizeSvg t
          = Return (replace_from true re_external [] [] (pre ++ attr ++ post) 0))
    as Hs.
  { rewrite sanitizeSvg_eq, Hrej. f_equal.
    change removal_patterns with (earlier_patterns ++ [re_external]).
    rewrite fold_left_app. fold (before_last_pass t). by rewrite Ht. }
  destruct (replace_from_app true re_external pre [] (attr ++ post) 0%nat)
    as (o1 & Hs1 & Heq & Hnm).
  pose proof (crossing_quote pre [] (attr ++ post) 0%nat I) as Hq.
  destruct (external_attr_split attr Ha) as (head & tail & Hattr & Hhead).
  rewrite Hs, Heq. rewrite app_nil_r in *.
  destruct (crossing true re_external [] pre (attr ++ post) 0) as [|n] eqn:Ek.
  - destruct (external_attr_match attr (rev pre) post Ha) as [cs Hm].
    rewrite (replace_from_match true re_external [] (rev pre) attr post _
               (quoted_external_attr_nonempty attr Ha) Hm eq_refl).
    cbn [app].
    assert (sublist (replace_from true re_external [] (rev attr ++ rev pre)
                       post 0) post) as Hsub by apply replace_from_sublist.
    exists o1, (replace_from true re_external [] (rev attr ++ rev pre) post 0),
      head, tail.
    split; [done|]. split; [done|]. split; [done|]. split; [done|].
    split; [by apply sublist_inserts_l|]. split; [done|].
    intros H. by destruct (Hnm eq_refl H) as [-> _].
  - destruct Hq as (q & Hl & Hquote). subst attr.
    rewrite <- app_assoc in Hl, Hnm |- *.
    pose proof (head_before_quote head (tail ++ post) n q Hhead Hl Hquote)
      as Hlen.
    rewrite (replace_from_skip_ge true re_external head) by exact Hlen.
    eexists o1, _, head, tail.
    split; [reflexivity|]. split; [done|]. split; [done|]. split; [done|].
    split; [apply replace_from_sublist|]. split; [done|].
    intros H. by destruct (Hnm eq_refl H) as [_ ?].
Qed.

Lemma quoted_external_href_removed_witness :
  exists o1 o2 head tail,
    sanitizeSvg
      (str "<svg><image onload='x()' href='http://a.example/1.png'/>"
       ++ str "<image xlink:HREF = 'https://b.example/2.png'/></svg>")
    = Return (o1 ++ o2)
    /\ str "xlink:HREF = 'https://b.example/2.png'" = head ++ tail
    /\ external_attr_head head
    /\ sublist o1 (str "<svg><image href='http://a.example/1.png'/><image ")
    /\ sublist o2 (tail ++ str "/></svg>")
    /\ (crossing true re_external []
          (str "<svg><image href='http://a.example/1.png'/><image ")
          (str "xlink:HREF = 'https://b.example/2.png'" ++ str "/></svg>") 0
        = 0%nat ->
        sublist o2 (str "/></svg>"))
    /\ (no_match_within true re_external []
          (str "<svg><image href='http://a.example/1.png'/><image ")
          (str "xlink:HREF = 'https://b.example/2.png'" ++ str "/></svg>")
        = true ->
        o1 = str "<svg><image href='http://a.example/1.png'/><image "
        /\ sublist o2 (str "/></svg>")).
Proof.
  apply (quoted_external_href_removed
           (str "<svg><image onload='x()' href='http://a.example/1.png'/>"
            ++ str "<image xlink:HREF = 'https://b.example/2.png'/></svg>")
           (str "<svg><image href='http://a.example/1.png'/><image ")
           (str "xlink:HREF = 'https://b.example/2.png'")
           (str "/></svg>")).
  - vm_compute. reflexivity.
  - vm_compute. reflexivity.
  - exists (str "xlink:HREF"), (str " "), (str " "), squote, (str "https"),
      (str "b.example/2.png").
    split; [reflexivity|]. split; [left; repeat constructor|].
    split; [repeat constructor|]. split; [repeat constructor|].
    split; [right; reflexivity|]. split; [right; repeat constructor|].
    repeat (constructor; [discriminate|]). constructor.
Defined.

(** Both references of that document are deleted, the second one after the
    scan went through the first. *)
Example two_references_removed :
  sanitizeSvg
    (str "<svg><image onload='x()' href='http://a.example/1.png'/>"
     ++ str "<image xlink:HREF = 'https://b.example/2.png'/></svg>")
  = Return (str "<svg><image /><image /></svg>")
  /\ crossing true re_external []
       (str "<svg><image href='http://a.example/1.png'/><image ")
       (str "xlink:HREF = 'https://b.example/2.png'" ++ str "/></svg>") 0
     = 0%nat.
Proof. vm_compute. done. Qed.

(** The claim cannot be stated on the text that enters [sanitizeSvg]: an
    earlier removal can take the closing quote of the value, and the start
    of the reference then stays. *)
Example external_href_cut_by_earlier_removal :
  sanitizeSvg (str "<svg><a href='http://e.example/ onx=1'>y</a></svg>")
  = Return (str "<svg><a href='http://e.example/>y</a></svg>").
Proof. vm_compute. reflexivity. Qed.
